(** * The car-plate OCR demo (open/demo/learn/main.py): label codec,
      sequence MLP, trainer, model serializer and predictor, the helpers
      of the job (parameters, environment, data set layout), and the
      constructor of the client of the experiment service
      (animus_sdk/experiments.py).

    Modelling conventions.
    - A Python [str] is a [string]; iterating over it yields its characters
      as one-character strings, as Python does.
    - A [dict] with string keys is a [gmap string _]; a [set] is a [gset].
    - A Python exception is a value of [exn]; a function that can raise
      returns a [result].  The exceptions modelled are the ones that depend
      on the data: a failed lookup, an index out of range, shapes that do
      not fit, a division by zero, the trainer's and the predictor's own
      [RuntimeError].
    - Sizes and counts are natural numbers; the entries of a label array
      are integers.
    - A numpy vector is a list; a matrix and a rank-3 array are records of
      a shape and an accessor.  Arithmetic on array elements is kept
      abstract (class [FloatOps]): no algebraic law of floating point is
      used unless a theorem names it as a hypothesis. *)

From stdpp Require Import gmap strings list sorting.
From Stdlib Require Import ZArith.
From Stdlib Require SpecFloat.

Open Scope string_scope.
Open Scope list_scope.
Open Scope nat_scope.

(** ** Exceptions *)

Inductive exn : Type :=
  | KeyError (key : string)
  | IndexError
  | ValueError
  | TypeError
  | AttributeError
  | OverflowError
  | ZeroDivisionError
  | RuntimeError (msg : string).

Inductive result (A : Type) : Type :=
  | Ok (a : A)
  | Raise (e : exn).
Arguments Ok {A} a.
Arguments Raise {A} e.

Definition rbind {A B} (m : result A) (k : A → result B) : result B :=
  match m with
  | Ok a => k a
  | Raise e => Raise e
  end.

Notation "x ←? m ; k" := (rbind m (λ x, k))
  (at level 20, m at level 100, k at level 200, only parsing).
Notation "' p ←? m ; k" := (rbind m (λ p, k))
  (at level 20, p pattern, m at level 100, k at level 200, only parsing).

(** [for x in xs: acc = body(acc, x)], stopping at the first exception. *)
Fixpoint for_each {A S} (body : S → A → result S) (s : S) (xs : list A) : result S :=
  match xs with
  | [] => Ok s
  | x :: xs => s' ←? body s x; for_each body s' xs
  end.

(** [enumerate(xs)] *)
Definition enumerate {A} (xs : list A) : list (nat * A) := imap pair xs.

(** ** Label codec *)

Definition PAD_TOKEN : string := "<pad>".

(** [for ch in label]: the characters of a label, each a string of length 1. *)
Fixpoint chars_of (label : string) : list string :=
  match label with
  | EmptyString => []
  | String c rest => String c EmptyString :: chars_of rest
  end.

(** ["".join(tokens)] *)
Definition join (tokens : list string) : string := foldr String.app "" tokens.

(** [sorted(...)] on strings: ascending in Python's order on [str]
    (lexicographic by code point). *)
Definition sorted : list string → list string := merge_sort String.le.

Definition _build_vocab (labels : list string) : list string :=
  let chars := sorted (elements (list_to_set (labels ≫= chars_of) : gset string)) in
  if decide (PAD_TOKEN ∈ chars) then chars else chars ++ [PAD_TOKEN].

(** [{t: i for i, t in enumerate(vocab)}]: a later entry overwrites an
    earlier one with the same token. *)
Definition tok_to_idx (vocab : list string) : gmap string nat :=
  foldl (λ m it, <[it.2 := it.1]> m) ∅ (enumerate vocab).

(** One row of [_encode_labels]: the row starts as [max_len] copies of
    [pad_idx], then position [j] receives the index of the j-th character
    of [label[:max_len]]. *)
Definition encode_row (tok : gmap string nat) (pad_idx max_len : nat)
    (label : string) : list nat :=
  foldl (λ row it, <[it.1 := default pad_idx (tok !! it.2)]> row)
        (replicate max_len pad_idx)
        (enumerate (take max_len (chars_of label))).

Definition _encode_labels (labels : list string) (vocab : list string)
    (max_len : nat) : result (list (list nat)) :=
  let tok := tok_to_idx vocab in
  pad_idx ←? match tok !! PAD_TOKEN with
             | Some i => Ok i
             | None => Raise (KeyError PAD_TOKEN)
             end;
  Ok (encode_row tok pad_idx max_len <$> labels).

(** The tail of [_predict_text]:
    [while tokens and tokens[-1] == pad_token: tokens.pop(); confs.pop()].
    Each iteration removes one element, so [length tokens] iterations
    suffice. *)
Fixpoint pop_trailing {C} (fuel : nat) (pad_token : string)
    (tokens : list string) (confs : list C) : list string * list C :=
  match fuel with
  | O => (tokens, confs)
  | S fuel =>
      match last tokens with
      | Some t =>
          if decide (t = pad_token)
          then pop_trailing fuel pad_token (removelast tokens) (removelast confs)
          else (tokens, confs)
      | None => (tokens, confs)
      end
  end.

Definition strip_padding {C} (pad_token : string) (tokens : list string)
    (confs : list C) : list string * list C :=
  pop_trailing (length tokens) pad_token tokens confs.

(** [vocab[idx]] for a non-negative index. *)
Definition vocab_at (vocab : list string) (idx : nat) : result string :=
  match vocab !! idx with
  | Some t => Ok t
  | None => Raise IndexError
  end.

(** [mapM]: collect results, first exception wins. *)
Fixpoint collect {A B} (f : A → result B) (xs : list A) : result (list B) :=
  match xs with
  | [] => Ok []
  | x :: xs => y ←? f x; ys ←? collect f xs; Ok (y :: ys)
  end.

(** Decoding as [_predict_text] does it once the indices are known: look
    every index up in the vocabulary, drop the trailing run of the padding
    token, join. *)
Definition decode (indices : list nat) (vocab : list string)
    (pad_token : string) : result string :=
  tokens ←? collect (vocab_at vocab) indices;
  Ok (join (strip_padding pad_token tokens (indices)).1).


(** ** Floating-point scalars

    [F] stands for the floating-point values of Python and numpy (a Python
    [float], an element of a [float32] or [float64] array).  The operations
    are those numpy and Python apply at the precision their typing rules
    select; they are parameters of the development.  Reductions ([sum],
    [max], [mean], [argmax], the inner product of a matrix product) are
    parameters as well: numpy fixes neither their summation order nor their
    rounding.  Each entry of a matrix product is taken to be a function of
    the corresponding row and column. *)

Class FloatOps (F : Type) := {
  f_zero : F;                       (* 0.0 *)
  f_one : F;                        (* 1.0 *)
  f_1e_9 : F;                       (* 1e-9 *)
  f_1e_6 : F;                       (* 1e-6 *)
  f_inf : F;                        (* float("inf") *)
  f_of_nat : nat → F;               (* float(n) for a length or a count *)
  float_of_int : Z → option F;      (* float(i); None is OverflowError *)
  float_of_str : string → option F; (* float(s); None is ValueError *)
  f_add : F → F → F;
  f_sub : F → F → F;
  f_mul : F → F → F;
  f_div : F → F → F;                (* numpy division: never raises *)
  f_neg : F → F;
  f_exp : F → F;
  f_log : F → F;
  f_sqrt : F → F;
  f_ltb : F → F → bool;             (* a < b *)
  f_leb : F → F → bool;             (* a <= b *)
  f_eqb : F → F → bool;             (* a == b *)
  np_maximum : F → F → F;
  np_sum : list F → F;
  np_max : list F → F;
  np_mean : list F → F;
  np_argmax : list F → nat;
  np_dot : list F → list F → F;
  astype32 : F → F;                 (* .astype(np.float32) on one element *)
}.

#[export] Instance float_inhabited {F} `{FloatOps F} : Inhabited F := populate f_zero.

(** Python's builtin [max(a, b)]: [b] only if [b > a]. *)
Definition py_max {F} `{FloatOps F} (a b : F) : F :=
  if f_ltb a b then b else a.

(** Python's builtin [min(xs)] on a non-empty list: the first smallest. *)
Definition py_min {F} `{FloatOps F} (x : F) (xs : list F) : F :=
  foldl (λ m c, if f_ltb c m then c else m) x xs.

(** Python's [a / float(n)]: ZeroDivisionError when [n] is 0. *)
Definition py_div_nat {F} `{FloatOps F} (a : F) (n : nat) : result F :=
  if decide (n = 0) then Raise ZeroDivisionError else Ok (f_div a (f_of_nat n)).

(** ** Arrays

    A vector is a list.  A matrix and a rank-3 array carry their shape and
    an accessor, read only inside the shape. *)

Record mat (A : Type) : Type := Mat {
  nrows : nat;
  ncols : nat;
  mat_at : nat → nat → A;
}.
Arguments Mat {A} _ _ _.
Arguments nrows {A} _.
Arguments ncols {A} _.
Arguments mat_at {A} _ _ _.

Record ten (A : Type) : Type := Ten {
  tdim0 : nat;
  tdim1 : nat;
  tdim2 : nat;
  ten_at : nat → nat → nat → A;
}.
Arguments Ten {A} _ _ _ _.
Arguments tdim0 {A} _.
Arguments tdim1 {A} _.
Arguments tdim2 {A} _.
Arguments ten_at {A} _ _ _ _.

(** [m.size] *)
Definition mat_size {A} (m : mat A) : nat := nrows m * ncols m.

(** [m[i, :]] and [m[:, j]] as vectors *)
Definition mat_row {A} (m : mat A) (i : nat) : list A :=
  mat_at m i <$> seq 0 (ncols m).
Definition mat_col {A} (m : mat A) (j : nat) : list A :=
  (λ i, mat_at m i j) <$> seq 0 (nrows m).

(** The rows of a matrix, and a matrix from rows of length [c]. *)
Definition mat_rows {A} (m : mat A) : list (list A) :=
  mat_row m <$> seq 0 (nrows m).
Definition mat_of_rows {A} (d : A) (c : nat) (rows : list (list A)) : mat A :=
  Mat (length rows) c (λ i j, nth j (nth i rows []) d).

(** A freshly computed array: its entries are computed once and stored,
    as numpy stores the result of an operation. *)
Definition tabulate {A} `{Inhabited A} (n m : nat) (f : nat → nat → A) : mat A :=
  let cells := (λ i, f i <$> seq 0 m) <$> seq 0 n in
  Mat n m (λ i j, (cells !!! i) !!! j).
Definition ten_tabulate {A} `{Inhabited A} (a b c : nat) (f : nat → nat → nat → A)
    : ten A :=
  let cells := (λ p, (λ i, f p i <$> seq 0 c) <$> seq 0 b) <$> seq 0 a in
  Ten a b c (λ p i j, ((cells !!! p) !!! i) !!! j).

Arguments tabulate : simpl never.
Arguments ten_tabulate : simpl never.

Definition mat_map {A B} `{Inhabited B} (f : A → B) (m : mat A) : mat B :=
  tabulate (nrows m) (ncols m) (λ i j, f (mat_at m i j)).
Definition ten_map {A B} `{Inhabited B} (f : A → B) (t : ten A) : ten B :=
  ten_tabulate (tdim0 t) (tdim1 t) (tdim2 t) (λ p i j, f (ten_at t p i j)).

(** [m.T] *)
Definition mat_T {A} (m : mat A) : mat A :=
  Mat (ncols m) (nrows m) (λ i j, mat_at m j i).

(** [m[:k]] *)
Definition mat_take {A} (k : nat) (m : mat A) : mat A :=
  Mat (Nat.min k (nrows m)) (ncols m) (mat_at m).

(** [t[p]]: IndexError outside the first axis. *)
Definition ten_slice {A} (t : ten A) (p : nat) : result (mat A) :=
  if decide (p < tdim0 t) then Ok (Mat (tdim1 t) (tdim2 t) (ten_at t p))
  else Raise IndexError.

(** [b[p]] for a matrix [b]: one row as a vector. *)
Definition mat_slice {A} (m : mat A) (p : nat) : result (list A) :=
  if decide (p < nrows m) then Ok (mat_row m p) else Raise IndexError.

(** Same shape, same entries inside the shape. *)
Definition mat_equiv {A} (m1 m2 : mat A) : Prop :=
  nrows m1 = nrows m2 ∧ ncols m1 = ncols m2 ∧
  ∀ i j, i < nrows m1 → j < ncols m1 → mat_at m1 i j = mat_at m2 i j.
Definition ten_equiv {A} (t1 t2 : ten A) : Prop :=
  tdim0 t1 = tdim0 t2 ∧ tdim1 t1 = tdim1 t2 ∧ tdim2 t1 = tdim2 t2 ∧
  ∀ p i j, p < tdim0 t1 → i < tdim1 t1 → j < tdim2 t1 →
    ten_at t1 p i j = ten_at t2 p i j.

(** ** Python objects of a model config (the values JSON can hold) *)

#[local] Unset Elimination Schemes.
Inductive pyobj (F : Type) : Type :=
  | PyNone
  | PyBool (b : bool)
  | PyInt (z : Z)
  | PyFloat (f : F)
  | PyStr (s : string)
  | PyList (l : list (pyobj F))
  | PyDict (m : gmap string (pyobj F)).
#[local] Set Elimination Schemes.
Arguments PyNone {F}.
Arguments PyBool {F} b.
Arguments PyInt {F} z.
Arguments PyFloat {F} f.
Arguments PyStr {F} s.
Arguments PyList {F} l.
Arguments PyDict {F} m.

(** [TrainedModel]; the arrays have the ranks [_train_mlp] gives them. *)
Record TrainedModel (F : Type) : Type := mkTrainedModel {
  config : gmap string (pyobj F);
  w1 : mat F;
  b1 : list F;
  w2 : ten F;
  b2 : mat F;
}.
Arguments mkTrainedModel {F} _ _ _ _ _.
Arguments config {F} _.
Arguments w1 {F} _.
Arguments b1 {F} _.
Arguments w2 {F} _.
Arguments b2 {F} _.

(** One member of an [.npz] archive.  The member [config_json] is a 0-d
    string array holding a JSON text; the text is represented by what
    [json.loads] makes of it ([None]: not a JSON text).  [json.dumps] and
    [json.loads] are Python's; a document written by [json.dumps] is
    represented by the object it was written from. *)
Inductive npy (F : Type) : Type :=
  | NpyText (doc : option (pyobj F))
  | NpyVec (v : list F)
  | NpyMat (m : mat F)
  | NpyTen (t : ten F).
Arguments NpyText {F} doc.
Arguments NpyVec {F} v.
Arguments NpyMat {F} m.
Arguments NpyTen {F} t.

(** Broadcasting: an operand axis of length [src] fits an axis of length
    [dst] when the lengths agree or [src] is 1, in which case its only
    entry is read at every index. *)
Definition fits (src dst : nat) : Prop := src = dst ∨ src = 1.
Definition bidx (src i : nat) : nat := if decide (src = 1) then 0 else i.

(** [repr(o)] of an object that is not a [str] (Python's; not modelled). *)
Class PyRepr (F : Type) := py_repr : pyobj F → string.

Section Model.
Context {F : Type} `{FloatOps F} `{PyRepr F}.

(** *** numpy operations used by the model *)

(** Broadcasting of one axis: equal lengths, or one of them 1. *)
Definition broadcast_dim (a b : nat) : result nat :=
  if decide (a = b) then Ok a
  else if decide (a = 1) then Ok b
  else if decide (b = 1) then Ok a
  else Raise ValueError.

(** [m + b] for a matrix [m] and a vector [b] *)
Definition add_row (m : mat F) (b : list F) : result (mat F) :=
  c ←? broadcast_dim (ncols m) (length b);
  Ok (tabulate (nrows m) c (λ i j,
        f_add (mat_at m i (bidx (ncols m) j)) (nth (bidx (length b) j) b f_zero))).

(** [a @ b] *)
Definition matmul (a b : mat F) : result (mat F) :=
  if decide (ncols a = nrows b)
  then Ok (tabulate (nrows a) (ncols b) (λ i j, np_dot (mat_row a i) (mat_col b j)))
  else Raise ValueError.

Definition _relu (x : mat F) : mat F :=
  mat_map (λ v, np_maximum v f_zero) x.

(** [logits.max(axis=1)] raises on an axis of length 0. *)
Definition _softmax (logits : mat F) : result (mat F) :=
  if decide (ncols logits = 0) then Raise ValueError
  else
    let z := tabulate (nrows logits) (ncols logits)
               (λ i j, f_sub (mat_at logits i j) (np_max (mat_row logits i))) in
    let exp := mat_map f_exp z in
    Ok (tabulate (nrows exp) (ncols exp)
          (λ i j, f_div (mat_at exp i j) (np_sum (mat_row exp i)))).

(** *** Model serializer *)

(** [float(v)] *)
Definition py_float (v : pyobj F) : result F :=
  match v with
  | PyFloat f => Ok f
  | PyInt z =>
      match float_of_int z with Some f => Ok f | None => Raise OverflowError end
  | PyBool b => Ok (if b then f_one else f_zero)
  | PyStr s =>
      match float_of_str s with Some f => Ok f | None => Raise ValueError end
  | PyNone | PyList _ | PyDict _ => Raise TypeError
  end.

(** [_save_model_npz]: the archive [np.savez_compressed] writes at [path],
    as the members it is given.  The file system is not modelled: loading
    the archive that was saved is [_load_model_npz] applied to it. *)
Definition _save_model_npz (model : TrainedModel F) (mean std : F)
    : gmap string (npy F) :=
  let cfg := config model in
  let cfg := <["pixel_mean" := PyFloat mean]> cfg in
  let cfg := <["pixel_std" := PyFloat std]> cfg in
  <["b2" := NpyMat (mat_map astype32 (b2 model))]>
    (<["w2" := NpyTen (ten_map astype32 (w2 model))]>
      (<["b1" := NpyVec (astype32 <$> b1 model)]>
        (<["w1" := NpyMat (mat_map astype32 (w1 model))]>
          (<["config_json" := NpyText (Some (PyDict cfg))]> ∅)))).

(** [data[name]] on the archive [np.load] opens: for a name that is not
    a member, numpy raises the KeyError it builds from the name. *)
Definition npz_get (data : gmap string (npy F)) (name : string) : result (npy F) :=
  match data !! name with
  | Some a => Ok a
  | None => Raise (KeyError (name +:+ " is not a file in the archive"))
  end.

(** [json.loads(str(a.item()))] followed by the first [cfg.get]. *)
Definition config_of (a : npy F) : result (gmap string (pyobj F)) :=
  match a with
  | NpyText (Some (PyDict cfg)) => Ok cfg
  | NpyText (Some _) => Raise AttributeError
  | NpyText None => Raise ValueError
  | NpyVec [_] => Raise AttributeError
  | NpyVec _ => Raise ValueError
  | NpyMat m => if decide (mat_size m = 1) then Raise AttributeError else Raise ValueError
  | NpyTen t =>
      if decide (tdim0 t * tdim1 t * tdim2 t = 1) then Raise AttributeError
      else Raise ValueError
  end.

(** [a.astype(np.float32)] at the rank the model field has; a member of
    another rank is rejected here (Python fails at its first use). *)
Definition as_mat32 (a : npy F) : result (mat F) :=
  match a with NpyMat m => Ok (mat_map astype32 m) | _ => Raise ValueError end.
Definition as_vec32 (a : npy F) : result (list F) :=
  match a with NpyVec v => Ok (astype32 <$> v) | _ => Raise ValueError end.
Definition as_ten32 (a : npy F) : result (ten F) :=
  match a with NpyTen t => Ok (ten_map astype32 t) | _ => Raise ValueError end.

(** [_load_model_npz] on the archive [np.load] opens. *)
Definition _load_model_npz (data : gmap string (npy F))
    : result (TrainedModel F * F * F) :=
  cj ←? npz_get data "config_json";
  cfg ←? config_of cj;
  mean ←? py_float (default (PyFloat f_zero) (cfg !! "pixel_mean"));
  std ←? py_float (default (PyFloat f_one) (cfg !! "pixel_std"));
  w1 ←? (a ←? npz_get data "w1"; as_mat32 a);
  b1 ←? (a ←? npz_get data "b1"; as_vec32 a);
  w2 ←? (a ←? npz_get data "w2"; as_ten32 a);
  b2 ←? (a ←? npz_get data "b2"; as_mat32 a);
  Ok (mkTrainedModel cfg w1 b1 w2 b2, mean, std).

(** *** Predictor *)

(** [bool(v)] *)
Definition py_truthy (v : pyobj F) : bool :=
  match v with
  | PyNone => false
  | PyBool b => b
  | PyInt z => negb (z =? 0)%Z
  | PyFloat f => negb (f_eqb f f_zero)
  | PyStr s => negb (String.eqb s "")
  | PyList l => match l with [] => false | _ :: _ => true end
  | PyDict m => negb (bool_decide (size m = 0))
  end.

(** [str(v)] *)
Definition py_str (v : pyobj F) : string :=
  match v with
  | PyStr s => s
  | _ => py_repr v
  end.

(** [str(cfg.get("pad_token") or PAD_TOKEN)] *)
Definition pad_token_of (cfg : gmap string (pyobj F)) : string :=
  match cfg !! "pad_token" with
  | Some v => if py_truthy v then py_str v else PAD_TOKEN
  | None => PAD_TOKEN
  end.

(** [max(0, min(vocab_size - 1, idx))] on Python integers *)
Definition clamp_idx (vocab_size idx : nat) : nat :=
  Z.to_nat (Z.max 0 (Z.min (Z.of_nat vocab_size - 1) (Z.of_nat idx))).

(** One iteration of [for pos in range(seq_len)] in [_predict_text]. *)
Definition predict_pos (model : TrainedModel F) (vocab : list (pyobj F))
    (h : mat F) (vocab_size : nat) (st : list string * list F) (pos : nat)
    : result (list string * list F) :=
  w2p ←? ten_slice (w2 model) pos;
  hw ←? matmul h (mat_T w2p);
  b2p ←? mat_slice (b2 model) pos;
  logits ←? add_row hw b2p;
  probs ←? _softmax logits;
  idx ←? (if decide (0 < nrows probs) then Ok (np_argmax (mat_row probs 0))
          else Raise IndexError);
  let idx := clamp_idx vocab_size idx in
  tok ←? match vocab !! idx with Some t => Ok t | None => Raise IndexError end;
  c ←? (if decide (idx < ncols probs) then Ok (mat_at probs 0 idx)
        else Raise IndexError);
  Ok (st.1 ++ [py_str tok], st.2 ++ [c]).

Definition _predict_text (model : TrainedModel F) (x : mat F) (mean std : F)
    : result (string * F) :=
  let cfg := config model in
  match cfg !! "vocab" with
  | Some (PyList (v0 :: vs)) =>
      let vocab := v0 :: vs in
      let pad_token := pad_token_of cfg in
      let x := mat_map astype32 x in
      let x := mat_map (λ v, f_div (f_sub v mean) (py_max f_1e_6 std)) x in
      xw ←? matmul x (mat_T (w1 model));
      z1 ←? add_row xw (b1 model);
      let h := _relu z1 in
      let seq_len := tdim0 (w2 model) in
      let vocab_size := tdim1 (w2 model) in
      st ←? for_each (predict_pos model vocab h vocab_size) ([], []) (seq 0 seq_len);
      let '(tokens, confs) := strip_padding pad_token st.1 st.2 in
      let text := join tokens in
      let confidence :=
        match confs with
        | c :: cs => py_min c cs
        | [] => f_zero
        end in
      Ok (text, confidence)
  | _ => Raise (RuntimeError "model_invalid_vocab")
  end.

(** *** Evaluation *)

(** An index into an axis of length [n]; a negative one counts from the
    end. *)
Definition np_index (n : nat) (i : Z) : result nat :=
  if decide (0 ≤ i < Z.of_nat n)%Z then Ok (Z.to_nat i)
  else if decide (- Z.of_nat n ≤ i < 0)%Z then Ok (Z.to_nat (i + Z.of_nat n))
  else Raise IndexError.

(** The column indices addressed by [probs[np.arange(len(tgt)), tgt]]:
    row [i] is paired with [tgt[i]]. *)
Definition fancy (probs : mat F) (tgt : list Z) : result (list nat) :=
  collect (λ it : nat * Z,
             if decide (it.1 < nrows probs) then np_index (ncols probs) it.2
             else Raise IndexError)
          (enumerate tgt).

(** [probs[np.arange(len(tgt)), tgt]] *)
Definition pick (probs : mat F) (tgt : list Z) : result (list F) :=
  js ←? fancy probs tgt;
  Ok ((λ it : nat * nat, mat_at probs it.1 it.2) <$> enumerate js).

(** [y[:, pos]] *)
Definition column (y : mat Z) (pos : nat) : result (list Z) :=
  if decide (pos < ncols y) then Ok (mat_col y pos) else Raise IndexError.

(** [float(-np.log(p + 1e-9).mean())] *)
Definition mean_nll (p : list F) : F :=
  np_mean ((λ v, f_neg (f_log (f_add v f_1e_9))) <$> p).

(** [probs.argmax(axis=1)] *)
Definition argmax_rows (probs : mat F) : list nat :=
  (λ i, np_argmax (mat_row probs i)) <$> seq 0 (nrows probs).

(** [preds[:, pos] = pred]: [pred] must have one entry per row of
    [preds], or a single entry. *)
Definition set_column (preds : mat Z) (pos : nat) (pred : list nat)
    : result (mat Z) :=
  if decide (pos < ncols preds) then
    if decide (fits (length pred) (nrows preds)) then
      Ok (tabulate (nrows preds) (ncols preds) (λ i j,
            if decide (j = pos)
            then Z.of_nat (nth (bidx (length pred) i) pred 0)
            else mat_at preds i j))
    else Raise ValueError
  else Raise IndexError.

(** [int((pred == idx).sum())] *)
Definition count_equal (pred : list nat) (idx : list Z) : result nat :=
  if decide (length pred = length idx ∨ length pred = 1 ∨ length idx = 1) then
    let n := Nat.max (length pred) (length idx) in
    Ok (length (filter (λ i,
          Z.of_nat (nth (bidx (length pred) i) pred 0)
          = nth (bidx (length idx) i) idx 0%Z) (seq 0 n)))
  else Raise ValueError.

Definition f_of_bool (b : bool) : F := if b then f_one else f_zero.

(** One iteration of [for pos in range(seq_len)] in [_eval_model]; the
    state is [(loss_total, preds, char_correct)]. *)
Definition eval_pos (y : mat Z) (h : mat F) (w2 : ten F) (b2 : mat F)
    (st : F * mat Z * nat) (pos : nat) : result (F * mat Z * nat) :=
  let '(loss_total, preds, char_correct) := st in
  w2p ←? ten_slice w2 pos;
  hw ←? matmul h (mat_T w2p);
  b2p ←? mat_slice b2 pos;
  logits ←? add_row hw b2p;
  probs ←? _softmax logits;
  idx ←? column y pos;
  p ←? pick probs idx;
  let loss_total := f_add loss_total (mean_nll p) in
  let pred := argmax_rows probs in
  preds ←? set_column preds pos pred;
  k ←? count_equal pred idx;
  Ok (loss_total, preds, char_correct + k).

(** [_eval_model]; [uninit] is the content of the buffer [np.empty_like(y)]
    returns, which numpy leaves uninitialised. *)
Definition _eval_model (uninit : nat → nat → Z) (x : mat F) (y : mat Z)
    (w1 : mat F) (b1 : list F) (w2 : ten F) (b2 : mat F) : result (F * F * F) :=
  if decide (mat_size x = 0 ∨ mat_size y = 0) then Ok (f_zero, f_zero, f_zero)
  else
    xw ←? matmul x (mat_T w1);
    z1 ←? add_row xw b1;
    let h := _relu z1 in
    let seq_len := tdim0 w2 in
    let preds := Mat (nrows y) (ncols y) uninit in
    st ←? for_each (eval_pos y h w2 b2) (f_zero, preds, 0) (seq 0 seq_len);
    let '(loss_total, preds, char_correct) := st in
    loss ←? py_div_nat loss_total seq_len;
    let full_acc :=
      np_mean ((λ i, f_of_bool (bool_decide (mat_row preds i = mat_row y i)))
                 <$> seq 0 (nrows y)) in
    char_acc ←? py_div_nat (f_of_nat char_correct) (nrows y * seq_len);
    Ok (loss, full_acc, char_acc).

End Model.

(** ** Trainer *)

Definition MODEL_SCHEMA : string := "demo.car_plate_ocr.model.v2".

Record TrainConfig (F : Type) : Type := mkTrainConfig {
  epochs : nat;
  batch_size : nat;
  learning_rate : F;
  hidden_size : nat;
  min_epoch_seconds : F;
  image_width : nat;
  image_height : nat;
  max_train_samples : nat;
  max_validation_samples : nat;
  seed : nat;
}.
Arguments mkTrainConfig {F} _ _ _ _ _ _ _ _ _ _.
Arguments epochs {F} _.
Arguments batch_size {F} _.
Arguments learning_rate {F} _.
Arguments hidden_size {F} _.
Arguments min_epoch_seconds {F} _.
Arguments image_width {F} _.
Arguments image_height {F} _.
Arguments max_train_samples {F} _.
Arguments max_validation_samples {F} _.
Arguments seed {F} _.

(** [np.random.default_rng(seed)] and the two draws the trainer makes.
    [standard_normal g n] is the stream of the next [n] standard-normal
    draws; [permutation g n] is [rng.permutation(n)]. *)
Class RngOps (F : Type) := {
  Generator : Type;
  default_rng : nat → Generator;
  standard_normal : Generator → nat → (nat → F) * Generator;
  permutation : Generator → nat → list nat * Generator;
}.

(** What a run reads from its surroundings besides its arguments: the
    successive values of [time.monotonic()], and the contents of the
    uninitialised buffers [np.empty_like] hands out. *)
Record Env (F : Type) : Type := mkEnv {
  monotonic : nat → F;
  scratch : nat → nat → nat → Z;
}.
Arguments mkEnv {F} _ _.
Arguments monotonic {F} _ _.
Arguments scratch {F} _ _ _ _.

(** What a run does to its surroundings: calls of the telemetry logger
    and [time.sleep]. *)
Inductive event (F : Type) : Type :=
  | LogMetrics (step : nat) (loss val_loss mAP : F)
      (train_full_acc train_char_acc val_char_acc : F) (epoch epochs : nat)
  | LogProgress (step total_steps : nat) (percent : F) (message : string)
  | Sleep (seconds : F).
Arguments LogMetrics {F} _ _ _ _ _ _ _ _ _.
Arguments LogProgress {F} _ _ _ _.
Arguments Sleep {F} _.

(** The four parameter arrays. *)
Record params (F : Type) : Type := mkParams {
  p_w1 : mat F;
  p_b1 : list F;
  p_w2 : ten F;
  p_b2 : mat F;
}.
Arguments mkParams {F} _ _ _ _.
Arguments p_w1 {F} _.
Arguments p_b1 {F} _.
Arguments p_w2 {F} _.
Arguments p_b2 {F} _.

Section Trainer.
Context {F : Type} `{FloatOps F} `{RngOps F}.

(** *** In-place array updates *)

(** [a op= b] on matrices, vectors and rank-3 arrays: [b] is
    broadcast to the shape of [a]. *)
Definition mat_inplace (op : F → F → F) (a b : mat F) : result (mat F) :=
  if decide (fits (nrows b) (nrows a) ∧ fits (ncols b) (ncols a))
  then Ok (tabulate (nrows a) (ncols a) (λ i j,
             op (mat_at a i j) (mat_at b (bidx (nrows b) i) (bidx (ncols b) j))))
  else Raise ValueError.

Definition vec_inplace (op : F → F → F) (a b : list F) : result (list F) :=
  if decide (fits (length b) (length a))
  then Ok (imap (λ i v, op v (nth (bidx (length b) i) b f_zero)) a)
  else Raise ValueError.

Definition ten_inplace (op : F → F → F) (a b : ten F) : result (ten F) :=
  if decide (fits (tdim0 b) (tdim0 a) ∧ fits (tdim1 b) (tdim1 a)
             ∧ fits (tdim2 b) (tdim2 a))
  then Ok (ten_tabulate (tdim0 a) (tdim1 a) (tdim2 a) (λ p i j,
             op (ten_at a p i j)
                (ten_at b (bidx (tdim0 b) p) (bidx (tdim1 b) i) (bidx (tdim2 b) j))))
  else Raise ValueError.

(** [t[pos] = g] *)
Definition ten_set (t : ten F) (pos : nat) (g : mat F) : result (ten F) :=
  if decide (pos < tdim0 t) then
    if decide (fits (nrows g) (tdim1 t) ∧ fits (ncols g) (tdim2 t))
    then Ok (ten_tabulate (tdim0 t) (tdim1 t) (tdim2 t) (λ p i j,
               if decide (p = pos)
               then mat_at g (bidx (nrows g) i) (bidx (ncols g) j)
               else ten_at t p i j))
    else Raise ValueError
  else Raise IndexError.

(** [m[pos] = v] *)
Definition mat_set_row (m : mat F) (pos : nat) (v : list F) : result (mat F) :=
  if decide (pos < nrows m) then
    if decide (fits (length v) (ncols m))
    then Ok (tabulate (nrows m) (ncols m) (λ i j,
               if decide (i = pos) then nth (bidx (length v) j) v f_zero
               else mat_at m i j))
    else Raise ValueError
  else Raise IndexError.

(** [m.sum(axis=0)] *)
Definition col_sums (m : mat F) : list F :=
  (λ j, np_sum (mat_col m j)) <$> seq 0 (ncols m).

(** [m[idx]] for a list of row numbers *)
Definition take_rows {A} `{Inhabited A} (m : mat A) (idx : list nat) : result (mat A) :=
  if decide (Forall (λ i, i < nrows m) idx)
  then Ok (tabulate (length idx) (ncols m) (λ i j, mat_at m (nth i idx 0) j))
  else Raise IndexError.

(** [dlogits[np.arange(len(tgt)), tgt] -= 1.0] *)
Definition sub_one_at (probs : mat F) (tgt : list Z) : result (mat F) :=
  js ←? fancy probs tgt;
  Ok (tabulate (nrows probs) (ncols probs) (λ i j,
        if decide (js !! i = Some j) then f_sub (mat_at probs i j) f_one
        else mat_at probs i j)).

(** *** One minibatch *)

(** One iteration of [for pos in range(seq_len)] of the backward pass;
    the state is [(dW2, db2, dh, batch_loss)]. *)
Definition grad_pos (yb : mat Z) (h : mat F) (w2 : ten F) (b2 : mat F)
    (st : ten F * mat F * mat F * F) (pos : nat)
    : result (ten F * mat F * mat F * F) :=
  let '(dW2, db2, dh, batch_loss) := st in
  w2p ←? ten_slice w2 pos;
  hw ←? matmul h (mat_T w2p);
  b2p ←? mat_slice b2 pos;
  logits ←? add_row hw b2p;
  probs ←? _softmax logits;
  tgt ←? column yb pos;
  p ←? pick probs tgt;
  let batch_loss := f_add batch_loss (mean_nll p) in
  dlogits ←? sub_one_at probs tgt;
  let dlogits := mat_map (λ v, f_div v (f_of_nat (length tgt))) dlogits in
  g ←? matmul (mat_T dlogits) h;
  dW2 ←? ten_set dW2 pos g;
  db2 ←? mat_set_row db2 pos (col_sums dlogits);
  dw ←? matmul dlogits w2p;
  dh ←? mat_inplace f_add dh dw;
  Ok (dW2, db2, dh, batch_loss).

(** [dh[z1 <= 0] = 0.0] *)
Definition relu_mask (z1 dh : mat F) : mat F :=
  tabulate (nrows dh) (ncols dh) (λ i j,
    if f_leb (mat_at z1 i j) f_zero then f_zero else mat_at dh i j).

(** [(lr * g).astype(np.float32)] on one entry *)
Definition scaled (lr g : F) : F := astype32 (f_mul lr g).

(** The training step on one minibatch [xb], [yb]: forward pass, backward
    pass, update.  The state is the live parameters and [epoch_loss]. *)
Definition train_step (cfg : TrainConfig F) (xb : mat F) (yb : mat Z)
    (seq_len : nat) (st : params F * F) : result (params F * F) :=
  let '(ps, epoch_loss) := st in
  xw ←? matmul xb (mat_T (p_w1 ps));
  z1 ←? add_row xw (p_b1 ps);
  let h := _relu z1 in
  let dW2 := ten_map (λ _, f_zero) (p_w2 ps) in
  let db2 := mat_map (λ _, f_zero) (p_b2 ps) in
  let dh := mat_map (λ _, f_zero) h in
  g ←? for_each (grad_pos yb h (p_w2 ps) (p_b2 ps)) (dW2, db2, dh, f_zero)
         (seq 0 seq_len);
  let '(dW2, db2, dh, batch_loss) := g in
  batch_loss ←? py_div_nat batch_loss seq_len;
  let epoch_loss := f_add epoch_loss batch_loss in
  let dh := relu_mask z1 dh in
  dW1 ←? matmul (mat_T dh) xb;
  let db1 := col_sums dh in
  let lr := learning_rate cfg in
  w1 ←? mat_inplace f_sub (p_w1 ps) (mat_map (scaled lr) dW1);
  b1 ←? vec_inplace f_sub (p_b1 ps) (scaled lr <$> db1);
  w2 ←? ten_inplace f_sub (p_w2 ps) (ten_map (scaled lr) dW2);
  b2 ←? mat_inplace f_sub (p_b2 ps) (mat_map (scaled lr) db2);
  Ok (mkParams w1 b1 w2 b2, epoch_loss).

(** The body of [for batch_idx in range(batches_per_epoch)]: cut the
    minibatch out of the permuted training set, then do the training
    step. *)
Definition train_batch (cfg : TrainConfig F) (x_train : mat F) (y_train : mat Z)
    (seq_len : nat) (perm : list nat) (st : params F * F) (batch_idx : nat)
    : result (params F * F) :=
  let start := batch_idx * batch_size cfg in
  let idx := take (batch_size cfg) (drop start perm) in
  xb ←? take_rows x_train idx;
  yb ←? take_rows y_train idx;
  train_step cfg xb yb seq_len st.

(** *** Epochs *)

Record train_state : Type := mkState {
  st_params : params F;                 (* w1, b1, w2, b2 *)
  st_rng : Generator;                   (* rng *)
  st_best_val_loss : F;
  st_best_snapshot : option (params F);
  st_ticks : nat;                       (* calls of time.monotonic() so far *)
  st_evals : nat;                       (* calls of np.empty_like so far *)
  st_events : list (event F);
}.

Definition eval_params (uninit : nat → nat → Z) (x : mat F) (y : mat Z)
    (ps : params F) : result (F * F * F) :=
  _eval_model uninit x y (p_w1 ps) (p_b1 ps) (p_w2 ps) (p_b2 ps).

(** The end of the epoch body: [if cfg.min_epoch_seconds > 0: ...]. *)
Definition pace (env : Env F) (cfg : TrainConfig F) (epoch_started : F)
    (ticks : nat) (events : list (event F)) : nat * list (event F) :=
  if f_ltb f_zero (min_epoch_seconds cfg) then
    let elapsed := f_sub (monotonic env ticks) epoch_started in
    let remaining := f_sub (min_epoch_seconds cfg) elapsed in
    (S ticks, if f_ltb f_zero remaining then events ++ [Sleep remaining] else events)
  else (ticks, events).

(** The body of [for epoch in range(1, cfg.epochs + 1)]. *)
Definition epoch_step (env : Env F) (cfg : TrainConfig F)
    (x_train : mat F) (y_train : mat Z) (x_val : mat F) (y_val : mat Z)
    (n_train seq_len batches_per_epoch : nat)
    (s : train_state) (epoch : nat) : result train_state :=
  let epoch_started := monotonic env (st_ticks s) in
  let ticks := S (st_ticks s) in
  let '(perm, rng) := permutation (st_rng s) n_train in
  r ←? for_each (train_batch cfg x_train y_train seq_len perm)
         (st_params s, f_zero) (seq 0 batches_per_epoch);
  let ps := r.1 in
  tr ←? eval_params (scratch env (st_evals s)) x_train y_train ps;
  va ←? eval_params (scratch env (S (st_evals s))) x_val y_val ps;
  let '(train_loss, train_full_acc, train_char_acc) := tr in
  let '(val_loss, val_full_acc, val_char_acc) := va in
  let improved := f_ltb val_loss (st_best_val_loss s) in
  let best_val_loss := if improved then val_loss else st_best_val_loss s in
  let best_snapshot := if improved then Some ps else st_best_snapshot s in
  let total_steps := epochs cfg in
  percent ←? py_div_nat (f_of_nat epoch) total_steps;
  let events :=
    st_events s ++
    [LogMetrics epoch train_loss val_loss val_full_acc
       train_full_acc train_char_acc val_char_acc epoch (epochs cfg);
     LogProgress epoch total_steps percent "training"] in
  let '(ticks, events) := pace env cfg epoch_started ticks events in
  Ok (mkState ps rng best_val_loss best_snapshot ticks (S (S (st_evals s))) events).

(** [int(math.ceil(n_train / float(cfg.batch_size)))]; the quotient of
    two counts, exact in double precision for the sizes a config admits. *)
Definition batches_of (n_train bs : nat) : result nat :=
  if decide (bs = 0) then Raise ZeroDivisionError
  else Ok ((n_train + bs - 1) / bs).

(** The config stored in the trained model. *)
Definition model_cfg_of (cfg : TrainConfig F) (seq_len : nat) (vocab : list string)
    : gmap string (pyobj F) :=
  <["seed" := PyInt (Z.of_nat (seed cfg))]>
    (<["vocab" := PyList (PyStr <$> vocab)]>
      (<["pad_token" := PyStr PAD_TOKEN]>
        (<["max_label_len" := PyInt (Z.of_nat seq_len)]>
          (<["hidden_size" := PyInt (Z.of_nat (hidden_size cfg))]>
            (<["image_height" := PyInt (Z.of_nat (image_height cfg))]>
              (<["image_width" := PyInt (Z.of_nat (image_width cfg))]>
                (<["schema" := PyStr MODEL_SCHEMA]> ∅))))))).

(** The state before the first epoch: seeded generator, Gaussian weights
    scaled by [1/sqrt(fan_in)], zero biases, no snapshot. *)
Definition init_state (cfg : TrainConfig F) (feat_dim seq_len vocab_size : nat)
    : train_state :=
  let rng := default_rng (seed cfg) in
  let '(n1, rng) := standard_normal rng (hidden_size cfg * feat_dim) in
  let s1 := f_div f_one (f_sqrt (f_of_nat (Nat.max 1 feat_dim))) in
  let w1 := tabulate (hidden_size cfg) feat_dim
              (λ i j, astype32 (f_mul (n1 (i * feat_dim + j)) s1)) in
  let b1 := replicate (hidden_size cfg) f_zero in
  let '(n2, rng) := standard_normal rng (seq_len * vocab_size * hidden_size cfg) in
  let s2 := f_div f_one (f_sqrt (f_of_nat (Nat.max 1 (hidden_size cfg)))) in
  let w2 := ten_tabulate seq_len vocab_size (hidden_size cfg)
              (λ p i j, astype32
                 (f_mul (n2 ((p * vocab_size + i) * hidden_size cfg + j)) s2)) in
  let b2 := tabulate seq_len vocab_size (λ _ _, f_zero) in
  mkState (mkParams w1 b1 w2 b2) rng f_inf None 0 0 [].

(** What [_train_mlp] returns from the state the last epoch left. *)
Definition finish (cfg : TrainConfig F) (seq_len : nat) (vocab : list string)
    (s : train_state) : TrainedModel F * F :=
  let ps := match st_best_snapshot s with
            | Some best => best
            | None => st_params s
            end in
  let val_loss :=
    if negb (f_eqb (st_best_val_loss s) f_inf) then st_best_val_loss s
    else f_zero in
  (mkTrainedModel (model_cfg_of cfg seq_len vocab)
     (p_w1 ps) (p_b1 ps) (p_w2 ps) (p_b2 ps), val_loss).

(** [_train_mlp]: the trained model, the metric [val_loss], and the
    calls made to the logger and to [time.sleep]. *)
Definition _train_mlp (env : Env F) (x_train : mat F) (y_train : mat Z)
    (x_val : mat F) (y_val : mat Z) (cfg : TrainConfig F) (vocab : list string)
    : result (TrainedModel F * F * list (event F)) :=
  if decide (mat_size x_train = 0) then Raise (RuntimeError "empty_train_set")
  else
    let n_train := nrows x_train in
    let feat_dim := ncols x_train in
    let seq_len := ncols y_train in
    let vocab_size := length vocab in
    let s0 := init_state cfg feat_dim seq_len vocab_size in
    batches_per_epoch ←? batches_of n_train (batch_size cfg);
    s ←? for_each (epoch_step env cfg x_train y_train x_val y_val
                     n_train seq_len batches_per_epoch)
           s0 (seq 1 (epochs cfg));
    Ok (finish cfg seq_len vocab s, st_events s).

End Trainer.

(** ** A concrete instance: fixed-point numbers

    Numbers with nine decimal places, held as integers scaled by [10^9];
    [astype32] keeps six of the nine places.  The instance makes the model
    executable; nothing that is proved for every [FloatOps] depends on it. *)

Module Fixed.

Definition scale : Z := 1000000000.

Definition mul (a b : Z) : Z := (a * b / scale)%Z.
Definition div (a b : Z) : Z := (a * scale / b)%Z.

(** [e^x] cut to the range the examples use: a cubic around 0, never
    below one unit. *)
Definition exp (x : Z) : Z :=
  let x2 := mul x x in
  let x3 := mul x2 x in
  Z.max 1 (scale + x + x2 / 2 + x3 / 6)%Z.

(** [log x]: the first-order expansion at 1. *)
Definition log (x : Z) : Z := (x - scale)%Z.

Definition sum (xs : list Z) : Z := foldl Z.add 0%Z xs.

Definition maxl (xs : list Z) : Z :=
  match xs with
  | [] => 0%Z
  | x :: xs => foldl Z.max x xs
  end.

(** The first position holding the largest entry. *)
Definition argmax (xs : list Z) : nat :=
  let m := maxl xs in
  default 0 (fst <$> list_find (λ v, v = m) xs).

Definition mean (xs : list Z) : Z := (sum xs / Z.of_nat (length xs))%Z.

Definition dot (xs ys : list Z) : Z := sum (zip_with mul xs ys).

Definition round32 (x : Z) : Z := (x / 1000 * 1000)%Z.

#[global] Instance float_ops : FloatOps Z := {|
  f_zero := 0%Z;
  f_one := scale;
  f_1e_9 := 1%Z;
  f_1e_6 := 1000%Z;
  f_inf := (10 ^ 40)%Z;
  f_of_nat n := (Z.of_nat n * scale)%Z;
  float_of_int z := Some (z * scale)%Z;
  float_of_str _ := None;
  f_add := Z.add;
  f_sub := Z.sub;
  f_mul := mul;
  f_div := div;
  f_neg := Z.opp;
  f_exp := exp;
  f_log := log;
  f_sqrt := λ x, Z.sqrt (x * scale);
  f_ltb := Z.ltb;
  f_leb := Z.leb;
  f_eqb := Z.eqb;
  np_maximum := Z.max;
  np_sum := sum;
  np_max := maxl;
  np_mean := mean;
  np_argmax := argmax;
  np_dot := dot;
  astype32 := round32;
|}.

#[global] Instance py_repr : PyRepr Z := λ _, "<object>".

(** A linear congruential generator; a draw is the state reduced to
    [-1, 1), a permutation is a rotation of [0 .. n-1]. *)
Definition next (g : Z) : Z := ((g * 1103515245 + 12345) mod 2147483648)%Z.

Fixpoint draws (g : Z) (k : nat) : Z :=
  match k with
  | O => next g
  | S k => next (draws g k)
  end.

#[global] Instance rng_ops : RngOps Z := {|
  Generator := Z;
  default_rng s := Z.of_nat s;
  standard_normal g n :=
    (λ k, (draws g k mod (2 * scale) - scale)%Z, draws g n);
  permutation g n := (rotate (Z.to_nat (g mod 7)) (seq 0 n), next g);
|}.

(** A data set of four two-pixel images with labels of length two over
    the vocabulary ["0"; "1"; "<pad>"]. *)
Definition x4 : mat Z :=
  mat_of_rows 0%Z 2 [[scale; 0%Z]; [0%Z; scale]; [scale; scale]; [0%Z; 0%Z]].
Definition y4 : mat Z :=
  mat_of_rows 0%Z 2 [[0%Z; 1%Z]; [1%Z; 0%Z]; [1%Z; 1%Z]; [0%Z; 2%Z]].

Definition cfg4 : TrainConfig Z :=
  mkTrainConfig 3 2 (scale / 5)%Z 3 0%Z 2 1 10 10 17.

Definition env0 : Env Z := mkEnv (λ k, Z.of_nat k * scale)%Z (λ _ _ _, 0%Z).

Definition vocab3 : list string := ["0"; "1"; PAD_TOKEN].

(** A hand-made model for two pixels, two hidden units, two positions
    and the three tokens of [vocab3]. *)
Definition model3 : TrainedModel Z :=
  mkTrainedModel (model_cfg_of cfg4 2 vocab3)
    (mat_of_rows 0%Z 2 [[scale; 0%Z]; [0%Z; scale]])
    [0%Z; 0%Z]
    (Ten 2 3 2 (λ p v k, if decide (v = p + k) then scale else 0%Z))
    (Mat 2 3 (λ _ _, 0%Z)).

Definition params3 : params Z :=
  mkParams (w1 model3) (b1 model3) (w2 model3) (b2 model3).

End Fixed.

(** ** A second instance: IEEE 754 double precision

    The values are those of binary64 as the Standard Library's [SpecFloat]
    specifies them.  The arithmetic, the square root and the comparisons
    are those of IEEE 754 at double precision, which is the arithmetic of
    a Python [float]; [astype32] is the cast of numpy: it rounds to
    binary32, to nearest with ties to even, a value beyond the range of
    binary32 to an infinity, and the result is held as the double of the
    same value.  IEEE 754 leaves [exp] and [log] to the platform's
    library: they are the expansions of the fixed-point instance; the
    reductions run from left to right.  The instance serves the
    serializer, which uses the cast only. *)

Module Binary64.

Import SpecFloat.

Definition prec : Z := 53.
Definition emax : Z := 1024.

Definition add : spec_float → spec_float → spec_float := SFadd prec emax.
Definition sub : spec_float → spec_float → spec_float := SFsub prec emax.
Definition mul : spec_float → spec_float → spec_float := SFmul prec emax.
Definition div : spec_float → spec_float → spec_float := SFdiv prec emax.

(** [float(z)]: the double nearest to the integer [z]. *)
Definition of_Z (z : Z) : spec_float := binary_normalize prec emax z 0 false.

Definition zero : spec_float := S754_zero false.
Definition one : spec_float := of_Z 1.

(** [x.astype(np.float32)] on one entry. *)
Definition cast32 (x : spec_float) : spec_float :=
  match x with
  | S754_finite s m e =>
      match binary_round 24 128 s m e with
      | S754_finite s' m' e' => binary_round prec emax s' m' e'
      | y => y
      end
  | _ => x
  end.

(** [np.maximum]: a NaN if either argument is one. *)
Definition maximum (a b : spec_float) : spec_float :=
  match SFcompare a b with
  | None => S754_nan
  | Some Lt => b
  | Some _ => a
  end.

Definition exp (x : spec_float) : spec_float :=
  let x2 := mul x x in
  let x3 := mul x2 x in
  add (add (add one x) (div x2 (of_Z 2))) (div x3 (of_Z 6)).

Definition log (x : spec_float) : spec_float := sub x one.

Definition sum (xs : list spec_float) : spec_float := foldl add zero xs.

Definition maxl (xs : list spec_float) : spec_float :=
  match xs with
  | [] => zero
  | x :: xs => foldl maximum x xs
  end.

#[global] Instance spec_float_eq_dec : EqDecision spec_float.
Proof. solve_decision. Defined.

Definition argmax (xs : list spec_float) : nat :=
  let m := maxl xs in
  default 0 (fst <$> list_find (λ v, v = m) xs).

#[global] Instance float_ops : FloatOps spec_float := {|
  f_zero := zero;
  f_one := one;
  f_1e_9 := div one (of_Z 1000000000);
  f_1e_6 := div one (of_Z 1000000);
  f_inf := S754_infinity false;
  f_of_nat n := of_Z (Z.of_nat n);
  float_of_int z :=
    match of_Z z with S754_infinity _ => None | f => Some f end;
  float_of_str _ := None;
  f_add := add;
  f_sub := sub;
  f_mul := mul;
  f_div := div;
  f_neg := SFopp;
  f_exp := exp;
  f_log := log;
  f_sqrt := SFsqrt prec emax;
  f_ltb := SFltb;
  f_leb := SFleb;
  f_eqb := SFeqb;
  np_maximum := maximum;
  np_sum := sum;
  np_max := maxl;
  np_mean xs := div (sum xs) (of_Z (Z.of_nat (length xs)));
  np_argmax := argmax;
  np_dot xs ys := sum (zip_with mul xs ys);
  astype32 := cast32;
|}.



End Binary64.


(** ** Statements about the vocabulary *)

(** How often a token occurs in a vocabulary. *)
Definition occurrences (t : string) (vocab : list string) : nat :=
  length (filter (λ u, u = t) vocab).

(** The characters of all the labels. *)
Definition label_chars (labels : list string) : list string :=
  labels ≫= chars_of.

(** "Contains each character exactly once, is sorted ascending, and contains
    the padding token exactly once." *)
Definition vocab_fully_sorted (labels : list string) : Prop :=
  let vocab := _build_vocab labels in
  (∀ ch, ch ∈ label_chars labels → occurrences ch vocab = 1)
  ∧ Sorted String.le vocab
  ∧ occurrences PAD_TOKEN vocab = 1.

(** ** Statements about the serializer *)

Section SerializerStatements.
Context {F : Type} `{FloatOps F}.

(** A 32-bit float: a value the cast to [float32] leaves as it is. *)
Definition is_float32 (v : F) : Prop := astype32 v = v.

Definition mat_float32 (m : mat F) : Prop :=
  Forall (Forall is_float32) (mat_rows m).

Definition ten_float32 (t : ten F) : Prop :=
  Forall (λ p, mat_float32 (Mat (tdim1 t) (tdim2 t) (ten_at t p)))
         (seq 0 (tdim0 t)).

(** A model whose four arrays hold 32-bit floats, as [_train_mlp] and
    [_load_model_npz] produce them. *)
Definition model_float32 (m : TrainedModel F) : Prop :=
  mat_float32 (w1 m) ∧ Forall is_float32 (b1 m)
  ∧ ten_float32 (w2 m) ∧ mat_float32 (b2 m).

End SerializerStatements.

(** ** Relating two computations *)

(** Two computations agree up to [R]: both return, with results related by
    [R], or both raise the same exception. *)
Definition rel_result {A B} (R : A → B → Prop) (ra : result A) (rb : result B)
    : Prop :=
  match ra, rb with
  | Ok a, Ok b => R a b
  | Raise e, Raise e' => e = e'
  | _, _ => False
  end.

(** The computation raises a [RuntimeError]. *)
Definition raises_runtime {A} (r : result A) : Prop :=
  ∃ msg, r = Raise (RuntimeError msg).

(** [r] is the first row of [m]. *)
Definition row0 {A} (m : mat A) (r : list A) : Prop :=
  0 < nrows m ∧ mat_row m 0 = r.

(** [m] has [n] rows and [c] columns and holds [f i j] at [i, j]. *)
Definition mat_is {A} (m : mat A) (n c : nat) (f : nat → nat → A) : Prop :=
  nrows m = n ∧ ncols m = c ∧ ∀ i j, i < n → j < c → mat_at m i j = f i j.

(** [t] has shape [(a, b, c)] and holds [f p i j] at [p, i, j]. *)
Definition ten_is {A} (t : ten A) (a b c : nat) (f : nat → nat → nat → A) : Prop :=
  tdim0 t = a ∧ tdim1 t = b ∧ tdim2 t = c
  ∧ ∀ p i j, p < a → i < b → j < c → ten_at t p i j = f p i j.

(** ** Statements about the predictor *)

(** The tokens left when the trailing run of [pad] is dropped. *)
Fixpoint rstrip (pad : string) (tokens : list string) : list string :=
  match tokens with
  | [] => []
  | t :: ts =>
      match rstrip pad ts with
      | [] => if decide (t = pad) then [] else [t]
      | kept => t :: kept
      end
  end.

Section PredictorStatements.
Context {F : Type} `{FloatOps F} `{PyRepr F}.

(** The predictor on one feature row: [_predict_text] with every matrix
    replaced by its first row, raising what [_predict_text] raises. *)

Definition dot_rows (xr : list F) (w : mat F) : result (list F) :=
  if decide (length xr = ncols w)
  then Ok ((λ k, np_dot xr (mat_row w k)) <$> seq 0 (nrows w))
  else Raise ValueError.

Definition add_vec (v b : list F) : result (list F) :=
  c ←? broadcast_dim (length v) (length b);
  Ok ((λ j, f_add (nth (bidx (length v) j) v f_zero)
                  (nth (bidx (length b) j) b f_zero)) <$> seq 0 c).

Definition softmax_row (z : list F) : list F :=
  let exp := (λ v, f_exp (f_sub v (np_max z))) <$> z in
  (λ e, f_div e (np_sum exp)) <$> exp.

Definition softmax_vec (z : list F) : result (list F) :=
  if decide (length z = 0) then Raise ValueError else Ok (softmax_row z).

Definition predict_pos_row (model : TrainedModel F) (vocab : list (pyobj F))
    (h : list F) (vocab_size : nat) (st : list string * list F) (pos : nat)
    : result (list string * list F) :=
  w2p ←? ten_slice (w2 model) pos;
  hw ←? dot_rows h w2p;
  b2p ←? mat_slice (b2 model) pos;
  logits ←? add_vec hw b2p;
  probs ←? softmax_vec logits;
  let idx := clamp_idx vocab_size (np_argmax probs) in
  tok ←? match vocab !! idx with Some t => Ok t | None => Raise IndexError end;
  c ←? (if decide (idx < length probs) then Ok (nth idx probs f_zero)
        else Raise IndexError);
  Ok (st.1 ++ [py_str tok], st.2 ++ [c]).

(** Normalisation of one row with the stored statistics. *)
Definition normalise (mean std : F) (row : list F) : list F :=
  (λ v, f_div (f_sub (astype32 v) mean) (py_max f_1e_6 std)) <$> row.

Definition confidence_of (confs : list F) : F :=
  match confs with
  | c :: cs => py_min c cs
  | [] => f_zero
  end.

Definition predict_row (model : TrainedModel F) (row : list F) (mean std : F)
    : result (string * F) :=
  match config model !! "vocab" with
  | Some (PyList (v0 :: vs)) =>
      let vocab := v0 :: vs in
      xw ←? dot_rows (normalise mean std row) (w1 model);
      z1 ←? add_vec xw (b1 model);
      let h := (λ v, np_maximum v f_zero) <$> z1 in
      st ←? for_each (predict_pos_row model vocab h (tdim1 (w2 model))) ([], [])
              (seq 0 (tdim0 (w2 model)));
      let '(tokens, confs) := strip_padding (pad_token_of (config model)) st.1 st.2 in
      Ok (join tokens, confidence_of confs)
  | _ => Raise (RuntimeError "model_invalid_vocab")
  end.

(** The forward pass in closed form, for a model whose shapes agree. *)

(** [relu(W1 x + b1)] *)
Definition hidden_row (model : TrainedModel F) (xr : list F) : list F :=
  (λ k, np_maximum (f_add (np_dot xr (mat_row (w1 model) k))
                          (nth k (b1 model) f_zero)) f_zero)
    <$> seq 0 (nrows (w1 model)).

(** [W2[p] h + b2[p]] *)
Definition head_logits (model : TrainedModel F) (h : list F) (p : nat) : list F :=
  (λ v, f_add (np_dot h ((λ k, ten_at (w2 model) p v k) <$> seq 0 (tdim2 (w2 model))))
              (mat_at (b2 model) p v))
    <$> seq 0 (tdim1 (w2 model)).

Definition head_probs (model : TrainedModel F) (h : list F) (p : nat) : list F :=
  softmax_row (head_logits model h p).

(** The index chosen at position [p]: the argmax, clamped into
    [0 .. vocab_size - 1]. *)
Definition head_index (model : TrainedModel F) (h : list F) (p : nat) : nat :=
  Nat.min (tdim1 (w2 model) - 1) (np_argmax (head_probs model h p)).

(** The divisor of the normalisation as the specification has it: [std]
    floored at [1e-6], that is [std] where it is above [1e-6] and [1e-6]
    where it is not. *)
Definition floored_std (std : F) : F :=
  if f_ltb f_1e_6 std then std else f_1e_6.

(** A feature row cast to 32 bits and normalised with [mean] and the
    floored [std]. *)
Definition normalised (mean std : F) (row : list F) : list F :=
  (λ v, f_div (f_sub (astype32 v) mean) (floored_std std)) <$> row.

(** [c] is a minimum of [confs]: it is one of them and none of them is
    below it. *)
Definition is_minimum (c : F) (confs : list F) : Prop :=
  c ∈ confs ∧ Forall (λ c', f_ltb c' c = false) confs.

(** The stored vocabulary is absent, is not a list, or is the empty
    list. *)
Definition vocab_missing_or_empty (cfg : gmap string (pyobj F)) : Prop :=
  match cfg !! "vocab" with
  | Some (PyList (_ :: _)) => False
  | _ => True
  end.

(** A model as the trainer and the loader produce it: the stored
    vocabulary is a non-empty list [vs] of non-empty strings, one per head
    output, and the shapes of the arrays agree. *)
Definition well_formed (model : TrainedModel F) (vs : list string) : Prop :=
  config model !! "vocab" = Some (PyList (PyStr <$> vs))
  ∧ vs ≠ [] ∧ ("" ∉ vs)
  ∧ length vs = tdim1 (w2 model)
  ∧ length (b1 model) = nrows (w1 model)
  ∧ tdim2 (w2 model) = nrows (w1 model)
  ∧ nrows (b2 model) = tdim0 (w2 model)
  ∧ ncols (b2 model) = tdim1 (w2 model).

End PredictorStatements.

(** ** Statements about the trainer *)

(** The states a loop goes through, one per iteration. *)
Fixpoint trace {A S} (body : S → A → result S) (s : S) (xs : list A)
    : result (list S) :=
  match xs with
  | [] => Ok []
  | x :: xs => s' ←? body s x; rest ←? trace body s' xs; Ok (s' :: rest)
  end.

(** The laws of the comparisons of floats that best-checkpoint tracking
    rests on; IEEE comparison has them (a NaN is below nothing). *)
Record float_order {F : Type} `{FloatOps F} : Prop := {
  ltb_irrefl : ∀ a, f_ltb a a = false;
  ltb_trans : ∀ a b c, f_ltb a b = true → f_ltb b c = true → f_ltb a c = true;
  eqb_inf : f_eqb f_inf f_inf = true;
  ltb_neq : ∀ a b, f_ltb a b = true → f_eqb a b = false;
}.
Arguments float_order F {_}.

Section TrainerStatements.
Context {F : Type} `{FloatOps F} `{RngOps F}.

Definition params_of (m : TrainedModel F) : params F :=
  mkParams (w1 m) (b1 m) (w2 m) (b2 m).

(** The validation loss of the epoch that led from state [prev] to state
    [s]: the loss of the live parameters of [s] on the validation set. *)
Definition epoch_val_loss (env : Env F) (x_val : mat F) (y_val : mat Z)
    (prev s : train_state) : result F :=
  va ←? eval_params (scratch env (S (st_evals prev))) x_val y_val (st_params s);
  Ok va.1.1.

(** What best-checkpoint tracking promises of a run that went through
    the epoch states [states] from [s0] and returned [model] and the
    metric [val_loss]. *)
Definition checkpoint_post (env : Env F) (x_val : mat F) (y_val : mat Z)
    (s0 : train_state) (states : list train_state)
    (model : TrainedModel F) (val_loss : F) : Prop :=
  let epochs_run := zip (s0 :: states) states in
  let final := default s0 (last states) in
  (* the snapshot is replaced exactly when the loss is strictly lower *)
  (∀ prev s, (prev, s) ∈ epochs_run →
     ∃ v, epoch_val_loss env x_val y_val prev s = Ok v
          ∧ if f_ltb v (st_best_val_loss prev)
            then st_best_val_loss s = v
                 ∧ st_best_snapshot s = Some (st_params s)
            else st_best_val_loss s = st_best_val_loss prev
                 ∧ st_best_snapshot s = st_best_snapshot prev)
  (* no epoch had a loss strictly lower than the best one kept *)
  ∧ (∀ prev s v, (prev, s) ∈ epochs_run →
       epoch_val_loss env x_val y_val prev s = Ok v →
       f_ltb v (st_best_val_loss final) = false)
  ∧ match st_best_snapshot final with
    | Some best =>
        (* the model is the snapshot of an epoch with that lowest loss *)
        params_of model = best
        ∧ val_loss = st_best_val_loss final
        ∧ ∃ prev s, (prev, s) ∈ epochs_run
                    ∧ st_params s = best
                    ∧ epoch_val_loss env x_val y_val prev s
                      = Ok (st_best_val_loss final)
    | None =>
        (* never improved: live parameters, loss 0.0 *)
        st_best_val_loss final = f_inf
        ∧ params_of model = st_params final
        ∧ val_loss = f_zero
    end.

(** What a run hands back to its caller as the trained model: the model
    and the reported loss, or the exception. *)
Definition outcome (r : result (TrainedModel F * F * list (event F)))
    : result (TrainedModel F * F) :=
  x ←? r; Ok x.1.

(** Two trainer states that differ at most in what was read from and
    written to the surroundings. *)
Definition same_training (s1 s2 : train_state) : Prop :=
  st_params s1 = st_params s2 ∧ st_rng s1 = st_rng s2
  ∧ st_best_val_loss s1 = st_best_val_loss s2
  ∧ st_best_snapshot s1 = st_best_snapshot s2.

(** Two states of the evaluation loop that differ at most in the content
    of the prediction buffer. *)
Definition same_eval_state (a b : F * mat Z * nat) : Prop :=
  a.1.1 = b.1.1 ∧ a.2 = b.2
  ∧ nrows a.1.2 = nrows b.1.2 ∧ ncols a.1.2 = ncols b.1.2.

(** Two evaluation results with the same loss. *)
Definition same_loss (a b : F * F * F) : Prop := a.1.1 = b.1.1.

End TrainerStatements.

(** ** Statements about the training step *)

Section GradientStatements.
Context {F : Type} `{FloatOps F}.
Variables (ps : params F) (xb : mat F) (yb : mat Z).

(** The pre-activation [z1[i][k]] and the hidden activation [h[i][k]] of
    sample [i]. *)
Definition pre_act (i k : nat) : F :=
  f_add (np_dot (mat_row xb i) (mat_row (p_w1 ps) k)) (nth k (p_b1 ps) f_zero).

Definition hidden_act (i k : nat) : F := np_maximum (pre_act i k) f_zero.

Definition hidden_vec (i : nat) : list F :=
  hidden_act i <$> seq 0 (nrows (p_w1 ps)).

(** The logits and the softmax probabilities of head [p] for sample [i]. *)
Definition logit (p i v : nat) : F :=
  f_add (np_dot (hidden_vec i)
           ((λ k, ten_at (p_w2 ps) p v k) <$> seq 0 (tdim2 (p_w2 ps))))
        (mat_at (p_b2 ps) p v).

Definition prob (p i v : nat) : F :=
  nth v (softmax_row (logit p i <$> seq 0 (tdim1 (p_w2 ps)))) f_zero.

(** The target class of sample [i] at position [p]: [yb[i][p]], counted
    from the end when negative. *)
Definition target (p i : nat) : nat :=
  let t := mat_at yb i p in
  Z.to_nat (if decide (0 ≤ t)%Z then t else t + Z.of_nat (tdim1 (p_w2 ps)))%Z.

Definition one_hot (p i v : nat) : F :=
  if decide (v = target p i) then f_one else f_zero.

(** [dlogits = (probs - one_hot(target)) / batch_size] *)
Definition dlogit (p i v : nat) : F :=
  f_div (f_sub (prob p i v) (one_hot p i v)) (f_of_nat (nrows xb)).

(** [dW2[p] = dlogitsᵗ @ h] and [db2[p] = dlogits.sum(axis=0)] *)
Definition grad_W2 (p v k : nat) : F :=
  np_dot ((λ i, dlogit p i v) <$> seq 0 (nrows xb))
         ((λ i, hidden_act i k) <$> seq 0 (nrows xb)).

Definition grad_b2 (p v : nat) : F :=
  np_sum ((λ i, dlogit p i v) <$> seq 0 (nrows xb)).

(** The sum over the first [l] positions of [dlogits @ W2[p]], accumulated
    from zero in the order of the positions. *)
Definition grad_h_sum (i k l : nat) : F :=
  foldl (λ acc p,
           f_add acc (np_dot (dlogit p i <$> seq 0 (tdim1 (p_w2 ps)))
                             ((λ v, ten_at (p_w2 ps) p v k)
                                <$> seq 0 (tdim1 (p_w2 ps)))))
        f_zero (seq 0 l).

(** The hidden gradient: that sum over all positions, zeroed where the
    pre-activation is [<= 0]. *)
Definition grad_h (i k : nat) : F :=
  if f_leb (pre_act i k) f_zero then f_zero
  else grad_h_sum i k (tdim0 (p_w2 ps)).

(** [dW1 = dhᵗ @ xb] and [db1 = dh.sum(axis=0)] *)
Definition grad_W1 (k j : nat) : F :=
  np_dot ((λ i, grad_h i k) <$> seq 0 (nrows xb))
         ((λ i, mat_at xb i j) <$> seq 0 (nrows xb)).

Definition grad_b1 (k : nat) : F :=
  np_sum ((λ i, grad_h i k) <$> seq 0 (nrows xb)).

(** The shapes agree, there is a position and a class, and every target
    is a valid class index. *)
Definition step_shapes (seq_len : nat) : Prop :=
  ncols xb = ncols (p_w1 ps)
  ∧ length (p_b1 ps) = nrows (p_w1 ps)
  ∧ tdim0 (p_w2 ps) = seq_len
  ∧ tdim2 (p_w2 ps) = nrows (p_w1 ps)
  ∧ nrows (p_b2 ps) = seq_len
  ∧ ncols (p_b2 ps) = tdim1 (p_w2 ps)
  ∧ 0 < tdim1 (p_w2 ps)
  ∧ 0 < seq_len
  ∧ nrows yb = nrows xb
  ∧ ncols yb = seq_len
  ∧ ∀ i p, i < nrows xb → p < seq_len →
      (- Z.of_nat (tdim1 (p_w2 ps)) ≤ mat_at yb i p < Z.of_nat (tdim1 (p_w2 ps)))%Z.

End GradientStatements.

(** Plain gradient descent: [param - float32(lr * grad)]. *)
Definition sgd {F : Type} `{FloatOps F} (lr param grad : F) : F :=
  f_sub param (astype32 (f_mul lr grad)).

(** * The job around the model: parameters, environment, data set layout

    The helper functions of main.py that prepare a run.  A character of a
    [string] is a code point below 256. *)

(** ** [str.strip] and [str.lower] *)

(** [c.isspace()]: the control characters 9 to 13 and 28 to 31, the space,
    NEL and the no-break space. *)
Definition isspace (c : Ascii.ascii) : bool :=
  let n := Ascii.N_of_ascii c in
  ((9 <=? n) && (n <=? 13) || (28 <=? n) && (n <=? 32)
   || (n =? 133) || (n =? 160))%N.

(** [s.lstrip()], [s.rstrip()] and [s.strip()] without an argument *)
Fixpoint lstrip (s : string) : string :=
  match s with
  | String c rest => if isspace c then lstrip rest else s
  | EmptyString => EmptyString
  end.

Fixpoint rstrip_space (s : string) : string :=
  match s with
  | EmptyString => EmptyString
  | String c rest =>
      match rstrip_space rest with
      | EmptyString => if isspace c then EmptyString else String c EmptyString
      | kept => String c kept
      end
  end.

Definition strip (s : string) : string := rstrip_space (lstrip s).

(** [c.lower()]: the letters A to Z and the capital letters of Latin-1
    (192 to 222 without the multiplication sign) move up by 32. *)
Definition lower_char (c : Ascii.ascii) : Ascii.ascii :=
  let n := Ascii.N_of_ascii c in
  if ((65 <=? n) && (n <=? 90)
      || (192 <=? n) && (n <=? 222) && negb (n =? 215))%N
  then Ascii.ascii_of_N (n + 32) else c.

Fixpoint lower (s : string) : string :=
  match s with
  | EmptyString => EmptyString
  | String c rest => String (lower_char c) (lower rest)
  end.

(** [a or b] for an [a] that is a [str] or [None] *)
Definition str_or (a : option string) (b : string) : string :=
  match a with
  | Some s => if decide (s = "") then b else s
  | None => b
  end.

(** ** Environment variables and job parameters *)

(** [_require_env]; [environ] is [os.environ]. *)
Definition _require_env (environ : gmap string string) (name : string)
    : result string :=
  let v := strip (str_or (environ !! name) "") in
  if decide (v = "") then Raise ValueError else Ok v.

Definition _clamp_int (value lo hi : Z) : Z := Z.max lo (Z.min hi value).

(** Conversions of Python that the parameters go through, and the float
    literals of [_parse_train_config]. *)
Class PyNum (F : Type) := {
  int_of_float : F → result Z;      (* int(f): cuts the fraction; raises
                                       on an infinity and on a NaN *)
  int_of_str : string → option Z;   (* int(s); None is ValueError *)
  f_minus_1 : F;                    (* -1.0 *)
  f_0_0001 : F;                     (* 0.0001 *)
  f_0_2 : F;                        (* 0.2 *)
  f_0_5 : F;                        (* 0.5 *)
  f_5 : F;                          (* 5.0 *)
  f_60 : F;                         (* 60.0 *)
}.

Section Parameters.
Context {F : Type} `{FloatOps F} `{PyNum F}.

(** [params.get(key)] *)
Definition dict_get (params : gmap string (pyobj F)) (key : string) : pyobj F :=
  match params !! key with
  | Some v => v
  | None => PyNone
  end.

(** [_as_int]: a [bool] is tested before [int]; only the conversion of a
    [str] is inside the [try]. *)
Definition _as_int (v : pyobj F) (default : Z) : result Z :=
  match v with
  | PyBool _ => Ok default
  | PyInt z => Ok z
  | PyFloat f => int_of_float f
  | PyStr s =>
      match int_of_str (strip s) with
      | Some z => Ok z
      | None => Ok default
      end
  | PyNone | PyList _ | PyDict _ => Ok default
  end.

Definition _as_float (v : pyobj F) (default : F) : result F :=
  match v with
  | PyBool _ => Ok default
  | PyInt z =>
      match float_of_int z with Some f => Ok f | None => Raise OverflowError end
  | PyFloat f => Ok f
  | PyStr s =>
      match float_of_str (strip s) with
      | Some f => Ok f
      | None => Ok default
      end
  | PyNone | PyList _ | PyDict _ => Ok default
  end.

(** [max(lo, min(hi, float(value)))] with Python's [min] and [max] *)
Definition _clamp_float (value lo hi : F) : F := py_max lo (py_min hi [value]).

(** [_parse_train_config]; the clamped integers are not negative, so the
    fields of [TrainConfig] hold them as they are. *)
Definition _parse_train_config (params : gmap string (pyobj F))
    : result (TrainConfig F) :=
  epochs ←? _as_int (dict_get params "train_epochs") 0;
  epochs ←? (if decide (epochs ≤ 0)%Z
             then _as_int (dict_get params "train_steps") 40
             else Ok epochs);
  min_epoch_seconds ←? _as_float (dict_get params "train_min_epoch_seconds") f_minus_1;
  min_epoch_seconds ←? (if f_ltb min_epoch_seconds f_zero
                        then _as_float (dict_get params "min_epoch_seconds") f_0_5
                        else Ok min_epoch_seconds);
  batch_size ←? _as_int (dict_get params "train_batch_size") 32;
  learning_rate ←? _as_float (dict_get params "train_lr") f_0_2;
  hidden_size ←? _as_int (dict_get params "train_hidden_size") 128;
  image_width ←? _as_int (dict_get params "image_width") 96;
  image_height ←? _as_int (dict_get params "image_height") 24;
  max_train_samples ←? _as_int (dict_get params "max_train_samples") 200;
  max_validation_samples ←? _as_int (dict_get params "max_validation_samples") 64;
  seed ←? _as_int (dict_get params "seed") 17;
  Ok (mkTrainConfig
        (Z.to_nat (_clamp_int epochs 1 5000))
        (Z.to_nat (_clamp_int batch_size 4 512))
        (_clamp_float learning_rate f_0_0001 f_5)
        (Z.to_nat (_clamp_int hidden_size 16 2048))
        (_clamp_float min_epoch_seconds f_zero f_60)
        (Z.to_nat (_clamp_int image_width 16 512))
        (Z.to_nat (_clamp_int image_height 8 256))
        (Z.to_nat (_clamp_int max_train_samples 10 50000))
        (Z.to_nat (_clamp_int max_validation_samples 10 50000))
        (Z.to_nat (_clamp_int seed 0 (2 ^ 31 - 1)))).

End Parameters.

(** ** Splits and the layout of a data set *)

Definition _normalize_split (split : string) : string :=
  let v := lower (strip split) in
  if decide (v ∈ ["val"; "valid"; "validation"]) then "validation"
  else if decide (v ∈ ["eval"; "evalute"; "evaluate"]) then "evaluate"
  else if decide (v ∈ ["train"; "test"]) then v
  else if decide (v = "") then "evaluate" else v.

(** What [run_evaluation] reads from the environment, by its first
    statements and in their order, before it does anything else. *)
Record EvalSettings : Type := mkEvalSettings {
  datapilot_url : string;
  token : string;
  run_id : string;
  dataset_version_id : string;
  evaluation_id : string;
  split : string;
  preview_samples : Z;
}.

Section EvaluationJob.
Context {F : Type} `{FloatOps F} `{PyNum F}.

(** [os.environ.get(name)] as a Python object *)
Definition environ_get (environ : gmap string string) (name : string) : pyobj F :=
  match environ !! name with
  | Some s => PyStr s
  | None => PyNone
  end.

Definition run_evaluation_settings (environ : gmap string string)
    : result EvalSettings :=
  datapilot_url ←? _require_env environ "DATAPILOT_URL";
  token ←? _require_env environ "TOKEN";
  run_id ←? _require_env environ "RUN_ID";
  dataset_version_id ←? _require_env environ "DATASET_VERSION_ID";
  let evaluation_id := strip (str_or (environ !! "ANIMUS_EVALUATION_ID") "") in
  let split := _normalize_split (str_or (environ !! "ANIMUS_EVAL_SPLIT") "evaluate") in
  samples ←? _as_int (environ_get environ "ANIMUS_EVAL_PREVIEW_SAMPLES") 16;
  let preview_samples := _clamp_int samples 1 128 in
  Ok (mkEvalSettings datapilot_url token run_id dataset_version_id
        evaluation_id split preview_samples).

End EvaluationJob.

Definition IMAGE_EXTS : gset string :=
  {[ ".jpg"; ".jpeg"; ".png"; ".bmp"; ".webp"; ".tif"; ".tiff" ]}.

(** What the job reads of the file system through [pathlib.Path]; the
    file system does not change while a function runs. *)
Class FileSystem (Path : Type) := {
  path_child : Path → string → Path;     (* p / name *)
  is_dir : Path → bool;                  (* p.is_dir() *)
  is_file : Path → bool;                 (* p.is_file() *)
  iterdir : Path → list Path;            (* p.iterdir() *)
  rglob : Path → list Path;              (* p.rglob("*") *)
  sorted_paths : list Path → list Path;  (* sorted(...) on paths *)
  path_suffix : Path → string;           (* p.suffix *)
}.

Section DataSet.
Context {Path : Type} `{FileSystem Path}.

(** The test at the head of the loop of [_resolve_dataset_root]. *)
Definition has_split_dir (cur : Path) : bool :=
  is_dir (path_child cur "train")
  || is_dir (path_child cur "validation")
  || is_dir (path_child cur "test")
  || is_dir (path_child cur "evaluate")
  || is_dir (path_child cur "evalute").

(** [for _ in range(n)] of [_resolve_dataset_root], from [cur]; leaving
    the loop by [break] or by its end returns [extracted_dir]. *)
Fixpoint resolve_root_loop (n : nat) (extracted_dir cur : Path) : Path :=
  match n with
  | O => extracted_dir
  | S n =>
      if has_split_dir cur then cur
      else
        let children := filter (λ p, is_dir p = true) (iterdir cur) in
        let files := filter (λ p, is_file p = true) (iterdir cur) in
        match children, files with
        | [child], [] => resolve_root_loop n extracted_dir child
        | _, _ => extracted_dir
        end
  end.

Definition _resolve_dataset_root (extracted_dir : Path) : Path :=
  resolve_root_loop 2 extracted_dir extracted_dir.

(** [for name in candidates: ...; return None] *)
Fixpoint first_dir (root : Path) (candidates : list string) : option Path :=
  match candidates with
  | [] => None
  | name :: rest =>
      let d := path_child root name in
      if is_dir d then Some d else first_dir root rest
  end.

Definition _resolve_split_dir (root : Path) (split : string) : option Path :=
  let normalized := _normalize_split split in
  let candidates :=
    if decide (normalized = "evaluate") then ["evalute"; "evaluate"]
    else [normalized] in
  first_dir root candidates.

(** The loop of [_iter_images] over the sorted paths; [out] is the list
    built so far. *)
Fixpoint iter_images_loop (limit : Z) (paths out : list Path) : list Path :=
  match paths with
  | [] => out
  | p :: rest =>
      if negb (is_file p) then iter_images_loop limit rest out
      else if decide (lower (path_suffix p) ∈ IMAGE_EXTS) then
        let out := out ++ [p] in
        if decide (limit ≤ Z.of_nat (length out))%Z then out
        else iter_images_loop limit rest out
      else iter_images_loop limit rest out
  end.

Definition _iter_images (root : Path) (limit : Z) : list Path :=
  iter_images_loop limit (sorted_paths (rglob root)) [].

End DataSet.

(** ** Statements about the job parameters *)

(** A parameter value that is neither a number nor a string: [None], a
    [bool], a list or an object. *)
Definition not_numeric {F} (v : pyobj F) : Prop :=
  match v with
  | PyInt _ | PyFloat _ | PyStr _ => False
  | PyNone | PyBool _ | PyList _ | PyDict _ => True
  end.

(** [TrainConfig()]: the defaults of the dataclass. *)
Definition default_config {F} `{PyNum F} : TrainConfig F :=
  mkTrainConfig 40 32 f_0_2 128 f_0_5 96 24 200 64 17.

(** How the float literals of [_parse_train_config] compare. *)
Record literal_order {F : Type} `{FloatOps F} `{PyNum F} : Prop := {
  minus_1_lt_0 : f_ltb f_minus_1 f_zero = true;
  lt_0_0_5 : f_ltb f_zero f_0_5 = true;
  lt_0_5_60 : f_ltb f_0_5 f_60 = true;
  lt_0_0001_0_2 : f_ltb f_0_0001 f_0_2 = true;
  lt_0_2_5 : f_ltb f_0_2 f_5 = true;
}.
Arguments literal_order F {_ _}.

(** ** Statements about the data set layout *)

Section DataSetStatements.
Context {Path : Type} `{FileSystem Path}.

(** A path [_iter_images] keeps: a file whose suffix, in lower case, is
    one of [IMAGE_EXTS]. *)
Definition is_image (p : Path) : Prop :=
  is_file p = true ∧ lower (path_suffix p) ∈ IMAGE_EXTS.

#[global] Instance is_image_dec (p : Path) : Decision (is_image p) :=
  decide (is_file p = true ∧ lower (path_suffix p) ∈ IMAGE_EXTS).

(** The directories and the files directly inside [p]. *)
Definition subdirs (p : Path) : list Path := filter (λ q, is_dir q = true) (iterdir p).
Definition files_in (p : Path) : list Path := filter (λ q, is_file q = true) (iterdir p).

End DataSetStatements.

(** ** Statements about a training run *)

Section RunStatements.
Context {F : Type} `{FloatOps F}.

(** The shapes of the four parameter arrays. *)
Definition params_shape (ps : params F)
    : (nat * nat) * nat * (nat * nat * nat) * (nat * nat) :=
  ((nrows (p_w1 ps), ncols (p_w1 ps)), length (p_b1 ps),
   (tdim0 (p_w2 ps), tdim1 (p_w2 ps), tdim2 (p_w2 ps)),
   (nrows (p_b2 ps), ncols (p_b2 ps))).

(** The samples of minibatch [batch_idx] of an epoch with the permutation
    [perm]: [perm[start : start + batch_size]] for
    [start = batch_idx * batch_size], as [train_batch] cuts it out. *)
Definition minibatch (bs : nat) (perm : list nat) (batch_idx : nat) : list nat :=
  take bs (drop (batch_idx * bs) perm).

(** The minibatches of an epoch, in the order in which the loop over
    [range(batches_per_epoch)] takes them. *)
Definition epoch_batches (bs : nat) (perm : list nat) (batches_per_epoch : nat)
    : list (list nat) :=
  minibatch bs perm <$> seq 0 batches_per_epoch.

(** The training step on the samples [idx], that is on the rows
    [x_train[idx]] and [y_train[idx]]. *)
Definition train_rows (cfg : TrainConfig F) (x_train : mat F) (y_train : mat Z)
    (seq_len : nat) (st : params F * F) (idx : list nat) : result (params F * F) :=
  xb ←? take_rows x_train idx;
  yb ←? take_rows y_train idx;
  train_step cfg xb yb seq_len st.

(** The steps of the calls of [log_metrics] and of [log_progress], and
    the arguments of the calls of [time.sleep], in the order of the
    calls. *)
Definition metrics_steps (events : list (event F)) : list nat :=
  omap (λ e, match e with
             | LogMetrics step _ _ _ _ _ _ _ _ => Some step
             | _ => None
             end) events.

Definition progress_steps (events : list (event F)) : list nat :=
  omap (λ e, match e with
             | LogProgress step _ _ _ => Some step
             | _ => None
             end) events.

Definition sleeps (events : list (event F)) : list F :=
  omap (λ e, match e with
             | Sleep seconds => Some seconds
             | _ => None
             end) events.

End RunStatements.

(** ** Statements about a model archive *)

Section ArchiveStatements.
Context {F : Type} `{FloatOps F}.

(** An archive whose arrays, where it has them, have the rank of their
    field of [TrainedModel]. *)
Definition ranks_fit (data : gmap string (npy F)) : Prop :=
  (∀ a, data !! "w1" = Some a → ∃ m, a = NpyMat m)
  ∧ (∀ a, data !! "b1" = Some a → ∃ v, a = NpyVec v)
  ∧ (∀ a, data !! "w2" = Some a → ∃ t, a = NpyTen t)
  ∧ (∀ a, data !! "b2" = Some a → ∃ m, a = NpyMat m).

(** The member [config_json] holds a JSON object whose [pixel_mean] and
    [pixel_std], where it has them, hold numbers. *)
Definition config_loads (data : gmap string (npy F)) : Prop :=
  ∃ cfg, data !! "config_json" = Some (NpyText (Some (PyDict cfg)))
         ∧ (∀ v, cfg !! "pixel_mean" = Some v → ∃ f, py_float v = Ok f)
         ∧ (∀ v, cfg !! "pixel_std" = Some v → ∃ f, py_float v = Ok f).

End ArchiveStatements.

(** ** Statements about the environment *)

(** The variable [name] is unset or holds nothing but whitespace. *)
Definition env_blank (environ : gmap string string) (name : string) : Prop :=
  match environ !! name with
  | Some raw => strip raw = ""
  | None => True
  end.

(** ** Statements about the evaluation *)

Section EvalStatements.
Context {F : Type} `{FloatOps F}.

(** Two states of the loop of [_eval_model] that agree except in the
    columns of the prediction buffer from [p] on. *)
Definition eval_states_agree (y : mat Z) (p : nat) (a b : F * mat Z * nat) : Prop :=
  a.1.1 = b.1.1 ∧ a.2 = b.2
  ∧ nrows a.1.2 = nrows y ∧ ncols a.1.2 = ncols y
  ∧ nrows b.1.2 = nrows y ∧ ncols b.1.2 = ncols y
  ∧ ∀ i j, i < nrows y → j < ncols y → j < p → mat_at a.1.2 i j = mat_at b.1.2 i j.

End EvalStatements.

(** ** A concrete instance for the job parameters

    The conversions and literals of [PyNum] for the fixed-point numbers of
    [Fixed]; [int(s)] reads an optional sign and decimal digits. *)

Module FixedJob.

Fixpoint digits (s : string) (acc : Z) : option Z :=
  match s with
  | EmptyString => Some acc
  | String c rest =>
      let n := Z.of_N (Ascii.N_of_ascii c) in
      if ((48 <=? n) && (n <=? 57))%Z then digits rest (10 * acc + (n - 48))%Z
      else None
  end.

Definition int_of_digits (s : string) : option Z :=
  match s with
  | EmptyString => None
  | String c rest =>
      let n := Ascii.N_of_ascii c in
      if (n =? 45)%N
      then (if decide (rest = "") then None else Z.opp <$> digits rest 0)
      else if (n =? 43)%N
      then (if decide (rest = "") then None else digits rest 0)
      else digits s 0
  end.

#[global] Instance py_num : PyNum Z := {|
  int_of_float x := Ok (Z.quot x Fixed.scale);
  int_of_str := int_of_digits;
  f_minus_1 := (- Fixed.scale)%Z;
  f_0_0001 := 100000%Z;
  f_0_2 := 200000000%Z;
  f_0_5 := 500000000%Z;
  f_5 := (5 * Fixed.scale)%Z;
  f_60 := (60 * Fixed.scale)%Z;
|}.

(** Parameters of a run as the experiment service hands them over:
    numbers of several types, two of them out of range. *)
Definition params1 : gmap string (pyobj Z) :=
  <["train_epochs" := PyStr " 7 "]>
    (<["train_batch_size" := PyInt 1000]>
      (<["train_lr" := PyFloat (9 * Fixed.scale)%Z]>
        (<["train_hidden_size" := PyFloat 20700000000%Z]>
          (<["seed" := PyBool true]> ∅)))).

(** Parameters that hold no number. *)
Definition params2 : gmap string (pyobj Z) :=
  <["train_epochs" := PyNone]> (<["seed" := PyBool true]> ∅).

End FixedJob.

(** * The client of the experiment service (animus_sdk/experiments.py) *)

(** [s.rstrip("/")] *)
Fixpoint rstrip_slash (s : string) : string :=
  match s with
  | EmptyString => EmptyString
  | String c rest =>
      match rstrip_slash rest with
      | EmptyString =>
          if (Ascii.N_of_ascii c =? 47)%N then EmptyString else String c EmptyString
      | kept => String c kept
      end
  end.

(** The fields [ExperimentsClient.__init__] sets. *)
Record ExperimentsClient (F : Type) : Type := mkExperimentsClient {
  _gateway_url : string;
  _auth_token : option string;
  _timeout_seconds : F;
}.
Arguments mkExperimentsClient {F} _ _ _.
Arguments _gateway_url {F} _.
Arguments _auth_token {F} _.
Arguments _timeout_seconds {F} _.

(** [ExperimentsClient.__init__]; [environ] is [os.environ]. *)
Definition ExperimentsClient_init {F} (environ : gmap string string)
    (gateway_url auth_token : option string) (timeout_seconds : F)
    : ExperimentsClient F :=
  let base :=
    strip (str_or gateway_url
             (str_or (environ !! "ANIMUS_GATEWAY_URL") "http://localhost:8080")) in
  let token :=
    strip (str_or auth_token (str_or (environ !! "ANIMUS_AUTH_TOKEN") "")) in
  mkExperimentsClient (rstrip_slash base)
    (if decide (token = "") then None else Some token)
    timeout_seconds.

(** * Properties *)

(** ** Label codec *)

Lemma chars_of_single label t : t ∈ chars_of label → ∃ c, t = String c "".
Proof.
  induction label as [|c rest IH]; simpl.
  - by intros ?%elem_of_nil.
  - intros [->|Hin]%elem_of_cons; eauto.
Qed.

Lemma pad_not_char labels : PAD_TOKEN ∉ label_chars labels.
Proof.
  unfold label_chars. rewrite list_elem_of_bind.
  intros (label & Hin & _). apply chars_of_single in Hin as [c Hc]. discriminate.
Qed.

Lemma sorted_elem_of l t : t ∈ sorted l ↔ t ∈ l.
Proof. unfold sorted. by rewrite merge_sort_Permutation. Qed.

Lemma sorted_NoDup l : NoDup l → NoDup (sorted l).
Proof. unfold sorted. by rewrite merge_sort_Permutation. Qed.

Lemma build_vocab_unfold labels :
  _build_vocab labels
  = sorted (elements (list_to_set (label_chars labels) : gset string)) ++ [PAD_TOKEN].
Proof.
  unfold _build_vocab. fold (label_chars labels). case_decide as Hin; [|done].
  exfalso. apply (pad_not_char labels).
  by rewrite sorted_elem_of, elem_of_elements, elem_of_list_to_set in Hin.
Qed.

Lemma occurrences_not_elem t l : t ∉ l → occurrences t l = 0.
Proof.
  unfold occurrences. induction l as [|x l IH]; [done|].
  intros Hnin. apply not_elem_of_cons in Hnin as [Hne Hnin].
  rewrite filter_cons_False by congruence. auto.
Qed.

Lemma occurrences_NoDup t l : NoDup l → t ∈ l → occurrences t l = 1.
Proof.
  induction 1 as [|x l Hx Hl IH]; [by intros ?%elem_of_nil|].
  intros [->|Hin]%elem_of_cons; unfold occurrences in *.
  - rewrite filter_cons_True by done. simpl. f_equal.
    by apply occurrences_not_elem.
  - rewrite filter_cons_False; [auto|]. by intros ->.
Qed.

Lemma build_vocab_NoDup labels : NoDup (_build_vocab labels).
Proof.
  rewrite build_vocab_unfold. apply NoDup_app. split_and!.
  - apply sorted_NoDup, NoDup_elements.
  - intros t Ht ->%list_elem_of_singleton.
    rewrite sorted_elem_of, elem_of_elements, elem_of_list_to_set in Ht.
    by apply pad_not_char in Ht.
  - apply NoDup_singleton.
Qed.

(** C3, as the code has it.  For every list of labels the vocabulary is
    the distinct characters of the labels in ascending order followed by
    the padding token: every character of the labels occurs exactly once,
    the padding token occurs exactly once (whatever the labels contain), the
    part before the padding token is sorted, and nothing else is in it. *)
Theorem build_vocab_chars_sorted_then_pad (labels : list string) :
  ∃ chars,
    _build_vocab labels = chars ++ [PAD_TOKEN]
    ∧ StronglySorted String.le chars
    ∧ (∀ ch, ch ∈ chars ↔ ch ∈ label_chars labels)
    ∧ (∀ ch, ch ∈ label_chars labels → occurrences ch (_build_vocab labels) = 1)
    ∧ occurrences PAD_TOKEN (_build_vocab labels) = 1.
Proof.
  exists (sorted (elements (list_to_set (label_chars labels) : gset string))).
  split_and!.
  - apply build_vocab_unfold.
  - apply StronglySorted_merge_sort; apply _.
  - intros ch. by rewrite sorted_elem_of, elem_of_elements, elem_of_list_to_set.
  - intros ch Hch. apply occurrences_NoDup; [apply build_vocab_NoDup|].
    rewrite build_vocab_unfold, elem_of_app. left.
    by rewrite sorted_elem_of, elem_of_elements, elem_of_list_to_set.
  - apply occurrences_NoDup; [apply build_vocab_NoDup|].
    rewrite build_vocab_unfold, elem_of_app. right. by apply list_elem_of_singleton.
Qed.

(** C3 as stated fails: for the single label "A" the vocabulary is
    ["A"; "<pad>"], and "A" sorts after "<pad>". *)
Lemma build_vocab_not_fully_sorted : ¬ vocab_fully_sorted ["A"].
Proof.
  unfold vocab_fully_sorted. intros (_ & Hsorted & _).
  assert (_build_vocab ["A"] = ["A"; PAD_TOKEN]) as Hv by (by vm_compute).
  rewrite Hv in Hsorted. inversion Hsorted as [|? ? _ Hhd]; subst.
  inversion Hhd as [|? ? Hle]; subst. by vm_compute in Hle.
Qed.

Lemma tok_to_idx_snoc l x : tok_to_idx (l ++ [x]) = <[x := length l]> (tok_to_idx l).
Proof.
  unfold tok_to_idx, enumerate. rewrite imap_app, foldl_app. simpl.
  by rewrite Nat.add_0_r.
Qed.

Lemma tok_to_idx_lookup l t i : tok_to_idx l !! t = Some i → l !! i = Some t.
Proof.
  revert i. induction l as [|x l IH] using rev_ind; intros i.
  - unfold tok_to_idx. simpl. by rewrite lookup_empty.
  - rewrite tok_to_idx_snoc. destruct (decide (x = t)) as [->|Hne].
    + rewrite lookup_insert_eq. intros [= <-].
      by rewrite lookup_app_r, Nat.sub_diag by lia.
    + rewrite lookup_insert_ne by done. intros Hi%IH.
      by rewrite lookup_app_l by (by eapply lookup_lt_Some).
Qed.

Lemma tok_to_idx_elem l t : t ∈ l → is_Some (tok_to_idx l !! t).
Proof.
  induction l as [|x l IH] using rev_ind; [by intros ?%elem_of_nil|].
  rewrite tok_to_idx_snoc. intros Hin. destruct (decide (x = t)) as [->|Hne].
  - rewrite lookup_insert_eq. eauto.
  - rewrite lookup_insert_ne by done. apply IH.
    apply elem_of_app in Hin as [?|Hx%list_elem_of_singleton]; congruence.
Qed.

Lemma foldl_insert_enumerate {A B} (f : B → A) (base : list A) (cs : list B) :
  length cs ≤ length base →
  foldl (λ row (it : nat * B), <[it.1 := f it.2]> row) base (enumerate cs)
  = (f <$> cs) ++ drop (length cs) base.
Proof.
  unfold enumerate. induction cs as [|c cs IH] using rev_ind; intros Hlen.
  - simpl. by rewrite drop_0.
  - rewrite length_app in Hlen. simpl in Hlen.
    rewrite imap_app, foldl_app, IH by lia. simpl. rewrite Nat.add_0_r.
    rewrite fmap_app, length_app. simpl.
    destruct (drop (length cs) base) as [|d rest] eqn:Hdrop.
    { apply (f_equal length) in Hdrop. rewrite length_drop in Hdrop. simpl in Hdrop. lia. }
    replace (length cs) with (length (f <$> cs) + 0) at 1
      by (rewrite length_fmap; lia).
    rewrite insert_app_r. simpl. rewrite <- (assoc_L (++)). simpl.
    do 2 f_equal. by rewrite <- (drop_drop base 1 (length cs)), Hdrop.
Qed.

Lemma chars_of_length label : length (chars_of label) = String.length label.
Proof. induction label; simpl; auto. Qed.

Lemma join_chars_of label : join (chars_of label) = label.
Proof.
  induction label as [|c rest IH]; [done|].
  change (String c (join (chars_of rest)) = String c rest). by rewrite IH.
Qed.

Lemma collect_Ok {A B} (f : A → result B) xs ys :
  Forall2 (λ x y, f x = Ok y) xs ys → collect f xs = Ok ys.
Proof. induction 1 as [|x y xs ys Hxy _ IH]; simpl; [done|]. by rewrite Hxy, IH. Qed.

Lemma removelast_snoc {A} (l : list A) x : removelast (l ++ [x]) = l.
Proof. apply removelast_last. Qed.

Lemma removelast_take {A} (l : list A) : removelast l = take (length l - 1) l.
Proof.
  induction l as [|x l IH] using rev_ind; [done|].
  rewrite removelast_snoc, length_app. simpl.
  rewrite take_app_le by lia. rewrite take_ge by lia. done.
Qed.

(** The loop stops at the last token that is not the padding token, and
    has then removed as many confidences as tokens. *)
Lemma pop_trailing_pads {C} fuel pad (l : list string) k (confs : list C) :
  k ≤ fuel → (∀ l' t, l = l' ++ [t] → t ≠ pad) →
  pop_trailing fuel pad (l ++ replicate k pad) confs
  = (l, take (length confs - k) confs).
Proof.
  revert fuel confs. induction k as [|k IH]; intros fuel confs Hfuel Hlast.
  - simpl. rewrite app_nil_r, Nat.sub_0_r, take_ge by lia.
    destruct fuel as [|fuel]; [done|]. simpl.
    destruct (last l) as [t|] eqn:Hl; [|done].
    apply last_Some in Hl as [l' ->]. case_decide as Ht; [|done].
    by destruct (Hlast l' t).
  - destruct fuel as [|fuel]; [lia|].
    rewrite replicate_S_end, (assoc_L (++)). cbn [pop_trailing].
    rewrite last_snoc, decide_True by done.
    rewrite removelast_snoc, IH by (done || lia).
    rewrite removelast_take, take_take, length_take. do 2 f_equal. lia.
Qed.

(** C2.  For every label no longer than [max_len] whose characters all
    occur in a vocabulary (which holds the padding token), encoding
    succeeds with a row of [max_len] indices, and decoding that row with the
    padding token reproduces the label. *)
Theorem decode_encode_roundtrip (vocab : list string) (label : string) (max_len : nat) :
  PAD_TOKEN ∈ vocab →
  String.length label ≤ max_len →
  (∀ ch, ch ∈ chars_of label → ch ∈ vocab) →
  ∃ row, _encode_labels [label] vocab max_len = Ok [row]
         ∧ length row = max_len
         ∧ decode row vocab PAD_TOKEN = Ok label.
Proof.
  intros Hpad Hlen Hchars.
  destruct (tok_to_idx_elem vocab PAD_TOKEN Hpad) as [pad_idx Hpi].
  set (tok := tok_to_idx vocab) in *.
  set (f := λ ch : string, default pad_idx (tok !! ch)).
  set (cs := chars_of label).
  assert (length cs = String.length label) as Hcs by apply chars_of_length.
  set (row := (f <$> cs) ++ replicate (max_len - length cs) pad_idx).
  assert (encode_row tok pad_idx max_len label = row) as Hrow.
  { unfold encode_row. fold cs. rewrite take_ge by lia.
    etrans; [apply (foldl_insert_enumerate f); rewrite length_replicate; lia|].
    by rewrite drop_replicate. }
  exists row. split_and!.
  - unfold _encode_labels. fold tok. rewrite Hpi. simpl. by rewrite Hrow.
  - unfold row. rewrite length_app, length_fmap, length_replicate. lia.
  - unfold decode.
    rewrite (collect_Ok _ row (cs ++ replicate (max_len - length cs) PAD_TOKEN)).
    + simpl. unfold strip_padding. rewrite pop_trailing_pads.
      * simpl. unfold cs. by rewrite join_chars_of.
      * rewrite length_app, length_replicate. lia.
      * intros l' t Hl ->. assert (PAD_TOKEN ∈ cs) as Hin.
        { rewrite Hl. apply elem_of_app. right. by apply list_elem_of_singleton. }
        apply chars_of_single in Hin as [c Hc]. discriminate.
    + unfold row. apply Forall2_app.
      * apply Forall2_fmap_l, Forall_Forall2_diag, Forall_forall. intros ch Hch.
        destruct (tok_to_idx_elem vocab ch (Hchars ch Hch)) as [i Hi].
        unfold vocab_at. simpl. unfold f. fold tok in Hi. rewrite Hi. simpl.
        by rewrite (tok_to_idx_lookup vocab ch i Hi).
      * apply Forall2_replicate. unfold vocab_at.
        by rewrite (tok_to_idx_lookup vocab PAD_TOKEN pad_idx Hpi).
Qed.

(** The scenario of the specification: vocabulary ['0','1','<pad>'], length
    4, label "01". *)
Lemma decode_encode_roundtrip_witness :
  ∃ row, _encode_labels ["01"] ["0"; "1"; PAD_TOKEN] 4 = Ok [row]
         ∧ length row = 4
         ∧ decode row ["0"; "1"; PAD_TOKEN] PAD_TOKEN = Ok "01".
Proof.
  apply (decode_encode_roundtrip ["0"; "1"; PAD_TOKEN] "01" 4).
  - compute_done.
  - simpl. lia.
  - apply Forall_forall. compute_done.
Defined.

(** ** Arrays *)

Lemma tabulate_at {A} `{Inhabited A} n m (f : nat → nat → A) i j :
  i < n → j < m → mat_at (tabulate n m f) i j = f i j.
Proof.
  intros Hi Hj. unfold tabulate. simpl.
  rewrite (list_lookup_total_fmap (λ i, f i <$> seq 0 m)) by (rewrite length_seq; lia).
  rewrite lookup_total_seq_lt by done.
  rewrite (list_lookup_total_fmap (f (0 + i))) by (rewrite length_seq; lia).
  by rewrite lookup_total_seq_lt.
Qed.

Lemma ten_tabulate_at {A} `{Inhabited A} a b c (f : nat → nat → nat → A) p i j :
  p < a → i < b → j < c → ten_at (ten_tabulate a b c f) p i j = f p i j.
Proof.
  intros Hp Hi Hj. unfold ten_tabulate. simpl.
  rewrite (list_lookup_total_fmap (λ p, (λ i, f p i <$> seq 0 c) <$> seq 0 b))
    by (rewrite length_seq; lia).
  rewrite lookup_total_seq_lt by done.
  rewrite (list_lookup_total_fmap (λ i, f (0 + p) i <$> seq 0 c))
    by (rewrite length_seq; lia).
  rewrite lookup_total_seq_lt by done.
  rewrite (list_lookup_total_fmap (f (0 + p) (0 + i))) by (rewrite length_seq; lia).
  by rewrite lookup_total_seq_lt.
Qed.

Lemma mat_map_at {A B} `{Inhabited B} (f : A → B) m i j :
  i < nrows m → j < ncols m → mat_at (mat_map f m) i j = f (mat_at m i j).
Proof. intros. unfold mat_map. by rewrite tabulate_at. Qed.

Lemma ten_map_at {A B} `{Inhabited B} (f : A → B) t p i j :
  p < tdim0 t → i < tdim1 t → j < tdim2 t →
  ten_at (ten_map f t) p i j = f (ten_at t p i j).
Proof. intros. unfold ten_map. by rewrite ten_tabulate_at. Qed.

Lemma mat_row_ext {A} (m1 m2 : mat A) i :
  ncols m1 = ncols m2 →
  (∀ j, j < ncols m1 → mat_at m1 i j = mat_at m2 i j) →
  mat_row m1 i = mat_row m2 i.
Proof.
  intros Hc Hat. unfold mat_row. rewrite <- Hc.
  apply list_fmap_ext. intros k j Hj. apply Hat.
  apply lookup_seq in Hj. lia.
Qed.

Lemma mat_col_ext {A} (m1 m2 : mat A) j :
  nrows m1 = nrows m2 →
  (∀ i, i < nrows m1 → mat_at m1 i j = mat_at m2 i j) →
  mat_col m1 j = mat_col m2 j.
Proof.
  intros Hr Hat. unfold mat_col. rewrite <- Hr.
  apply list_fmap_ext. intros k i Hi. apply Hat.
  apply lookup_seq in Hi. lia.
Qed.

(** ** Model serializer *)

Section SerializerFacts.
Context {F : Type} `{FloatOps F}.

Lemma mat_float32_at (m : mat F) i j :
  mat_float32 m → i < nrows m → j < ncols m → astype32 (mat_at m i j) = mat_at m i j.
Proof.
  unfold mat_float32, mat_rows. rewrite Forall_fmap, Forall_forall.
  intros Hm Hi Hj. specialize (Hm i). simpl in Hm.
  unfold mat_row in Hm. rewrite Forall_fmap, Forall_forall in Hm.
  apply Hm; apply elem_of_seq; lia.
Qed.

Lemma ten_float32_at (t : ten F) p i j :
  ten_float32 t → p < tdim0 t → i < tdim1 t → j < tdim2 t →
  astype32 (ten_at t p i j) = ten_at t p i j.
Proof.
  unfold ten_float32. rewrite Forall_forall. intros Ht Hp Hi Hj.
  apply (mat_float32_at (Mat (tdim1 t) (tdim2 t) (ten_at t p))); [|done..].
  apply Ht, elem_of_seq. lia.
Qed.

Lemma mat_cast_float32 (m : mat F) :
  mat_float32 m → mat_equiv (mat_map astype32 (mat_map astype32 m)) m.
Proof.
  intros Hm. split_and!; [done..|]. intros i j Hi Hj.
  change (i < nrows m) in Hi. change (j < ncols m) in Hj.
  rewrite !mat_map_at by done. by rewrite !mat_float32_at.
Qed.

Lemma ten_cast_float32 (t : ten F) :
  ten_float32 t → ten_equiv (ten_map astype32 (ten_map astype32 t)) t.
Proof.
  intros Ht. split_and!; [done..|]. intros p i j Hp Hi Hj.
  change (p < tdim0 t) in Hp. change (i < tdim1 t) in Hi.
  change (j < tdim2 t) in Hj.
  rewrite !ten_map_at by done. by rewrite !ten_float32_at.
Qed.



Lemma load_save (model : TrainedModel F) (mean std : F) :
  _load_model_npz (_save_model_npz model mean std)
  = Ok (mkTrainedModel
          (<["pixel_std" := PyFloat std]>
             (<["pixel_mean" := PyFloat mean]> (config model)))
          (mat_map astype32 (mat_map astype32 (w1 model)))
          (astype32 <$> (astype32 <$> b1 model))
          (ten_map astype32 (ten_map astype32 (w2 model)))
          (mat_map astype32 (mat_map astype32 (b2 model))),
        mean, std).
Proof.
  unfold _load_model_npz, _save_model_npz, npz_get.
  rewrite lookup_insert_ne, lookup_insert_ne, lookup_insert_ne,
    lookup_insert_ne, lookup_insert_eq by done.
  simpl. rewrite lookup_insert_ne, lookup_insert_eq by done.
  rewrite lookup_insert_eq. simpl.
  rewrite lookup_insert_ne, lookup_insert_ne, lookup_insert_ne,
    lookup_insert_eq by done.
  simpl. rewrite lookup_insert_ne, lookup_insert_ne, lookup_insert_eq by done.
  simpl. rewrite lookup_insert_ne, lookup_insert_eq by done.
  simpl. by rewrite lookup_insert_eq.
Qed.



Lemma mat_equiv_trans (m1 m2 m3 : mat F) :
  mat_equiv m1 m2 → mat_equiv m2 m3 → mat_equiv m1 m3.
Proof.
  intros (Hr & Hc & Ha) (Hr' & Hc' & Ha'). split_and!; [congruence..|].
  intros i j Hi Hj. rewrite Ha by done. apply Ha'; congruence.
Qed.

Lemma ten_equiv_trans (t1 t2 t3 : ten F) :
  ten_equiv t1 t2 → ten_equiv t2 t3 → ten_equiv t1 t3.
Proof.
  intros (H0 & H1 & H2 & Ha) (H0' & H1' & H2' & Ha'). split_and!; [congruence..|].
  intros p i j Hp Hi Hj. rewrite Ha by done. apply Ha'; congruence.
Qed.




End SerializerFacts.

Section LoadFacts.
Context {F : Type} `{FloatOps F}.

(** C9.  An archive that holds the four arrays and a config object loads
    without raising whether or not the config has [pixel_mean] and
    [pixel_std] (a field that is present must hold a number); the mean
    returned for a missing [pixel_mean] is 0.0 and the std returned for a
    missing [pixel_std] is 1.0. *)
Theorem load_defaults (data : gmap string (npy F)) (cfg : gmap string (pyobj F))
    (m1 : mat F) (v1 : list F) (t2 : ten F) (m2 : mat F) :
  data !! "config_json" = Some (NpyText (Some (PyDict cfg))) →
  data !! "w1" = Some (NpyMat m1) →
  data !! "b1" = Some (NpyVec v1) →
  data !! "w2" = Some (NpyTen t2) →
  data !! "b2" = Some (NpyMat m2) →
  (∀ v, cfg !! "pixel_mean" = Some v → ∃ f, py_float v = Ok f) →
  (∀ v, cfg !! "pixel_std" = Some v → ∃ f, py_float v = Ok f) →
  ∃ model mean std,
    _load_model_npz data = Ok (model, mean, std)
    ∧ config model = cfg
    ∧ (cfg !! "pixel_mean" = None → mean = f_zero)
    ∧ (cfg !! "pixel_std" = None → std = f_one)
    ∧ (∀ v, cfg !! "pixel_mean" = Some v → py_float v = Ok mean)
    ∧ (∀ v, cfg !! "pixel_std" = Some v → py_float v = Ok std).
Proof.
  intros Hcj Hw1 Hb1 Hw2 Hb2 Hmean Hstd.
  unfold _load_model_npz, npz_get. rewrite Hcj, Hw1, Hb1, Hw2, Hb2. simpl.
  destruct (cfg !! "pixel_mean") as [vm|] eqn:Em;
    destruct (cfg !! "pixel_std") as [vs|] eqn:Es; simpl.
  - destruct (Hmean vm eq_refl) as [fm Hfm]. destruct (Hstd vs eq_refl) as [fs Hfs].
    rewrite Hfm, Hfs. simpl. eexists _, fm, fs. split_and!; try done.
    + by intros v [= <-].
    + by intros v [= <-].
  - destruct (Hmean vm eq_refl) as [fm Hfm]. rewrite Hfm. simpl.
    eexists _, fm, f_one. split_and!; try done. by intros v [= <-].
  - destruct (Hstd vs eq_refl) as [fs Hfs]. rewrite Hfs. simpl.
    eexists _, f_zero, fs. split_and!; try done. by intros v [= <-].
  - eexists _, f_zero, f_one. by split_and!.
Qed.

End LoadFacts.

(** ** Evaluation *)

Section EvalFacts.
Context {F : Type} `{FloatOps F}.

(** C8.  On an empty feature array or an empty label array [_eval_model]
    returns (0.0, 0.0, 0.0) and raises nothing, whatever the parameters. *)
Theorem eval_model_empty (uninit : nat → nat → Z) (x : mat F) (y : mat Z)
    (w1 : mat F) (b1 : list F) (w2 : ten F) (b2 : mat F) :
  mat_size x = 0 ∨ mat_size y = 0 →
  _eval_model uninit x y w1 b1 w2 b2 = Ok (f_zero, f_zero, f_zero).
Proof. intros Hempty. unfold _eval_model. by rewrite decide_True. Qed.

End EvalFacts.

(** An archive written by an older saver: no [pixel_std] in the config. *)
Lemma load_defaults_witness :
  ∃ model mean std,
    _load_model_npz
      (<["config_json" := NpyText (Some (PyDict {["pixel_mean" := PyFloat 5%Z]}))]>
        (<["w1" := NpyMat Fixed.x4]>
          (<["b1" := NpyVec [0%Z]]>
            (<["w2" := NpyTen (Ten 1 1 1 (λ _ _ _, 0%Z))]>
              {["b2" := NpyMat Fixed.x4]}))))
    = Ok (model, mean, std)
    ∧ mean = 5%Z ∧ std = Fixed.scale.
Proof.
  edestruct (load_defaults (H := Fixed.float_ops)
    (<["config_json" := NpyText (Some (PyDict {["pixel_mean" := PyFloat 5%Z]}))]>
        (<["w1" := NpyMat Fixed.x4]>
          (<["b1" := NpyVec [0%Z]]>
            (<["w2" := NpyTen (Ten 1 1 1 (λ _ _ _, 0%Z))]>
              {["b2" := NpyMat Fixed.x4]}))))
    {["pixel_mean" := PyFloat 5%Z]})
    as (model & mean & std & Hload & _ & _ & Hstd & Hmean & _).
  - reflexivity.
  - reflexivity.
  - reflexivity.
  - reflexivity.
  - reflexivity.
  - intros v Hv. vm_compute in Hv. injection Hv as <-. by eexists.
  - intros v Hv. vm_compute in Hv. discriminate.
  - exists model, mean, std. split_and!.
    + exact Hload.
    + specialize (Hmean (PyFloat 5%Z) eq_refl). by injection Hmean.
    + by apply Hstd.
Defined.

Lemma eval_model_empty_witness :
  _eval_model (λ _ _, 0%Z) (Mat 0 2 (λ _ _, 0%Z)) Fixed.y4
    Fixed.x4 [0%Z] (Ten 1 1 1 (λ _ _ _, 0%Z)) Fixed.x4
  = Ok (0%Z, 0%Z, 0%Z).
Proof.
  apply (eval_model_empty (H := Fixed.float_ops)). left. reflexivity.
Defined.




(** ** Computations that agree *)

Lemma rel_bind {A B A' B'} (R : A → A' → Prop) (S : B → B' → Prop)
    (m : result A) (m' : result A') (k : A → result B) (k' : A' → result B') :
  rel_result R m m' →
  (∀ a a', R a a' → rel_result S (k a) (k' a')) →
  rel_result S (rbind m k) (rbind m' k').
Proof. destruct m, m'; simpl; try done. intros HR Hk. by apply Hk. Qed.

Lemma rel_for_each {A S S'} (R : S → S' → Prop)
    (body : S → A → result S) (body' : S' → A → result S') xs s s' :
  (∀ s s' x, x ∈ xs → R s s' → rel_result R (body s x) (body' s' x)) →
  R s s' → rel_result R (for_each body s xs) (for_each body' s' xs).
Proof.
  revert s s'. induction xs as [|x xs IH]; intros s s' Hbody HR; [done|].
  simpl. eapply rel_bind.
  - apply Hbody; [apply elem_of_cons; by left|done].
  - intros a a' Ha. apply IH; [|done].
    intros ? ? y Hy. apply Hbody. apply elem_of_cons. by right.
Qed.

Lemma rel_result_eq {A} (ra rb : result A) : rel_result eq ra rb → ra = rb.
Proof. destruct ra, rb; simpl; intros; by subst. Qed.

Lemma rel_result_refl {A} (ra : result A) : rel_result eq ra ra.
Proof. by destruct ra. Qed.

Lemma mat_row_length {A} (m : mat A) i : length (mat_row m i) = ncols m.
Proof. unfold mat_row. by rewrite length_fmap, length_seq. Qed.

Lemma nth_fmap_seq {A} (f : nat → A) n k d : k < n → nth k (f <$> seq 0 n) d = f k.
Proof.
  intros Hk. apply nth_lookup_Some. rewrite list_lookup_fmap, lookup_seq_lt by done.
  done.
Qed.

Lemma nth_mat_row {A} (m : mat A) i j d : j < ncols m → nth j (mat_row m i) d = mat_at m i j.
Proof. intros. unfold mat_row. by rewrite nth_fmap_seq. Qed.

Lemma tabulate_row {A} `{Inhabited A} n m (f : nat → nat → A) i :
  i < n → mat_row (tabulate n m f) i = f i <$> seq 0 m.
Proof.
  intros Hi. unfold mat_row. apply list_fmap_ext. intros k j Hj.
  apply lookup_seq in Hj as [-> Hj]. change (ncols (tabulate n m f)) with m in Hj.
  by rewrite tabulate_at.
Qed.

Lemma mat_map_row {A B} `{Inhabited B} (f : A → B) m i :
  i < nrows m → mat_row (mat_map f m) i = f <$> mat_row m i.
Proof.
  intros. unfold mat_map. rewrite tabulate_row by done.
  unfold mat_row. by rewrite <- list_fmap_compose.
Qed.

Lemma row0_length {A} (m : mat A) r : row0 m r → length r = ncols m.
Proof. intros [_ <-]. apply mat_row_length. Qed.

Lemma row0_map {A B} `{Inhabited B} (f : A → B) m r :
  row0 m r → row0 (mat_map f m) (f <$> r).
Proof. intros [Hn <-]. split; [done|]. by apply mat_map_row. Qed.

Lemma bidx_lt n j : j < n → bidx n j = j.
Proof. unfold bidx. case_decide; lia. Qed.

Lemma broadcast_bidx a b c j : broadcast_dim a b = Ok c → j < c → bidx a j < a.
Proof.
  unfold broadcast_dim, bidx. repeat case_decide; intros [= <-]; lia.
Qed.

(** ** Predictor *)

Section PredictorFacts.
Context {F : Type} `{FloatOps F} `{PyRepr F}.

Lemma matmul_T_row0 (x w : mat F) r :
  row0 x r → rel_result row0 (matmul x (mat_T w)) (dot_rows r w).
Proof.
  intros Hx. pose proof (row0_length _ _ Hx) as Hlen. destruct Hx as [Hn <-].
  unfold matmul, dot_rows. rewrite Hlen. change (nrows (mat_T w)) with (ncols w).
  case_decide; [|done]. simpl. split; [done|].
  by rewrite tabulate_row.
Qed.

Lemma add_row_row0 (m : mat F) (b r : list F) :
  row0 m r → rel_result row0 (add_row m b) (add_vec r b).
Proof.
  intros Hm. pose proof (row0_length _ _ Hm) as Hlen. destruct Hm as [Hn <-].
  unfold add_row, add_vec. rewrite Hlen.
  destruct (broadcast_dim (ncols m) (length b)) as [c|e] eqn:Hc; [|done].
  simpl. split; [done|]. rewrite tabulate_row by done.
  apply list_fmap_ext. intros k j Hj. apply lookup_seq in Hj as [-> Hj].
  simpl. by rewrite nth_mat_row by (by eapply broadcast_bidx).
Qed.

Lemma relu_row0 (z : mat F) r :
  row0 z r → row0 (_relu z) ((λ v, np_maximum v f_zero) <$> r).
Proof. apply row0_map. Qed.

Lemma softmax_row0 (l : mat F) r :
  row0 l r → rel_result row0 (_softmax l) (softmax_vec r).
Proof.
  intros Hl. pose proof (row0_length _ _ Hl) as Hlen. destruct Hl as [Hn <-].
  unfold _softmax, softmax_vec. rewrite Hlen. case_decide; [done|].
  cbv beta iota zeta delta [rel_result]. split; [done|].
  rewrite tabulate_row by done. unfold softmax_row.
  set (z := tabulate _ _ _).
  assert (mat_row (mat_map f_exp z) 0
          = (λ v, f_exp (f_sub v (np_max (mat_row l 0)))) <$> mat_row l 0) as Hexp.
  { rewrite mat_map_row by done. unfold z. rewrite tabulate_row by done.
    unfold mat_row at 3. by rewrite <- !list_fmap_compose. }
  rewrite <- Hexp.
  exact (list_fmap_compose (mat_at (mat_map f_exp z) 0)
           (λ e, f_div e (np_sum (mat_row (mat_map f_exp z) 0))) _).
Qed.

Lemma predict_pos_row0 model vocab (h : mat F) hr vocab_size st pos :
  row0 h hr →
  rel_result eq (predict_pos model vocab h vocab_size st pos)
                (predict_pos_row model vocab hr vocab_size st pos).
Proof.
  intros Hh. unfold predict_pos, predict_pos_row.
  eapply rel_bind; [apply rel_result_refl|]. intros w2p ? <-.
  eapply rel_bind; [by apply matmul_T_row0|]. intros hw hwr Hhw.
  eapply rel_bind; [apply rel_result_refl|]. intros b2p ? <-.
  eapply rel_bind; [by apply add_row_row0|]. intros logits lr Hlr.
  eapply rel_bind; [by apply softmax_row0|]. intros probs pr Hpr.
  pose proof (row0_length _ _ Hpr) as Hlen. destruct Hpr as [Hn <-].
  rewrite decide_True by done. simpl.
  eapply rel_bind; [apply rel_result_refl|]. intros tok ? <-.
  rewrite Hlen. case_decide; [|done]. simpl. by rewrite nth_mat_row.
Qed.

(** The predictor reads the first row of the features only. *)
Lemma predict_text_row (model : TrainedModel F) (x : mat F) (mean std : F) :
  0 < nrows x →
  _predict_text model x mean std = predict_row model (mat_row x 0) mean std.
Proof.
  intros Hx. apply rel_result_eq. unfold _predict_text, predict_row.
  destruct (config model !! "vocab") as [[| | | | |[|v0 vs]|]|]; try done.
  assert (row0 (mat_map (λ v, f_div (f_sub v mean) (py_max f_1e_6 std))
                  (mat_map astype32 x))
               (normalise mean std (mat_row x 0))) as Hrow.
  { replace (normalise mean std (mat_row x 0))
      with ((λ v, f_div (f_sub v mean) (py_max f_1e_6 std))
              <$> (astype32 <$> mat_row x 0))
      by exact (eq_sym (list_fmap_compose astype32 _ _)).
    by apply row0_map, row0_map. }
  eapply rel_bind; [by apply matmul_T_row0|]. intros xw xwr Hxw.
  eapply rel_bind; [by apply add_row_row0|]. intros z1 z1r Hz1.
  eapply rel_bind.
  { apply (rel_for_each eq); [|done]. intros s ? pos _ <-.
    by apply predict_pos_row0, relu_row0. }
  intros st ? <-. by destruct (strip_padding _ _ _) as [tokens [|c cs]].
Qed.

(** C10.  For a feature array with at least one row the predictor
    returns what it returns on the array cut down to its first row: the
    same text and confidence, or the same exception. *)
Theorem predict_text_first_row_only (model : TrainedModel F) (x : mat F)
    (mean std : F) :
  0 < nrows x →
  _predict_text model x mean std = _predict_text model (mat_take 1 x) mean std.
Proof.
  intros Hx. rewrite (predict_text_row model x) by done.
  rewrite (predict_text_row model (mat_take 1 x))
    by (unfold mat_take; cbn [nrows]; lia).
  reflexivity.
Qed.

End PredictorFacts.

Lemma rstrip_pads pad tokens : ∃ k, tokens = rstrip pad tokens ++ replicate k pad.
Proof.
  induction tokens as [|t ts [k IH]]; [by exists 0|]. simpl.
  destruct (rstrip pad ts) as [|a kept].
  - case_decide as Ht.
    + exists (S k). simpl. by rewrite Ht, IH at 1.
    + exists k. simpl. by rewrite IH at 1.
  - exists k. simpl. by rewrite IH at 1.
Qed.

Lemma rstrip_last pad tokens l t : rstrip pad tokens = l ++ [t] → t ≠ pad.
Proof.
  revert l. induction tokens as [|u ts IH]; intros l; simpl.
  - by destruct l.
  - destruct (rstrip pad ts) as [|a kept].
    + case_decide; [by destruct l|]. destruct l as [|? [|? ?]]; intros [=]; by subst.
    + destruct l as [|? l]; [by intros [=]|]. intros [= -> Hl]. by eapply IH.
Qed.

Lemma rstrip_length pad tokens : length (rstrip pad tokens) ≤ length tokens.
Proof.
  destruct (rstrip_pads pad tokens) as [k Hk]. rewrite Hk at 2.
  rewrite length_app. lia.
Qed.

(** The loop of [_predict_text] computes [rstrip] and keeps the
    confidences of the positions left. *)
Lemma strip_padding_rstrip {C} pad tokens (confs : list C) :
  length confs = length tokens →
  strip_padding pad tokens confs
  = (rstrip pad tokens, take (length (rstrip pad tokens)) confs).
Proof.
  intros Hlen. unfold strip_padding.
  destruct (rstrip_pads pad tokens) as [k Hk].
  rewrite Hk at 2. rewrite pop_trailing_pads.
  - do 2 f_equal. rewrite Hlen, Hk at 1. rewrite length_app, length_replicate. lia.
  - rewrite Hk at 1. rewrite length_app, length_replicate. lia.
  - intros l' t. apply rstrip_last.
Qed.

Lemma for_each_append {A B C} (body : list B * list C → A → result (list B * list C))
    (g1 : A → B) (g2 : A → C) xs st :
  (∀ st x, x ∈ xs → body st x = Ok (st.1 ++ [g1 x], st.2 ++ [g2 x])) →
  for_each body st xs = Ok (st.1 ++ (g1 <$> xs), st.2 ++ (g2 <$> xs)).
Proof.
  revert st. induction xs as [|x xs IH]; intros st Hbody; simpl.
  - rewrite !app_nil_r. by destruct st.
  - rewrite Hbody by (apply elem_of_cons; by left). simpl.
    rewrite IH by (intros; apply Hbody; apply elem_of_cons; by right).
    simpl. by rewrite <- !(assoc_L (++)).
Qed.

Lemma join_empty tokens : "" ∉ tokens → join tokens = "" → tokens = [].
Proof.
  destruct tokens as [|t ts]; [done|]. intros Hnin Hjoin. exfalso.
  apply Hnin. apply elem_of_cons. left.
  unfold join in Hjoin. simpl in Hjoin. destruct t; [done|discriminate].
Qed.

Lemma clamp_idx_min vocab_size idx :
  clamp_idx vocab_size idx = Nat.min (vocab_size - 1) idx.
Proof. unfold clamp_idx. lia. Qed.

Section PredictorPost.
Context {F : Type} `{FloatOps F} `{PyRepr F}.

Lemma add_vec_same (v b : list F) :
  length v = length b →
  add_vec v b
  = Ok ((λ j, f_add (nth j v f_zero) (nth j b f_zero)) <$> seq 0 (length v)).
Proof.
  intros Hlen. unfold add_vec, broadcast_dim. rewrite decide_True by done.
  simpl. f_equal. apply list_fmap_ext. intros k j Hj.
  apply lookup_seq in Hj as [-> Hj]. simpl.
  by rewrite <- Hlen, !bidx_lt.
Qed.

Lemma softmax_row_length (z : list F) : length (softmax_row z) = length z.
Proof. unfold softmax_row. by rewrite !length_fmap. Qed.

Lemma hidden_row_ok (model : TrainedModel F) (xr : list F) :
  length xr = ncols (w1 model) →
  length (b1 model) = nrows (w1 model) →
  (xw ←? dot_rows xr (w1 model);
   z1 ←? add_vec xw (b1 model);
   Ok ((λ v, np_maximum v f_zero) <$> z1))
  = Ok (hidden_row model xr).
Proof.
  intros Hx Hb. unfold dot_rows. rewrite decide_True by done. simpl.
  rewrite add_vec_same by (by rewrite length_fmap, length_seq).
  simpl. f_equal. rewrite length_fmap, length_seq, <- list_fmap_compose.
  unfold hidden_row. apply list_fmap_ext. intros i k Hk.
  apply lookup_seq in Hk as [-> Hk]. simpl. by rewrite nth_fmap_seq.
Qed.

Lemma head_logits_length model h p :
  length (head_logits model h p) = tdim1 (w2 model).
Proof. unfold head_logits. by rewrite length_fmap, length_seq. Qed.

Lemma head_index_lt model h p :
  0 < tdim1 (w2 model) → head_index model h p < tdim1 (w2 model).
Proof. unfold head_index. lia. Qed.

Lemma predict_pos_row_ok (model : TrainedModel F) (vs : list string)
    (h : list F) st pos :
  vs ≠ [] →
  length vs = tdim1 (w2 model) →
  length h = tdim2 (w2 model) →
  nrows (b2 model) = tdim0 (w2 model) →
  ncols (b2 model) = tdim1 (w2 model) →
  pos < tdim0 (w2 model) →
  predict_pos_row model (PyStr <$> vs) h (tdim1 (w2 model)) st pos
  = Ok (st.1 ++ [nth (head_index model h pos) vs ""],
        st.2 ++ [nth (head_index model h pos) (head_probs model h pos) f_zero]).
Proof.
  intros Hvs Hlen Hh Hb2r Hb2c Hpos.
  assert (0 < tdim1 (w2 model)) as HV by (destruct vs; simpl in *; [done|lia]).
  unfold predict_pos_row, ten_slice, mat_slice, dot_rows.
  rewrite decide_True by done. cbn [rbind ncols nrows].
  rewrite decide_True by done. cbn [rbind].
  rewrite decide_True by lia. cbn [rbind].
  rewrite add_vec_same
    by (by rewrite length_fmap, length_seq, mat_row_length).
  cbn [rbind]. rewrite length_fmap, length_seq.
  assert ((λ j, f_add
             (nth j ((λ k, np_dot h (mat_row (Mat (tdim1 (w2 model))
                        (tdim2 (w2 model)) (ten_at (w2 model) pos)) k))
                      <$> seq 0 (tdim1 (w2 model))) f_zero)
             (nth j (mat_row (b2 model) pos) f_zero)) <$> seq 0 (tdim1 (w2 model))
          = head_logits model h pos) as ->.
  { unfold head_logits. apply list_fmap_ext. intros i v Hv.
    apply lookup_seq in Hv as [-> Hv]. simpl.
    rewrite nth_fmap_seq by done. by rewrite nth_mat_row by lia. }
  unfold softmax_vec. rewrite decide_False by (rewrite head_logits_length; lia).
  cbn [rbind]. rewrite clamp_idx_min. fold (head_probs model h pos).
  fold (head_index model h pos).
  pose proof (head_index_lt model h pos HV) as Hidx.
  destruct (lookup_lt_is_Some_2 vs (head_index model h pos)) as [t Ht]; [lia|].
  rewrite list_lookup_fmap, Ht. cbn [fmap option_fmap option_map rbind].
  rewrite decide_True by (unfold head_probs; rewrite softmax_row_length, head_logits_length; lia).
  cbn [rbind py_str]. by rewrite (nth_lookup_Some _ _ _ _ Ht).
Qed.

End PredictorPost.

(** ** Which exceptions the array operations raise *)

Lemma runtime_bind {A B} (m : result A) (k : A → result B) :
  ¬ raises_runtime m → (∀ a, ¬ raises_runtime (k a)) → ¬ raises_runtime (rbind m k).
Proof. destruct m as [a|e]; simpl; [intros _ Hk; apply Hk|].
  intros Hm _ [msg [= ->]]. apply Hm. by eexists. Qed.

Lemma runtime_for_each {A S} (body : S → A → result S) s xs :
  (∀ s x, ¬ raises_runtime (body s x)) → ¬ raises_runtime (for_each body s xs).
Proof.
  intros Hbody. revert s. induction xs as [|x xs IH]; intros s; simpl.
  - by intros [msg [=]].
  - by apply runtime_bind.
Qed.

Lemma runtime_if {A} (P : Prop) `{Decision P} (a b : result A) :
  ¬ raises_runtime a → ¬ raises_runtime b → ¬ raises_runtime (if decide P then a else b).
Proof. by case_decide. Qed.

Lemma runtime_Ok {A} (a : A) : ¬ raises_runtime (Ok a).
Proof. by intros [msg [=]]. Qed.

Lemma runtime_Index {A} : ¬ raises_runtime (@Raise A IndexError).
Proof. by intros [msg [=]]. Qed.

Lemma runtime_Value {A} : ¬ raises_runtime (@Raise A ValueError).
Proof. by intros [msg [=]]. Qed.

Create HintDb runtime.
#[local] Hint Resolve runtime_Ok runtime_Index runtime_Value : runtime.

Section PredictorErrors.
Context {F : Type} `{FloatOps F} `{PyRepr F}.

Lemma runtime_ten_slice (t : ten F) p : ¬ raises_runtime (ten_slice t p).
Proof. unfold ten_slice. apply runtime_if; auto with runtime. Qed.

Lemma runtime_mat_slice (m : mat F) p : ¬ raises_runtime (mat_slice m p).
Proof. unfold mat_slice. apply runtime_if; auto with runtime. Qed.

Lemma runtime_matmul (a b : mat F) : ¬ raises_runtime (matmul a b).
Proof. unfold matmul. apply runtime_if; auto with runtime. Qed.

Lemma runtime_add_row (m : mat F) b : ¬ raises_runtime (add_row m b).
Proof.
  unfold add_row, broadcast_dim. repeat case_decide; simpl; auto with runtime.
Qed.

Lemma runtime_softmax (l : mat F) : ¬ raises_runtime (_softmax l).
Proof. unfold _softmax. case_decide; auto with runtime. Qed.

Lemma runtime_predict_pos model vocab (h : mat F) vocab_size st pos :
  ¬ raises_runtime (predict_pos model vocab h vocab_size st pos).
Proof.
  unfold predict_pos.
  apply runtime_bind; [apply runtime_ten_slice|intros w2p].
  apply runtime_bind; [apply runtime_matmul|intros hw].
  apply runtime_bind; [apply runtime_mat_slice|intros b2p].
  apply runtime_bind; [apply runtime_add_row|intros logits].
  apply runtime_bind; [apply runtime_softmax|intros probs].
  apply runtime_bind; [apply runtime_if; auto with runtime|intros idx].
  apply runtime_bind; [destruct (vocab !! _); auto with runtime|intros tok].
  apply runtime_bind; [apply runtime_if; auto with runtime|intros c].
  auto with runtime.
Qed.

Lemma normalise_floored (mean std : F) (row : list F) :
  normalise mean std row = normalised mean std row.
Proof. reflexivity. Qed.

(** Python's [min]: the value it returns is in the list and nothing in
    the list is below it, for a comparison that is irreflexive and
    transitive. *)
Lemma py_min_fold (order : float_order F) (m : F) (cs : list F) :
  let r := py_min m cs in
  r ∈ m :: cs
  ∧ f_ltb m r = false
  ∧ Forall (λ c, f_ltb c r = false) cs
  ∧ (r = m ∨ f_ltb r m = true).
Proof.
  cbv zeta. unfold py_min. revert m.
  induction cs as [|x cs IH]; intros m; cbn [foldl].
  - split_and!; [apply elem_of_cons; by left|apply (ltb_irrefl order)
                |constructor|by left].
  - destruct (IH (if f_ltb x m then x else m)) as (Hin & Hm' & Hcs & Hr).
    set (r := foldl _ _ cs) in *.
    destruct (f_ltb x m) eqn:Hxm.
    + assert (f_ltb r m = true) as Hrm.
      { destruct Hr as [->|Hrx]; [done|]. by apply (ltb_trans order _ x). }
      split_and!.
      * apply elem_of_cons. right. done.
      * destruct (f_ltb m r) eqn:Hmr; [|done].
        pose proof (ltb_trans order m r m Hmr Hrm) as Hmm.
        by rewrite (ltb_irrefl order) in Hmm.
      * by constructor.
      * by right.
    + split_and!.
      * apply elem_of_cons in Hin as [->|Hin]; [by left|].
        apply elem_of_cons. right. apply elem_of_cons. by right.
      * done.
      * constructor; [|done]. destruct Hr as [->|Hrm]; [done|].
        destruct (f_ltb x r) eqn:Hxr; [|done].
        pose proof (ltb_trans order x r m Hxr Hrm) as Hxm'.
        by rewrite Hxm in Hxm'.
      * done.
Qed.

Lemma confidence_of_minimum (order : float_order F) (confs : list F) :
  confs ≠ [] → is_minimum (confidence_of confs) confs.
Proof.
  destruct confs as [|c cs]; [done|]. intros _. unfold confidence_of.
  destruct (py_min_fold order c cs) as (Hin & Hc & Hcs & _).
  split; [done|]. by constructor.
Qed.

Lemma confidence_of_elem (confs : list F) :
  confs ≠ [] → confidence_of confs ∈ confs.
Proof.
  destruct confs as [|c cs]; [done|]. intros _. unfold confidence_of, py_min.
  revert c. induction cs as [|x cs IH]; intros c; cbn [foldl].
  - by left.
  - specialize (IH (if f_ltb x c then x else c)).
    apply elem_of_cons in IH as [->|IH].
    + destruct (f_ltb x c); [right; by left|by left].
    + right. by right.
Qed.

(** C6.  [_predict_text] raises RuntimeError("model_invalid_vocab")
    exactly when the stored vocabulary is missing or empty.  On a
    well-formed model with vocabulary [vs] and features of the right
    width it returns a text and a confidence such that: the features of
    the first row are normalised with the given mean and with [std]
    floored at [1e-6]; at each position the index is the argmax of the
    head's softmax, clamped to [0 .. vocab_size - 1], which is a valid
    index of [vs]; the text joins the tokens left after dropping the
    trailing run of the padding token, and only that, the padding token
    being the one the config stores, and "<pad>" when it stores none;
    the confidence is 0.0 when no position is left, that is when the
    text is empty; otherwise it is the probability of one of the
    positions left, and none of these probabilities is below it (for a
    comparison that is irreflexive and transitive, as that of floats
    is). *)
Theorem predict_text_postcondition (model : TrainedModel F) (x : mat F)
    (mean std : F) :
  (_predict_text model x mean std = Raise (RuntimeError "model_invalid_vocab")
   ↔ vocab_missing_or_empty (config model))
  ∧ ∀ vs, well_formed model vs → 0 < nrows x → ncols x = ncols (w1 model) →
      let h := hidden_row model (normalised mean std (mat_row x 0)) in
      let positions := seq 0 (tdim0 (w2 model)) in
      let tokens := (λ p, nth (head_index model h p) vs "") <$> positions in
      let confs :=
        (λ p, nth (head_index model h p) (head_probs model h p) f_zero)
          <$> positions in
      let pad := pad_token_of (config model) in
      let kept := rstrip pad tokens in
      let kept_confs := take (length kept) confs in
      ∃ confidence,
        _predict_text model x mean std = Ok (join kept, confidence)
        ∧ (∀ p, p < tdim0 (w2 model) → head_index model h p < length vs)
        ∧ (∃ k, tokens = kept ++ replicate k pad)
        ∧ (∀ l t, kept = l ++ [t] → t ≠ pad)
        ∧ (config model !! "pad_token" = None → pad = PAD_TOKEN)
        ∧ (∀ t, config model !! "pad_token" = Some (PyStr t) → t ≠ "" → pad = t)
        ∧ length kept_confs = length kept
        ∧ (join kept = "" → confidence = f_zero)
        ∧ (join kept ≠ "" → confidence ∈ kept_confs)
        ∧ (join kept ≠ "" → float_order F → is_minimum confidence kept_confs).
Proof.
  split.
  - unfold vocab_missing_or_empty, _predict_text.
    destruct (config model !! "vocab") as [[| | | | |[|v0 vs]|]|]; try done.
    split; [|done]. intros Hraise. exfalso.
    eapply runtime_bind; [| |by eexists; apply Hraise].
    { apply runtime_matmul. }
    intros xw. apply runtime_bind; [apply runtime_add_row|intros z1].
    apply runtime_bind.
    { apply runtime_for_each. intros. apply runtime_predict_pos. }
    intros st. destruct (strip_padding _ _ _). auto with runtime.
  - intros vs (Hvocab & Hvs & Hne & Hlen & Hb1 & Hw2 & Hb2r & Hb2c) Hx Hcols.
    intros h positions tokens confs pad kept kept_confs.
    assert (0 < tdim1 (w2 model)) as HV by (destruct vs; simpl in *; [done|lia]).
    assert (∀ p, p < tdim0 (w2 model) → head_index model h p < length vs) as Hidx.
    { intros p _. rewrite Hlen. by apply head_index_lt. }
    destruct (rstrip_pads pad tokens) as [k Hk]. fold kept in Hk.
    assert (length kept_confs = length kept) as Hkc.
    { unfold kept_confs. rewrite length_take.
      pose proof (rstrip_length pad tokens) as Hle. fold kept in Hle.
      unfold tokens, confs in *. rewrite !length_fmap in *. lia. }
    assert (join kept = "" → kept = []) as Hempty.
    { intros Hjoin. apply join_empty; [|done].
      intros Hin. apply Hne.
      assert ("" ∈ tokens) as Ht by (rewrite Hk; apply elem_of_app; by left).
      apply list_elem_of_fmap in Ht as (p & Hp & Hpin).
      rewrite Hp. apply list_elem_of_lookup. exists (head_index model h p).
      apply elem_of_seq in Hpin.
      destruct (lookup_lt_is_Some_2 vs (head_index model h p)) as [t Ht];
        [apply Hidx; lia|].
      by rewrite (nth_lookup_Some _ _ _ _ Ht). }
    assert (join kept ≠ "" → kept_confs ≠ []) as Hfull.
    { intros Hjoin Hnil. apply Hjoin. rewrite Hnil in Hkc.
      destruct kept; [done|discriminate]. }
    exists (confidence_of kept_confs).
    split_and!; [|done|by exists k|intros l t; apply rstrip_last| | |done| | |].
    + rewrite predict_text_row by done. unfold predict_row. rewrite Hvocab.
      destruct vs as [|v0 vs']; [done|]. cbn [fmap list_fmap].
      change (PyStr v0 :: list_fmap _ _ PyStr vs') with (PyStr <$> (v0 :: vs')).
      rewrite normalise_floored.
      assert (length (normalised mean std (mat_row x 0)) = ncols (w1 model)) as Hxr.
      { unfold normalised. by rewrite length_fmap, mat_row_length. }
      pose proof (hidden_row_ok model _ Hxr Hb1) as Hh. fold h in Hh.
      destruct (dot_rows _ _) as [xw|e]; [|done]. cbn [rbind] in Hh |- *.
      destruct (add_vec xw _) as [z1|e]; [|done]. cbn [rbind] in Hh |- *.
      injection Hh as ->.
      rewrite (for_each_append _
                 (λ p, nth (head_index model h p) (v0 :: vs') "")
                 (λ p, nth (head_index model h p) (head_probs model h p) f_zero)).
      * cbn [rbind fst snd app]. fold positions tokens confs.
        rewrite strip_padding_rstrip by (unfold tokens, confs; by rewrite !length_fmap).
        done.
      * intros st p Hp. apply elem_of_seq in Hp.
        apply (predict_pos_row_ok model (v0 :: vs')); try done; [|lia].
        unfold h, hidden_row. rewrite length_fmap, length_seq. done.
    + intros Hpad. unfold pad, pad_token_of. by rewrite Hpad.
    + intros t Hpad Ht. unfold pad, pad_token_of. rewrite Hpad. cbn [py_truthy py_str].
      by rewrite (proj2 (String.eqb_neq t "") Ht).
    + intros Hjoin. apply Hempty in Hjoin. rewrite Hjoin in Hkc.
      destruct kept_confs; [done|discriminate].
    + intros Hjoin. by apply confidence_of_elem, Hfull.
    + intros Hjoin order. by apply confidence_of_minimum, Hfull.
Qed.

End PredictorErrors.

(** The hand-made model on the features [[0, 1]]: the heads choose "1"
    and the padding token, and the padding is dropped. *)
Lemma predict_text_postcondition_witness :
  _predict_text Fixed.model3 (mat_of_rows 0%Z 2 [[0%Z; Fixed.scale]]) 0%Z Fixed.scale
  = Ok ("1", 600000000%Z).
Proof.
  destruct (predict_text_postcondition Fixed.model3
              (mat_of_rows 0%Z 2 [[0%Z; Fixed.scale]]) 0%Z Fixed.scale)
    as [_ Hpost].
  destruct (Hpost Fixed.vocab3) as (confidence & Hpred & _).
  - unfold well_formed. split_and!; [reflexivity|done|compute_done|reflexivity..].
  - simpl. lia.
  - reflexivity.
  - rewrite Hpred. vm_compute in Hpred. injection Hpred as <-.
    vm_compute. reflexivity.
Defined.

Lemma predict_text_first_row_only_witness :
  _predict_text Fixed.model3 Fixed.x4 0%Z Fixed.scale
  = _predict_text Fixed.model3 (mat_take 1 Fixed.x4) 0%Z Fixed.scale.
Proof.
  apply (predict_text_first_row_only Fixed.model3 Fixed.x4). simpl. lia.
Defined.

(** ** Trainer: best-checkpoint tracking *)

Lemma last_cons_default {A} (a b : A) l :
  default a (last (b :: l)) = default b (last l).
Proof.
  revert a b. induction l as [|c l IH]; intros a b; [done|].
  change (last (b :: c :: l)) with (last (c :: l)).
  by rewrite (IH a c), (IH b c).
Qed.

Lemma for_each_trace {A S} (body : S → A → result S) s xs sf :
  for_each body s xs = Ok sf →
  ∃ states, trace body s xs = Ok states ∧ default s (last states) = sf.
Proof.
  revert s. induction xs as [|x xs IH]; intros s; simpl.
  - intros [= <-]. by exists [].
  - destruct (body s x) as [s'|e]; [|done]. simpl. intros Hrest.
    destruct (IH s' Hrest) as (states & -> & Hlast). simpl.
    exists (s' :: states). split; [done|]. by rewrite last_cons_default.
Qed.

Section CheckpointFacts.
Context {F : Type} `{FloatOps F} `{RngOps F}.
Variable env : Env F.
Variable cfg : TrainConfig F.
Variables (x_train : mat F) (y_train : mat Z) (x_val : mat F) (y_val : mat Z).
Variables n_train seq_len batches_per_epoch : nat.

Let step := epoch_step env cfg x_train y_train x_val y_val
              n_train seq_len batches_per_epoch.
Let evl := epoch_val_loss env x_val y_val.

Lemma epoch_step_checkpoint s epoch s' :
  step s epoch = Ok s' →
  ∃ v, evl s s' = Ok v
       ∧ if f_ltb v (st_best_val_loss s)
         then st_best_val_loss s' = v ∧ st_best_snapshot s' = Some (st_params s')
         else st_best_val_loss s' = st_best_val_loss s
              ∧ st_best_snapshot s' = st_best_snapshot s.
Proof.
  unfold step, evl, epoch_step, epoch_val_loss.
  destruct (permutation _ _) as [perm rng].
  destruct (for_each _ _ _) as [[ps epoch_loss]|e]; [|done]. cbn [rbind fst].
  destruct (eval_params _ x_train _ _) as [[[tl tf] tc]|e]; [|done]. cbn [rbind].
  destruct (eval_params _ x_val _ _) as [[[vl vf] vc]|e] eqn:Hva; [|done].
  cbn [rbind].
  destruct (py_div_nat _ _) as [percent|e]; [|done]. cbn [rbind].
  destruct (pace _ _ _ _ _) as [ticks events].
  intros [= <-]. cbn [st_params st_best_val_loss st_best_snapshot].
  rewrite Hva. cbn [rbind fst]. exists vl. split; [done|].
  by destruct (f_ltb vl (st_best_val_loss s)).
Qed.

Hypothesis order : float_order F.

(** Along a run the best loss only goes down, and it is the loss of the
    epoch whose parameters the snapshot holds. *)
Lemma trace_best s xs states :
  trace step s xs = Ok states →
  let final := default s (last states) in
  (∀ prev s' v, (prev, s') ∈ zip (s :: states) states →
     evl prev s' = Ok v → f_ltb v (st_best_val_loss final) = false)
  ∧ ((st_best_val_loss final = st_best_val_loss s
      ∧ st_best_snapshot final = st_best_snapshot s)
     ∨ (f_ltb (st_best_val_loss final) (st_best_val_loss s) = true
        ∧ ∃ prev s', (prev, s') ∈ zip (s :: states) states
            ∧ st_best_snapshot final = Some (st_params s')
            ∧ evl prev s' = Ok (st_best_val_loss final))).
Proof.
  revert s states. induction xs as [|x xs IH]; intros s states; simpl.
  - intros [= <-]. simpl. split; [|by left].
    by intros ? ? ? ?%elem_of_nil.
  - destruct (step s x) as [s1|e] eqn:Hstep; [|done]. cbn [rbind].
    destruct (trace step s1 xs) as [rest|e] eqn:Htrace; [|done]. cbn [rbind].
    intros [= <-].
    destruct (IH s1 rest Htrace) as [Hlow Hbest]. clear IH.
    destruct (epoch_step_checkpoint s x s1 Hstep) as (v1 & Hv1 & Hupd).
    assert (default s (last (s1 :: rest)) = default s1 (last rest)) as Hfinal
      by apply last_cons_default.
    cbv zeta. rewrite Hfinal. set (final := default s1 (last rest)) in *.
    change (zip (s :: s1 :: rest) (s1 :: rest))
      with ((s, s1) :: zip (s1 :: rest) rest).
    destruct (f_ltb v1 (st_best_val_loss s)) eqn:Hlt.
    + (* the first epoch improved *)
      destruct Hupd as [Hb1 Hs1]. split.
      * intros prev s' v [[= -> ->]|Hin]%elem_of_cons Hv; [|by eapply Hlow].
        rewrite Hv1 in Hv. injection Hv as <-.
        destruct Hbest as [[Hb _]|[Hb _]].
        -- rewrite Hb, Hb1. apply (ltb_irrefl order).
        -- destruct (f_ltb v1 (st_best_val_loss final)) eqn:Hc; [|done].
           rewrite Hb1 in Hb.
           pose proof (ltb_trans order _ _ _ Hc Hb) as Hcc.
           by rewrite (ltb_irrefl order) in Hcc.
      * right. destruct Hbest as [[Hb Hs]|(Hb & prev & s' & Hin & Hs & Hv)].
        -- split; [by rewrite Hb, Hb1|].
           exists s, s1. split_and!.
           ++ apply elem_of_cons. by left.
           ++ by rewrite Hs, Hs1.
           ++ by rewrite Hb, Hb1.
        -- split; [|exists prev, s'; split_and!; try done;
                    apply elem_of_cons; by right].
           rewrite Hb1 in Hb. by apply (ltb_trans order _ _ _ Hb).
    + (* the first epoch did not improve *)
      destruct Hupd as [Hb1 Hs1]. split.
      * intros prev s' v [[= -> ->]|Hin]%elem_of_cons Hv; [|by eapply Hlow].
        rewrite Hv1 in Hv. injection Hv as <-.
        destruct Hbest as [[Hb _]|[Hb _]].
        -- by rewrite Hb, Hb1.
        -- destruct (f_ltb v1 (st_best_val_loss final)) eqn:Hc; [|done].
           rewrite Hb1 in Hb.
           by rewrite (ltb_trans order _ _ _ Hc Hb) in Hlt.
      * destruct Hbest as [[Hb Hs]|(Hb & prev & s' & Hin & Hs & Hv)].
        -- left. by rewrite Hb, Hs, Hb1, Hs1.
        -- right. split; [by rewrite <- Hb1|].
           exists prev, s'. split_and!; try done. apply elem_of_cons. by right.
Qed.

Lemma trace_steps s xs states prev s' :
  trace step s xs = Ok states →
  (prev, s') ∈ zip (s :: states) states →
  ∃ epoch, step prev epoch = Ok s'.
Proof.
  revert s states. induction xs as [|x xs IH]; intros s states; simpl.
  - intros [= <-]. by intros ?%elem_of_nil.
  - destruct (step s x) as [s1|e] eqn:Hstep; [|done]. cbn [rbind].
    destruct (trace step s1 xs) as [rest|e] eqn:Htrace; [|done]. cbn [rbind].
    intros [= <-].
    change (zip (s :: s1 :: rest) (s1 :: rest))
      with ((s, s1) :: zip (s1 :: rest) rest).
    intros [[= -> ->]|Hin]%elem_of_cons; [by exists x|]. by eapply IH.
Qed.

End CheckpointFacts.

Section CheckpointTheorem.
Context {F : Type} `{FloatOps F} `{RngOps F}.

Lemma init_state_best (cfg : TrainConfig F) feat_dim seq_len vocab_size :
  st_best_val_loss (init_state cfg feat_dim seq_len vocab_size) = f_inf
  ∧ st_best_snapshot (init_state cfg feat_dim seq_len vocab_size) = None.
Proof.
  unfold init_state. destruct (standard_normal _ _) as [n1 rng1].
  by destruct (standard_normal _ _) as [n2 rng2].
Qed.

Lemma params_of_finish (cfg : TrainConfig F) seq_len vocab (s : train_state) :
  params_of (finish cfg seq_len vocab s).1
  = match st_best_snapshot s with Some best => best | None => st_params s end.
Proof.
  unfold finish, params_of. simpl.
  by destruct (st_best_snapshot s) as [[]|]; [|destruct (st_params s)].
Qed.

(** C7.  For every run of [_train_mlp] that returns: at each epoch the
    best loss and the snapshot of the four arrays are replaced exactly
    when the validation loss of the epoch is strictly lower than the best
    so far; no epoch had a validation loss strictly lower than the one
    kept; the returned model is the snapshot of an epoch with that loss
    and the reported loss is that loss; and when no epoch improved on
    infinity, the returned model holds the live parameters of the last
    epoch and the reported loss is 0.0. *)
Theorem best_checkpoint_tracking (env : Env F) (x_train : mat F) (y_train : mat Z)
    (x_val : mat F) (y_val : mat Z) (cfg : TrainConfig F) (vocab : list string)
    (model : TrainedModel F) (val_loss : F) (events : list (event F)) :
  float_order F →
  _train_mlp env x_train y_train x_val y_val cfg vocab
  = Ok (model, val_loss, events) →
  ∃ batches states,
    let s0 := init_state cfg (ncols x_train) (ncols y_train) (length vocab) in
    batches_of (nrows x_train) (batch_size cfg) = Ok batches
    ∧ trace (epoch_step env cfg x_train y_train x_val y_val
               (nrows x_train) (ncols y_train) batches)
            s0 (seq 1 (epochs cfg)) = Ok states
    ∧ checkpoint_post env x_val y_val s0 states model val_loss.
Proof.
  intros order. unfold _train_mlp. case_decide; [done|].
  destruct (batches_of _ _) as [batches|e]; [|done]. cbn [rbind].
  destruct (for_each _ _ _) as [sf|e] eqn:Hrun; [|done]. cbn [rbind].
  pose proof (params_of_finish cfg (ncols y_train) vocab sf) as Hps.
  assert ((finish cfg (ncols y_train) vocab sf).2
          = if negb (f_eqb (st_best_val_loss sf) f_inf)
            then st_best_val_loss sf else f_zero) as Hloss by done.
  destruct (finish cfg (ncols y_train) vocab sf) as [model' val_loss'].
  intros [= -> -> _]. cbn [fst snd] in Hps, Hloss.
  destruct (for_each_trace _ _ _ _ Hrun) as (states & Htrace & Hfinal).
  exists batches, states. cbv zeta. split; [done|]. split; [done|].
  set (s0 := init_state _ _ _ _) in *.
  destruct (trace_best env cfg x_train y_train x_val y_val _ _ _ order
              _ _ _ Htrace) as [Hlow Hbest].
  rewrite Hfinal in Hlow, Hbest.
  destruct (init_state_best cfg (ncols x_train) (ncols y_train) (length vocab))
    as [Hb0 Hs0]. fold s0 in Hb0, Hs0.
  unfold checkpoint_post. rewrite Hfinal. split_and!.
  - intros prev s Hin.
    destruct (trace_steps env cfg x_train y_train x_val y_val _ _ _
                _ _ _ _ _ Htrace Hin) as [epoch Hstep].
    by eapply epoch_step_checkpoint.
  - done.
  - destruct Hbest as [[Hb Hs]|(Hb & prev & s' & Hin & Hs & Hv)].
    + rewrite Hs, Hs0 in Hps |- *. rewrite Hb, Hb0. split_and!; [done..|].
      by rewrite Hloss, Hb, Hb0, (eqb_inf order).
    + rewrite Hs in Hps |- *. split_and!; [done| |by exists prev, s'].
      rewrite Hloss. rewrite Hb0 in Hb. by rewrite (ltb_neq order _ _ Hb).
Qed.

End CheckpointTheorem.

Lemma fixed_order : float_order Z.
Proof.
  split.
  - apply Z.ltb_irrefl.
  - intros a b c. cbn [f_ltb Fixed.float_ops]. rewrite !Z.ltb_lt. lia.
  - reflexivity.
  - intros a b Hab%Z.ltb_lt. apply Z.eqb_neq. lia.
Qed.

(** Three epochs on the four-image data set: the validation loss falls at
    every epoch, so the model returned is the snapshot of the last one. *)
Lemma best_checkpoint_tracking_witness :
  ∃ model val_loss events states,
    _train_mlp Fixed.env0 Fixed.x4 Fixed.y4 Fixed.x4 Fixed.y4 Fixed.cfg4 Fixed.vocab3
    = Ok (model, val_loss, events)
    ∧ val_loss = 605970396%Z
    ∧ checkpoint_post Fixed.env0 Fixed.x4 Fixed.y4
        (init_state Fixed.cfg4 2 2 3) states model val_loss.
Proof.
  assert (∃ r, _train_mlp Fixed.env0 Fixed.x4 Fixed.y4 Fixed.x4 Fixed.y4
                 Fixed.cfg4 Fixed.vocab3 = Ok r ∧ r.1.2 = 605970396%Z)
    as [[[model val_loss] events] [Hrun Hloss]].
  { let r := eval vm_compute in
      (_train_mlp Fixed.env0 Fixed.x4 Fixed.y4 Fixed.x4 Fixed.y4
         Fixed.cfg4 Fixed.vocab3) in
    match r with Ok ?x => exists x end.
    split; [vm_compute; reflexivity|reflexivity]. }
  destruct (best_checkpoint_tracking _ _ _ _ _ _ _ _ _ _ fixed_order Hrun)
    as (batches & states & _ & _ & Hpost).
  exists model, val_loss, events, states.
  split; [exact Hrun|]. split; [exact Hloss|exact Hpost].
Defined.


(** ** Trainer: what a run depends on *)

Lemma rel_result_impl {A B} (R S : A → B → Prop) ra rb :
  (∀ a b, R a b → S a b) → rel_result R ra rb → rel_result S ra rb.
Proof. destruct ra, rb; simpl; auto. Qed.

Section DeterminismFacts.
Context {F : Type} `{FloatOps F} `{RngOps F}.

Lemma eval_pos_same (y : mat Z) (h : mat F) (w2 : ten F) (b2 : mat F) st1 st2 pos :
  same_eval_state st1 st2 →
  rel_result same_eval_state (eval_pos y h w2 b2 st1 pos) (eval_pos y h w2 b2 st2 pos).
Proof.
  destruct st1 as [[l1 p1] c1], st2 as [[l2 p2] c2].
  intros (Hl & Hc & Hr & Hcol). simpl in Hl, Hc, Hr, Hcol. subst l2 c2.
  unfold eval_pos.
  eapply rel_bind; [apply rel_result_refl|]. intros w2p ? <-.
  eapply rel_bind; [apply rel_result_refl|]. intros hw ? <-.
  eapply rel_bind; [apply rel_result_refl|]. intros b2p ? <-.
  eapply rel_bind; [apply rel_result_refl|]. intros logits ? <-.
  eapply rel_bind; [apply rel_result_refl|]. intros probs ? <-.
  eapply rel_bind; [apply rel_result_refl|]. intros idx ? <-.
  eapply rel_bind; [apply rel_result_refl|]. intros p ? <-.
  eapply (rel_bind (λ a b : mat Z, nrows a = nrows b ∧ ncols a = ncols b)).
  { unfold set_column. rewrite Hr, Hcol. repeat case_decide; simpl; done. }
  intros q1 q2 [Hqr Hqc].
  eapply rel_bind; [apply rel_result_refl|]. intros k ? <-.
  by split_and!.
Qed.

(** The loss [_eval_model] returns does not depend on what the
    uninitialised prediction buffer held, nor does whether it raises. *)
Lemma eval_model_same (u1 u2 : nat → nat → Z) (x : mat F) (y : mat Z)
    (w1 : mat F) (b1 : list F) (w2 : ten F) (b2 : mat F) :
  rel_result same_loss (_eval_model u1 x y w1 b1 w2 b2) (_eval_model u2 x y w1 b1 w2 b2).
Proof.
  unfold _eval_model. case_decide; [done|].
  eapply rel_bind; [apply rel_result_refl|]. intros xw ? <-.
  eapply rel_bind; [apply rel_result_refl|]. intros z1 ? <-.
  eapply rel_bind.
  { apply (rel_for_each same_eval_state).
    - intros s s' pos _. apply eval_pos_same.
    - by split_and!. }
  intros [[l1 p1] c1] [[l2 p2] c2] (Hl & Hc & _). simpl in Hl, Hc. subst l2 c2.
  eapply rel_bind; [apply rel_result_refl|]. intros loss ? <-.
  eapply rel_bind; [apply rel_result_refl|]. intros char_acc ? <-.
  done.
Qed.

Lemma epoch_step_same (env1 env2 : Env F) (cfg : TrainConfig F)
    (x_train : mat F) (y_train : mat Z) (x_val : mat F) (y_val : mat Z)
    n_train seq_len batches s1 s2 epoch :
  same_training s1 s2 →
  rel_result same_training
    (epoch_step env1 cfg x_train y_train x_val y_val n_train seq_len batches s1 epoch)
    (epoch_step env2 cfg x_train y_train x_val y_val n_train seq_len batches s2 epoch).
Proof.
  intros (Hp & Hr & Hb & Hs). unfold epoch_step. rewrite Hp, Hr.
  destruct (permutation _ _) as [perm rng].
  eapply rel_bind; [apply rel_result_refl|]. intros r ? <-.
  eapply (rel_bind (λ _ _, True)).
  { eapply rel_result_impl; [|apply eval_model_same]. done. }
  intros [[tl1 tf1] tc1] [[tl2 tf2] tc2] _.
  eapply rel_bind; [apply eval_model_same|].
  intros [[vl1 vf1] vc1] [[vl2 vf2] vc2] Hvl. unfold same_loss in Hvl.
  simpl in Hvl. subst vl2.
  eapply rel_bind; [apply rel_result_refl|]. intros percent ? <-.
  destruct (pace env1 _ _ _ _) as [t1 e1], (pace env2 _ _ _ _) as [t2 e2].
  simpl. unfold same_training. simpl. by rewrite Hb, Hs.
Qed.

(** C5.  Two runs of [_train_mlp] on the same arrays, config (hence seed)
    and vocabulary hand back the same model, with the same four parameter
    arrays, and the same reported loss, or raise the same exception,
    whatever the clock and the uninitialised buffers of each run held: every
    random draw comes from the generator seeded with [cfg.seed]. *)
Theorem train_deterministic (env1 env2 : Env F) (x_train : mat F) (y_train : mat Z)
    (x_val : mat F) (y_val : mat Z) (cfg : TrainConfig F) (vocab : list string) :
  outcome (_train_mlp env1 x_train y_train x_val y_val cfg vocab)
  = outcome (_train_mlp env2 x_train y_train x_val y_val cfg vocab).
Proof.
  apply rel_result_eq. unfold outcome, _train_mlp. case_decide; [done|].
  eapply (rel_bind (λ a b, a.1 = b.1)); [|by intros a b Hab].
  eapply rel_bind; [apply rel_result_refl|]. intros batches ? <-.
  eapply (rel_bind same_training).
  { apply rel_for_each; [|done]. intros s s' epoch _. apply epoch_step_same. }
  intros s1 s2 (Hp & Hr & Hb & Hs). simpl. unfold finish.
  by rewrite Hp, Hb, Hs.
Qed.

End DeterminismFacts.

(** ** Shapes and entries of the results of array operations *)

Lemma mat_is_ext {A} (m : mat A) n c f g :
  mat_is m n c f → (∀ i j, i < n → j < c → f i j = g i j) → mat_is m n c g.
Proof.
  intros (Hn & Hc & Hat) Hfg. split_and!; [done..|].
  intros i j Hi Hj. by rewrite Hat, Hfg.
Qed.

Lemma mat_is_self {A} (m : mat A) : mat_is m (nrows m) (ncols m) (mat_at m).
Proof. by split_and!. Qed.

Lemma mat_is_row {A} (m : mat A) n c f i :
  mat_is m n c f → i < n → mat_row m i = f i <$> seq 0 c.
Proof.
  intros (Hn & Hc & Hat) Hi. unfold mat_row. rewrite Hc.
  apply list_fmap_ext. intros k j Hj. apply lookup_seq in Hj as [-> Hj].
  by apply Hat.
Qed.

Lemma mat_is_col {A} (m : mat A) n c f j :
  mat_is m n c f → j < c → mat_col m j = (λ i, f i j) <$> seq 0 n.
Proof.
  intros (Hn & Hc & Hat) Hj. unfold mat_col. rewrite Hn.
  apply list_fmap_ext. intros k i Hi. apply lookup_seq in Hi as [-> Hi].
  by apply Hat.
Qed.

Lemma tabulate_is {A} `{Inhabited A} n c (f : nat → nat → A) :
  mat_is (tabulate n c f) n c f.
Proof. split_and!; [done..|]. intros. by apply tabulate_at. Qed.

Lemma ten_tabulate_is {A} `{Inhabited A} a b c (f : nat → nat → nat → A) :
  ten_is (ten_tabulate a b c f) a b c f.
Proof. split_and!; [done..|]. intros. by apply ten_tabulate_at. Qed.

Lemma ten_is_self {A} (t : ten A) : ten_is t (tdim0 t) (tdim1 t) (tdim2 t) (ten_at t).
Proof. by split_and!. Qed.

Lemma mat_T_is {A} (m : mat A) n c f :
  mat_is m n c f → mat_is (mat_T m) c n (λ i j, f j i).
Proof.
  intros (Hn & Hc & Hat). split_and!; [done..|]. intros i j Hi Hj. by apply Hat.
Qed.

Lemma mat_map_is {A B} `{Inhabited B} (g : A → B) (m : mat A) n c f :
  mat_is m n c f → mat_is (mat_map g m) n c (λ i j, g (f i j)).
Proof.
  intros (Hn & Hc & Hat). split_and!; [done..|]. intros i j Hi Hj.
  rewrite mat_map_at by lia. by rewrite Hat.
Qed.

Lemma ten_map_is {A B} `{Inhabited B} (g : A → B) (t : ten A) a b c f :
  ten_is t a b c f → ten_is (ten_map g t) a b c (λ p i j, g (f p i j)).
Proof.
  intros (Ha & Hb & Hc & Hat). split_and!; [done..|]. intros p i j Hp Hi Hj.
  rewrite ten_map_at by lia. by rewrite Hat.
Qed.

Lemma ten_slice_is {A} (t : ten A) a b c f p :
  ten_is t a b c f → p < a → ∃ m, ten_slice t p = Ok m ∧ mat_is m b c (f p).
Proof.
  intros (Ha & Hb & Hc & Hat) Hp. unfold ten_slice.
  rewrite decide_True by lia. eexists. split; [done|].
  split_and!; [done..|]. intros i j Hi Hj. by apply Hat.
Qed.

Lemma mat_slice_is {A} (m : mat A) n c f p :
  mat_is m n c f → p < n → mat_slice m p = Ok (f p <$> seq 0 c).
Proof.
  intros Hm Hp. unfold mat_slice. rewrite decide_True by (destruct Hm; lia).
  by rewrite (mat_is_row m n c f).
Qed.

Section ArrayFacts.
Context {F : Type} `{FloatOps F}.

Lemma matmul_is (a b : mat F) n k c fa fb :
  mat_is a n k fa → mat_is b k c fb →
  ∃ m, matmul a b = Ok m
       ∧ mat_is m n c (λ i j, np_dot (fa i <$> seq 0 k) ((λ l, fb l j) <$> seq 0 k)).
Proof.
  intros Ha Hb. unfold matmul.
  rewrite decide_True by (destruct Ha as (_ & -> & _), Hb as (-> & _); done).
  eexists. split; [done|].
  destruct Ha as (Han & Hak & Haat), Hb as (Hbk & Hbc & Hbat).
  rewrite Han, Hbc. eapply mat_is_ext; [apply tabulate_is|].
  intros i j Hi Hj. simpl.
  rewrite (mat_is_row a n k fa), (mat_is_col b k c fb); by repeat split.
Qed.

Lemma add_row_is (m : mat F) (b : list F) n c f :
  mat_is m n c f → length b = c →
  ∃ r, add_row m b = Ok r ∧ mat_is r n c (λ i j, f_add (f i j) (nth j b f_zero)).
Proof.
  intros (Hn & Hc & Hat) Hb. unfold add_row, broadcast_dim.
  rewrite decide_True by lia. cbn [rbind]. eexists. split; [done|].
  rewrite Hn, Hc. eapply mat_is_ext; [apply tabulate_is|].
  intros i j Hi Hj. simpl. rewrite Hb, !bidx_lt by done. by rewrite Hat.
Qed.

Lemma softmax_is (l : mat F) n c f :
  mat_is l n c f → 0 < c →
  ∃ r, _softmax l = Ok r
       ∧ mat_is r n c (λ i j, nth j (softmax_row (f i <$> seq 0 c)) f_zero).
Proof.
  intros Hl Hc. pose proof Hl as (Hn & Hcl & Hat). subst n c. unfold _softmax.
  rewrite decide_False by lia. eexists. split; [done|].
  cbv zeta. change (nrows (mat_map _ _)) with (nrows l).
  change (ncols (mat_map _ _)) with (ncols l).
  eapply mat_is_ext; [apply tabulate_is|]. intros i j Hi Hj.
  cbv beta.
  set (z := tabulate (nrows l) (ncols l) _).
  assert (mat_row (mat_map f_exp z) i
          = (λ v, f_exp (f_sub v (np_max (f i <$> seq 0 (ncols l)))))
              <$> (f i <$> seq 0 (ncols l))) as Hexp.
  { rewrite mat_map_row by done. unfold z.
    rewrite tabulate_row by lia. rewrite (mat_is_row l _ _ f i Hl) by done.
    rewrite <- !list_fmap_compose. apply list_fmap_ext.
    intros k v Hv. apply lookup_seq in Hv as [-> Hv]. simpl. by rewrite Hat. }
  unfold softmax_row. rewrite <- Hexp.
  rewrite <- (nth_mat_row (mat_map f_exp z) i j f_zero) by done.
  set (row := mat_row (mat_map f_exp z) i).
  assert (j < length row) as Hlen by (unfold row; by rewrite mat_row_length).
  destruct (lookup_lt_is_Some_2 row j Hlen) as [e He].
  rewrite (nth_lookup_Some row j f_zero e He).
  symmetry. apply nth_lookup_Some. by rewrite list_lookup_fmap, He.
Qed.

Lemma mat_inplace_is (op : F → F → F) (a b : mat F) n c fa fb :
  mat_is a n c fa → mat_is b n c fb →
  ∃ r, mat_inplace op a b = Ok r ∧ mat_is r n c (λ i j, op (fa i j) (fb i j)).
Proof.
  intros (Han & Hac & Haat) (Hbn & Hbc & Hbat). unfold mat_inplace, fits.
  rewrite decide_True by (split; left; lia). eexists. split; [done|].
  rewrite Han, Hac. eapply mat_is_ext; [apply tabulate_is|].
  intros i j Hi Hj. simpl. rewrite !bidx_lt by lia. by rewrite Haat, Hbat.
Qed.

Lemma ten_inplace_is (op : F → F → F) (a b : ten F) d0 d1 d2 fa fb :
  ten_is a d0 d1 d2 fa → ten_is b d0 d1 d2 fb →
  ∃ r, ten_inplace op a b = Ok r
       ∧ ten_is r d0 d1 d2 (λ p i j, op (fa p i j) (fb p i j)).
Proof.
  intros (Ha0 & Ha1 & Ha2 & Haat) (Hb0 & Hb1 & Hb2 & Hbat).
  unfold ten_inplace, fits.
  rewrite decide_True by (split_and!; left; lia). eexists. split; [done|].
  rewrite Ha0, Ha1, Ha2. destruct (ten_tabulate_is d0 d1 d2
    (λ p i j, op (ten_at a p i j)
                 (ten_at b (bidx (tdim0 b) p) (bidx (tdim1 b) i) (bidx (tdim2 b) j))))
    as (? & ? & ? & Hat).
  split_and!; [done..|]. intros p i j Hp Hi Hj.
  rewrite Hat by done. rewrite !bidx_lt by lia. by rewrite Haat, Hbat.
Qed.

Lemma vec_inplace_is (op : F → F → F) (a b : list F) :
  length b = length a →
  ∃ r, vec_inplace op a b = Ok r ∧ length r = length a
       ∧ ∀ k, k < length a → nth k r f_zero = op (nth k a f_zero) (nth k b f_zero).
Proof.
  intros Hlen. unfold vec_inplace, fits. rewrite decide_True by (by left).
  eexists. split; [done|]. split; [by rewrite length_imap|].
  intros k Hk. destruct (lookup_lt_is_Some_2 a k Hk) as [v Hv].
  rewrite (nth_lookup_Some a k f_zero v Hv). apply nth_lookup_Some.
  rewrite list_lookup_imap, Hv. simpl. by rewrite bidx_lt by lia.
Qed.

Lemma ten_set_is (t : ten F) d0 d1 d2 f pos (g : mat F) fg :
  ten_is t d0 d1 d2 f → pos < d0 → mat_is g d1 d2 fg →
  ∃ r, ten_set t pos g = Ok r
       ∧ ten_is r d0 d1 d2 (λ p i j, if decide (p = pos) then fg i j else f p i j).
Proof.
  intros (H0 & H1' & H2 & Hat) Hpos (Hgn & Hgc & Hgat). unfold ten_set, fits.
  rewrite decide_True by lia. rewrite decide_True by (split; left; lia).
  eexists. split; [done|]. rewrite H0, H1', H2.
  destruct (ten_tabulate_is d0 d1 d2
    (λ p i j, if decide (p = pos)
              then mat_at g (bidx (nrows g) i) (bidx (ncols g) j)
              else ten_at t p i j)) as (? & ? & ? & Htab).
  split_and!; [done..|]. intros p i j Hp Hi Hj. rewrite Htab by done.
  case_decide; [|by apply Hat]. rewrite !bidx_lt by lia. by apply Hgat.
Qed.

Lemma mat_set_row_is (m : mat F) n c f pos (v : list F) :
  mat_is m n c f → pos < n → length v = c →
  ∃ r, mat_set_row m pos v = Ok r
       ∧ mat_is r n c (λ i j, if decide (i = pos) then nth j v f_zero else f i j).
Proof.
  intros (Hn & Hc & Hat) Hpos Hv. unfold mat_set_row, fits.
  rewrite decide_True by lia. rewrite decide_True by (left; lia).
  eexists. split; [done|]. rewrite Hn, Hc.
  eapply mat_is_ext; [apply tabulate_is|]. intros i j Hi Hj. simpl.
  case_decide; [|by apply Hat]. by rewrite bidx_lt by lia.
Qed.

End ArrayFacts.

(** ** The training step *)

Lemma for_each_invariant {S} (Inv : nat → S → Prop) (body : S → nat → result S)
    a len s :
  Inv a s →
  (∀ p s, a ≤ p < a + len → Inv p s → ∃ s', body s p = Ok s' ∧ Inv (Datatypes.S p) s') →
  ∃ s', for_each body s (seq a len) = Ok s' ∧ Inv (a + len) s'.
Proof.
  revert a s. induction len as [|len IH]; intros a s Hs Hbody; simpl.
  - exists s. by rewrite Nat.add_0_r.
  - destruct (Hbody a s) as (s1 & -> & Hs1); [lia|done|]. simpl.
    destruct (IH (Datatypes.S a) s1) as (s' & -> & Hs'); [done| |].
    + intros p s2 Hp. apply Hbody. lia.
    + exists s'. split; [done|]. by rewrite Nat.add_succ_r.
Qed.

Section GradientFacts.
Context {F : Type} `{FloatOps F}.
Variables (ps : params F) (xb : mat F) (yb : mat Z) (seq_len : nat).
Hypothesis sub_zero : ∀ x : F, f_sub x f_zero = x.
Hypothesis shapes : step_shapes ps xb yb seq_len.

Lemma fancy_targets (probs : mat F) p :
  nrows probs = nrows xb → ncols probs = tdim1 (p_w2 ps) → p < seq_len →
  fancy probs (mat_col yb p) = Ok (target ps yb p <$> seq 0 (nrows xb)).
Proof.
  intros Hn Hc Hp.
  destruct shapes as (_ & _ & _ & _ & _ & _ & _ & _ & Hyn & Hyc & Hvalid).
  unfold fancy. apply collect_Ok. apply Forall2_same_length_lookup_2.
  { unfold enumerate, mat_col. by rewrite length_imap, !length_fmap, !length_seq. }
  intros i [i' t] j Hx Hy. unfold enumerate in Hx.
  rewrite list_lookup_imap in Hx. unfold mat_col in Hx.
  rewrite list_lookup_fmap in Hx.
  destruct (seq 0 (nrows yb) !! i) as [i0|] eqn:Hi; [|done].
  apply lookup_seq in Hi as [-> Hi]. simpl in Hx. injection Hx as <- <-.
  rewrite list_lookup_fmap, lookup_seq_lt in Hy by lia. simpl in Hy.
  injection Hy as <-. simpl. rewrite decide_True by lia.
  specialize (Hvalid i p ltac:(lia) Hp). unfold np_index, target. rewrite Hc.
  repeat case_decide; try lia; done.
Qed.

Lemma forward_hidden :
  ∃ xw z1, matmul xb (mat_T (p_w1 ps)) = Ok xw
           ∧ add_row xw (p_b1 ps) = Ok z1
           ∧ mat_is z1 (nrows xb) (nrows (p_w1 ps)) (pre_act ps xb)
           ∧ mat_is (_relu z1) (nrows xb) (nrows (p_w1 ps)) (hidden_act ps xb).
Proof.
  destruct shapes as (Hxc & Hb1 & _).
  destruct (matmul_is xb (mat_T (p_w1 ps)) (nrows xb) (ncols (p_w1 ps))
              (nrows (p_w1 ps)) (mat_at xb) (λ i j, mat_at (p_w1 ps) j i))
    as (xw & Exw & Hxw).
  { rewrite <- Hxc. apply mat_is_self. }
  { apply mat_T_is, mat_is_self. }
  destruct (add_row_is xw (p_b1 ps) _ _ _ Hxw Hb1) as (z1 & Ez1 & Hz1).
  assert (mat_is z1 (nrows xb) (nrows (p_w1 ps)) (pre_act ps xb)) as Hpre.
  { eapply mat_is_ext; [apply Hz1|]. intros i k Hi Hk. simpl.
    unfold pre_act, mat_row. by rewrite Hxc. }
  exists xw, z1. split_and!; [done..|].
  unfold _relu. eapply mat_is_ext; [apply mat_map_is, Hpre|]. done.
Qed.

Lemma grad_pos_step (h : mat F) p (dW2 : ten F) (db2 dh : mat F) (loss : F) :
  mat_is h (nrows xb) (nrows (p_w1 ps)) (hidden_act ps xb) →
  p < seq_len →
  ten_is dW2 seq_len (tdim1 (p_w2 ps)) (nrows (p_w1 ps))
    (λ q v k, if decide (q < p) then grad_W2 ps xb yb q v k else f_zero) →
  mat_is db2 seq_len (tdim1 (p_w2 ps))
    (λ q v, if decide (q < p) then grad_b2 ps xb yb q v else f_zero) →
  mat_is dh (nrows xb) (nrows (p_w1 ps)) (λ i k, grad_h_sum ps xb yb i k p) →
  ∃ dW2' db2' dh' loss',
    grad_pos yb h (p_w2 ps) (p_b2 ps) (dW2, db2, dh, loss) p
    = Ok (dW2', db2', dh', loss')
    ∧ ten_is dW2' seq_len (tdim1 (p_w2 ps)) (nrows (p_w1 ps))
        (λ q v k, if decide (q < S p) then grad_W2 ps xb yb q v k else f_zero)
    ∧ mat_is db2' seq_len (tdim1 (p_w2 ps))
        (λ q v, if decide (q < S p) then grad_b2 ps xb yb q v else f_zero)
    ∧ mat_is dh' (nrows xb) (nrows (p_w1 ps)) (λ i k, grad_h_sum ps xb yb i k (S p)).
Proof.
  intros Hh Hp HdW2 Hdb2 Hdh.
  destruct shapes as (Hxc & Hb1 & Hw0 & Hw2 & Hb2r & Hb2c & HV & HL & Hyn & Hyc
                      & Hvalid).
  unfold grad_pos.
  (* logits *)
  destruct (ten_slice_is (p_w2 ps) _ _ _ _ p (ten_is_self _)) as (w2p & -> & Hw2p);
    [lia|]. cbn [rbind]. rewrite Hw2 in Hw2p.
  destruct (matmul_is h (mat_T w2p) _ _ _ _ _ Hh (mat_T_is _ _ _ _ Hw2p))
    as (hw & -> & Hhw). cbn [rbind].
  rewrite (mat_slice_is (p_b2 ps) _ _ _ p (mat_is_self _)) by lia. cbn [rbind].
  destruct (add_row_is hw (mat_at (p_b2 ps) p <$> seq 0 (ncols (p_b2 ps))) _ _ _ Hhw)
    as (logits & -> & Hlogits).
  { by rewrite length_fmap, length_seq. }
  cbn [rbind].
  assert (mat_is logits (nrows xb) (tdim1 (p_w2 ps)) (logit ps xb p)) as Hlog.
  { eapply mat_is_ext; [apply Hlogits|]. intros i v Hi Hv. simpl.
    unfold logit, hidden_vec. rewrite Hw2.
    by rewrite nth_fmap_seq by lia. }
  (* probabilities *)
  destruct (softmax_is logits _ _ _ Hlog HV) as (probs & -> & Hprobs).
  cbn [rbind]. fold (prob ps xb p) in Hprobs.
  assert (mat_is probs (nrows xb) (tdim1 (p_w2 ps)) (prob ps xb p)) as Hpr
    by exact Hprobs.
  (* targets *)
  unfold column. rewrite decide_True by lia. cbn [rbind].
  pose proof (fancy_targets probs p (proj1 Hpr) (proj1 (proj2 Hpr)) Hp) as Hfancy.
  unfold pick, sub_one_at. rewrite Hfancy. cbn [rbind].
  set (js := target ps yb p <$> seq 0 (nrows xb)).
  set (dl := mat_map _ (tabulate _ _ _)).
  assert (mat_is dl (nrows xb) (tdim1 (p_w2 ps)) (dlogit ps xb yb p)) as Hdl.
  { unfold dl.
    eapply mat_is_ext.
    { apply mat_map_is. destruct Hpr as (<- & <- & _). apply tabulate_is. }
    intros i v Hi Hv. simpl. unfold dlogit, one_hot, mat_col.
    rewrite length_fmap, length_seq, Hyn.
    rewrite (proj2 (proj2 Hpr) i v Hi Hv).
    unfold js. rewrite list_lookup_fmap, lookup_seq_lt by done. simpl.
    destruct (decide (v = target ps yb p i)) as [->|Hne].
    - by rewrite decide_True.
    - rewrite decide_False by congruence. by rewrite sub_zero. }
  (* head gradients *)
  destruct (matmul_is (mat_T dl) h _ _ _ _ _ (mat_T_is _ _ _ _ Hdl) Hh)
    as (g & -> & Hg). cbn [rbind].
  destruct (ten_set_is dW2 _ _ _ _ p g _ HdW2 Hp Hg) as (dW2' & -> & HdW2').
  cbn [rbind].
  destruct (mat_set_row_is db2 _ _ _ p (col_sums dl) Hdb2 Hp) as (db2' & -> & Hdb2').
  { unfold col_sums. rewrite length_fmap, length_seq. by destruct Hdl as (_ & -> & _). }
  cbn [rbind].
  (* hidden gradient *)
  destruct (matmul_is dl w2p _ _ _ _ _ Hdl Hw2p) as (dw & -> & Hdw). cbn [rbind].
  destruct (mat_inplace_is f_add dh dw _ _ _ _ Hdh Hdw) as (dh' & -> & Hdh').
  cbn [rbind].
  eexists _, _, _, _. split; [done|]. split_and!.
  - destruct HdW2' as (? & ? & ? & Hat). split_and!; [done..|].
    intros q v k Hq Hv Hk. rewrite Hat by done.
    destruct (decide (q = p)) as [->|Hne].
    + by rewrite decide_True by lia.
    + destruct (decide (q < p)).
      * by rewrite decide_True by lia.
      * by rewrite decide_False by lia.
  - eapply mat_is_ext; [apply Hdb2'|]. intros q v Hq Hv. simpl.
    destruct (decide (q = p)) as [->|Hne].
    + rewrite decide_True by lia. unfold col_sums.
      replace (ncols dl) with (tdim1 (p_w2 ps)) by (by destruct Hdl as (_ & -> & _)).
      rewrite nth_fmap_seq by done. unfold grad_b2.
      by rewrite (mat_is_col dl _ _ _ v Hdl).
    + destruct (decide (q < p)).
      * by rewrite decide_True by lia.
      * by rewrite decide_False by lia.
  - eapply mat_is_ext; [apply Hdh'|]. intros i k Hi Hk. simpl.
    unfold grad_h_sum. by rewrite seq_S, foldl_app.
Qed.

End GradientFacts.

Section GradientTheorem.
Context {F : Type} `{FloatOps F}.

(** C4.  On a minibatch whose shapes fit the parameters, the training
    step returns, and every entry of the new parameters is the old entry
    minus [float32(lr * grad)], where the gradients are: for the heads,
    [dW2[p] = dlogitsᵗ @ h] and [db2[p]] the column sums of [dlogits], with
    [dlogits = (softmax(logits) - one_hot(target)) / batch_size]; for the
    hidden layer, [dW1 = dhᵗ @ xb] and [db1] the column sums of [dh], with
    [dh] the sum over the positions of [dlogits @ W2[p]], zeroed where the
    pre-activation is [<= 0].  Nothing else enters the update. *)
Theorem train_step_gradients (cfg : TrainConfig F) (xb : mat F) (yb : mat Z)
    (seq_len : nat) (ps : params F) (epoch_loss : F) :
  (∀ x : F, f_sub x f_zero = x) →
  step_shapes ps xb yb seq_len →
  let lr := learning_rate cfg in
  ∃ ps' epoch_loss',
    train_step cfg xb yb seq_len (ps, epoch_loss) = Ok (ps', epoch_loss')
    ∧ mat_is (p_w1 ps') (nrows (p_w1 ps)) (ncols (p_w1 ps))
        (λ k j, sgd lr (mat_at (p_w1 ps) k j) (grad_W1 ps xb yb k j))
    ∧ length (p_b1 ps') = length (p_b1 ps)
    ∧ (∀ k, k < length (p_b1 ps) →
         nth k (p_b1 ps') f_zero
         = sgd lr (nth k (p_b1 ps) f_zero) (grad_b1 ps xb yb k))
    ∧ ten_is (p_w2 ps') (tdim0 (p_w2 ps)) (tdim1 (p_w2 ps)) (tdim2 (p_w2 ps))
        (λ p v k, sgd lr (ten_at (p_w2 ps) p v k) (grad_W2 ps xb yb p v k))
    ∧ mat_is (p_b2 ps') (nrows (p_b2 ps)) (ncols (p_b2 ps))
        (λ p v, sgd lr (mat_at (p_b2 ps) p v) (grad_b2 ps xb yb p v)).
Proof.
  intros sub_zero shapes lr.
  pose proof shapes as (Hxc & Hb1 & Hw0 & Hw2 & Hb2r & Hb2c & HV & HL & Hyn & Hyc
                        & Hvalid).
  destruct (forward_hidden ps xb yb seq_len shapes)
    as (xw & z1 & Exw & Ez1 & Hz1 & Hh).
  unfold train_step. rewrite Exw. cbn [rbind]. rewrite Ez1. cbn [rbind].
  (* the loop over the positions *)
  destruct (for_each_invariant
    (λ p (st : ten F * mat F * mat F * F),
       ten_is st.1.1.1 seq_len (tdim1 (p_w2 ps)) (nrows (p_w1 ps))
         (λ q v k, if decide (q < p) then grad_W2 ps xb yb q v k else f_zero)
       ∧ mat_is st.1.1.2 seq_len (tdim1 (p_w2 ps))
           (λ q v, if decide (q < p) then grad_b2 ps xb yb q v else f_zero)
       ∧ mat_is st.1.2 (nrows xb) (nrows (p_w1 ps))
           (λ i k, grad_h_sum ps xb yb i k p))
    (grad_pos yb (_relu z1) (p_w2 ps) (p_b2 ps)) 0 seq_len
    (ten_map (λ _, f_zero) (p_w2 ps), mat_map (λ _, f_zero) (p_b2 ps),
     mat_map (λ _, f_zero) (_relu z1), f_zero))
    as ([[[dW2 db2] dh] loss] & -> & HdW2 & Hdb2 & Hdh).
  { cbn [fst snd]. split_and!.
    - rewrite <- Hw0, <- Hw2.
      eapply (ten_map_is (λ _, f_zero)), ten_is_self.
    - rewrite <- Hb2r, <- Hb2c. eapply (mat_map_is (λ _, f_zero)), mat_is_self.
    - eapply (mat_map_is (λ _, f_zero)), Hh. }
  { intros p [[[dW2 db2] dh] loss] Hp (HdW2 & Hdb2 & Hdh). cbn [fst snd] in *.
    destruct (grad_pos_step ps xb yb seq_len sub_zero shapes (_relu z1) p
                dW2 db2 dh loss Hh ltac:(lia) HdW2 Hdb2 Hdh)
      as (dW2' & db2' & dh' & loss' & -> & ? & ? & ?).
    by eexists. }
  cbn [fst snd rbind] in *. rewrite Nat.add_0_l in HdW2, Hdb2, Hdh.
  unfold py_div_nat. rewrite decide_False by lia. cbn [rbind].
  (* the masked hidden gradient and the gradients of the hidden layer *)
  assert (mat_is (relu_mask z1 dh) (nrows xb) (nrows (p_w1 ps)) (grad_h ps xb yb))
    as Hmask.
  { unfold relu_mask. destruct Hdh as (Hdn & Hdc & Hdat). rewrite Hdn, Hdc.
    eapply mat_is_ext; [apply tabulate_is|]. intros i k Hi Hk. simpl.
    unfold grad_h. rewrite (proj2 (proj2 Hz1) i k Hi Hk), Hdat, Hw0 by done.
    done. }
  destruct (matmul_is (mat_T (relu_mask z1 dh)) xb _ _ _ _ _
              (mat_T_is _ _ _ _ Hmask) (mat_is_self xb)) as (dW1 & -> & HdW1).
  cbn [rbind].
  (* the updates *)
  pose proof (mat_map_is (scaled lr) dW1 _ _ _ HdW1) as HsW1. rewrite Hxc in HsW1.
  destruct (mat_inplace_is f_sub _ _ _ _ _ _ (mat_is_self (p_w1 ps)) HsW1)
    as (w1' & Ew1 & Hw1').
  fold lr. rewrite Ew1. cbn [rbind].
  destruct (vec_inplace_is f_sub (p_b1 ps) (scaled lr <$> col_sums (relu_mask z1 dh)))
    as (b1' & -> & Hb1len & Hb1'). 
  { unfold col_sums. rewrite !length_fmap, length_seq.
    destruct Hmask as (_ & -> & _). done. }
  cbn [rbind].
  pose proof (ten_map_is (scaled lr) dW2 _ _ _ _ HdW2) as HsW2.
  rewrite <- Hw0, <- Hw2 in HsW2.
  destruct (ten_inplace_is f_sub _ _ _ _ _ _ _ (ten_is_self (p_w2 ps)) HsW2)
    as (w2' & -> & Hw2').
  cbn [rbind].
  pose proof (mat_map_is (scaled lr) db2 _ _ _ Hdb2) as Hsb2.
  rewrite <- Hb2r, <- Hb2c in Hsb2.
  destruct (mat_inplace_is f_sub _ _ _ _ _ _ (mat_is_self (p_b2 ps)) Hsb2)
    as (b2' & -> & Hb2').
  cbn [rbind].
  eexists _, _. split; [done|]. cbn [p_w1 p_b1 p_w2 p_b2]. split_and!.
  - eapply mat_is_ext; [apply Hw1'|]. done.
  - done.
  - intros k Hk. rewrite Hb1' by done. unfold sgd. f_equal.
    assert (k < ncols (relu_mask z1 dh)) as Hkc
      by (destruct Hmask as (_ & -> & _); lia).
    unfold col_sums.
    rewrite (nth_lookup_Some _ k f_zero
               (scaled lr (np_sum (mat_col (relu_mask z1 dh) k)))).
    + unfold scaled, grad_b1. do 2 f_equal.
      rewrite (mat_is_col _ _ _ _ k Hmask) by lia. done.
    + rewrite !list_lookup_fmap, lookup_seq_lt by done. done.
  - destruct Hw2' as (? & ? & ? & Hat). split_and!; [done..|].
    intros p v k Hp Hv Hk. rewrite Hat by done.
    by rewrite decide_True by lia.
  - eapply mat_is_ext; [apply Hb2'|]. intros p v Hp Hv. simpl.
    by rewrite decide_True by lia.
Qed.

End GradientTheorem.

(** One step on the four-image data set from the hand-made parameters. *)
Lemma train_step_gradients_witness :
  ∃ ps' epoch_loss',
    train_step Fixed.cfg4 Fixed.x4 Fixed.y4 2 (Fixed.params3, 0%Z)
    = Ok (ps', epoch_loss')
    ∧ mat_at (p_w1 ps') 0 0
      = sgd (learning_rate Fixed.cfg4) (mat_at (p_w1 Fixed.params3) 0 0)
            (grad_W1 Fixed.params3 Fixed.x4 Fixed.y4 0 0)
    ∧ mat_at (p_w1 ps') 0 0 = 1047143000%Z.
Proof.
  destruct (train_step_gradients Fixed.cfg4 Fixed.x4 Fixed.y4 2 Fixed.params3 0%Z)
    as (ps' & loss' & Hstep & (_ & _ & Hw1) & _).
  - intros x. apply Z.sub_0_r.
  - unfold step_shapes. split_and!; try reflexivity; try (simpl; lia).
    intros i p Hi Hp. simpl in Hi.
    destruct i as [|[|[|[|i]]]]; [| | | |lia];
      (destruct p as [|[|p]]; [| |lia]); vm_compute; (split; [discriminate|reflexivity]).
  - exists ps', loss'. split; [exact Hstep|].
    pose proof (Hw1 0 0 ltac:(simpl; lia) ltac:(simpl; lia)) as Hw.
    split; [exact Hw|]. rewrite Hw. vm_compute. reflexivity.
Defined.

(** ** Strings *)

Lemma isspace_lower_char c : isspace (lower_char c) = isspace c.
Proof. by destruct c as [[] [] [] [] [] [] [] []]. Qed.

Lemma lower_char_idemp c : lower_char (lower_char c) = lower_char c.
Proof. by destruct c as [[] [] [] [] [] [] [] []]. Qed.

Lemma lower_idemp s : lower (lower s) = lower s.
Proof. induction s as [|c s IH]; simpl; [done|]. by rewrite lower_char_idemp, IH. Qed.

Lemma lower_empty s : lower s = "" ↔ s = "".
Proof. by destruct s. Qed.

Lemma lstrip_lower s : lstrip (lower s) = lower (lstrip s).
Proof.
  induction s as [|c s IH]; simpl; [done|]. rewrite isspace_lower_char.
  by destruct (isspace c).
Qed.

Lemma rstrip_space_cons c s :
  isspace c = false → rstrip_space (String c s) = String c (rstrip_space s).
Proof. intros Hc. simpl. rewrite Hc. by destruct (rstrip_space s). Qed.

Lemma rstrip_space_lower s : rstrip_space (lower s) = lower (rstrip_space s).
Proof.
  induction s as [|c s IH]; simpl; [done|]. rewrite IH, isspace_lower_char.
  destruct (rstrip_space s); simpl; [|done]. by destruct (isspace c).
Qed.

Lemma strip_lower s : strip (lower s) = lower (strip s).
Proof. unfold strip. by rewrite lstrip_lower, rstrip_space_lower. Qed.

Lemma lstrip_head s : lstrip s = "" ∨ ∃ c r, lstrip s = String c r ∧ isspace c = false.
Proof.
  induction s as [|c s IH]; simpl; [by left|].
  destruct (isspace c) eqn:Hc; [done|]. right. by exists c, s.
Qed.

Lemma rstrip_space_idemp s : rstrip_space (rstrip_space s) = rstrip_space s.
Proof.
  induction s as [|c s IH]; simpl; [done|].
  destruct (rstrip_space s) as [|d kept] eqn:Hs.
  - destruct (isspace c) eqn:Hc; simpl; [done|]. by rewrite Hc.
  - change (rstrip_space (String c (String d kept)))
      with (match rstrip_space (String d kept) with
            | "" => if isspace c then "" else String c ""
            | kept' => String c kept'
            end).
    by rewrite IH.
Qed.

Lemma lstrip_rstrip_space s :
  lstrip (rstrip_space (lstrip s)) = rstrip_space (lstrip s).
Proof.
  destruct (lstrip_head s) as [->|(c & r & -> & Hc)]; [done|].
  rewrite rstrip_space_cons by done. simpl. by rewrite Hc.
Qed.

Lemma strip_idemp s : strip (strip s) = strip s.
Proof. unfold strip. by rewrite lstrip_rstrip_space, rstrip_space_idemp. Qed.

(** ** Environment variables *)

Lemma require_env_strip (environ : gmap string string) name v :
  _require_env environ name = Ok v → v ≠ "" ∧ strip v = v.
Proof.
  unfold _require_env. case_decide as Hv; [done|]. intros [= <-].
  split; [done|apply strip_idemp].
Qed.

(** X1.  [_require_env] never hands back an empty value or one with
    whitespace around it: it returns the value of the variable with the
    surrounding whitespace removed, and raises ValueError exactly when the
    variable is not set or holds nothing but whitespace. *)
Theorem require_env_never_blank (environ : gmap string string) (name : string) :
  match _require_env environ name with
  | Ok v =>
      v ≠ "" ∧ strip v = v ∧ ∃ raw, environ !! name = Some raw ∧ v = strip raw
  | Raise e =>
      e = ValueError
      ∧ (environ !! name = None
         ∨ ∃ raw, environ !! name = Some raw ∧ strip raw = "")
  end.
Proof.
  unfold _require_env, str_or.
  destruct (environ !! name) as [raw|] eqn:Hraw; [|split; [done|by left]].
  destruct (decide (raw = "")) as [->|Hne].
  { split; [done|]. right. by exists "". }
  case_decide as Hv.
  - split; [done|]. right. by exists raw.
  - split_and!; [done|apply strip_idemp|by exists raw].
Qed.

(** ** Split names *)

Lemma lower_strip_fixed s : lower (strip (lower (strip s))) = lower (strip s).
Proof. by rewrite strip_lower, strip_idemp, lower_idemp. Qed.

Lemma normalize_split_cases (split : string) :
  let v := lower (strip split) in
  _normalize_split split ∈ ["validation"; "evaluate"; "train"; "test"]
  ∨ (_normalize_split split = v ∧ v ≠ ""
     ∧ v ∉ ["val"; "valid"; "validation"; "eval"; "evalute"; "evaluate"]).
Proof.
  cbv zeta. unfold _normalize_split. set (v := lower (strip split)).
  destruct (decide (v ∈ ["val"; "valid"; "validation"])) as [|Hval].
  { left. compute_done. }
  destruct (decide (v ∈ ["eval"; "evalute"; "evaluate"])) as [|Heval].
  { left. compute_done. }
  destruct (decide (v ∈ ["train"; "test"])) as [Htt|Htt].
  { left. revert Htt. rewrite !elem_of_cons. tauto. }
  destruct (decide (v = "")) as [Hemp|Hemp].
  { left. compute_done. }
  right. split_and!; [done..|]. revert Hval Heval.
  rewrite !elem_of_cons, !elem_of_nil. tauto.
Qed.

Lemma normalize_split_idemp (split : string) :
  _normalize_split split ≠ ""
  ∧ _normalize_split (_normalize_split split) = _normalize_split split.
Proof.
  destruct (normalize_split_cases split) as [Hin|(Heq & Hne & Hnin)].
  - revert Hin. rewrite !elem_of_cons, elem_of_nil.
    intros [->|[->|[->|[->|[]]]]]; (split; [discriminate|reflexivity]).
  - cbv zeta in Heq, Hne, Hnin. rewrite Heq. split; [done|].
    destruct (normalize_split_cases (lower (strip split)))
      as [Hin|(Heq2 & _ & _)].
    + unfold _normalize_split in Hin |- *. rewrite lower_strip_fixed in Hin |- *.
      revert Hnin Hin. rewrite !not_elem_of_cons.
      intros (? & ? & ? & ? & ? & ? & _).
      rewrite decide_False by (rewrite !not_elem_of_cons, elem_of_nil; tauto).
      rewrite decide_False by (rewrite !not_elem_of_cons, elem_of_nil; tauto).
      destruct (decide (lower (strip split) ∈ ["train"; "test"])); [done|].
      by rewrite decide_False.
    + cbv zeta in Heq2. by rewrite Heq2, lower_strip_fixed.
Qed.

(** X2.  The name [_normalize_split] returns is never empty, carries no
    surrounding whitespace and no capital letter, is never one of the
    aliases "val", "valid", "eval", "evalute", and is left as it is by a
    second normalisation. *)
Theorem normalize_split_canonical (split : string) :
  let v := _normalize_split split in
  v ≠ ""
  ∧ strip v = v
  ∧ lower v = v
  ∧ (v ∉ ["val"; "valid"; "eval"; "evalute"])
  ∧ _normalize_split v = v.
Proof.
  cbv zeta. destruct (normalize_split_cases split) as [Hin|(-> & Hne & Hnin)].
  - revert Hin. rewrite !elem_of_cons, elem_of_nil.
    intros [->|[->|[->|[->|[]]]]];
      (split_and!; [discriminate|reflexivity|reflexivity|compute_done|reflexivity]).
  - set (v := lower (strip split)) in *.
    assert (lower (strip v) = v) as Hfix by apply lower_strip_fixed.
    split_and!.
    + done.
    + unfold v. by rewrite <- strip_lower, strip_idemp.
    + apply lower_idemp.
    + revert Hnin. rewrite !not_elem_of_cons. tauto.
    + revert Hnin. rewrite !not_elem_of_cons. intros (? & ? & ? & ? & ? & ? & _).
      unfold _normalize_split. rewrite Hfix.
      rewrite decide_False by (rewrite !not_elem_of_cons, elem_of_nil; tauto).
      rewrite decide_False by (rewrite !not_elem_of_cons, elem_of_nil; tauto).
      destruct (decide (v ∈ ["train"; "test"])); [done|].
      by rewrite decide_False.
Qed.

(** ** Job parameters *)

Lemma bind_Ok {A B} (m : result A) (k : A → result B) b :
  rbind m k = Ok b → ∃ a, m = Ok a ∧ k a = Ok b.
Proof. destruct m as [a|e]; [|done]. intros Hk. by exists a. Qed.

Lemma clamp_int_range value lo hi :
  (lo ≤ hi)%Z → (lo ≤ _clamp_int value lo hi ≤ hi)%Z.
Proof. unfold _clamp_int. lia. Qed.

Section ParameterFacts.
Context {F : Type} `{FloatOps F} `{PyNum F}.

Lemma ltb_asym (order : float_order F) a b : f_ltb a b = true → f_ltb b a = false.
Proof.
  intros Hab. destruct (f_ltb b a) eqn:Hba; [|done].
  pose proof (ltb_trans order _ _ _ Hab Hba) as Haa.
  by rewrite (ltb_irrefl order) in Haa.
Qed.

(** Whatever float comes in, a NaN included, the clamped value is not
    below [lo] and not above [hi]. *)
Lemma clamp_float_range (order : float_order F) value lo hi :
  f_ltb hi lo = false →
  f_ltb (_clamp_float value lo hi) lo = false
  ∧ f_ltb hi (_clamp_float value lo hi) = false.
Proof.
  intros Hlohi. unfold _clamp_float, py_max, py_min. simpl.
  destruct (f_ltb value hi) eqn:Hv.
  - destruct (f_ltb lo value) eqn:Hlo.
    + split; by apply ltb_asym.
    + split; [apply (ltb_irrefl order)|done].
  - destruct (f_ltb lo hi) eqn:Hlo.
    + split; [by apply ltb_asym|apply (ltb_irrefl order)].
    + split; [apply (ltb_irrefl order)|done].
Qed.

(** X3.  Whatever the parameters hold, every integer field of a config
    that [_parse_train_config] returns lies in its range: epochs in
    1..5000, batch size in 4..512, hidden size in 16..2048, image width in
    16..512, image height in 8..256, both sample limits in 10..50000, the
    seed in 0..2^31-1.  So with a parsed config the trainer never divides
    by zero when it computes the number of batches of an epoch and the
    progress of an epoch. *)
Theorem parse_train_config_int_bounds (params : gmap string (pyobj F))
    (cfg : TrainConfig F) :
  _parse_train_config params = Ok cfg →
  (1 ≤ Z.of_nat (epochs cfg) ≤ 5000
   ∧ 4 ≤ Z.of_nat (batch_size cfg) ≤ 512
   ∧ 16 ≤ Z.of_nat (hidden_size cfg) ≤ 2048
   ∧ 16 ≤ Z.of_nat (image_width cfg) ≤ 512
   ∧ 8 ≤ Z.of_nat (image_height cfg) ≤ 256
   ∧ 10 ≤ Z.of_nat (max_train_samples cfg) ≤ 50000
   ∧ 10 ≤ Z.of_nat (max_validation_samples cfg) ≤ 50000
   ∧ 0 ≤ Z.of_nat (seed cfg) ≤ 2 ^ 31 - 1)%Z
  ∧ (∀ n_train, ∃ batches, batches_of n_train (batch_size cfg) = Ok batches)
  ∧ (∀ epoch, ∃ percent,
       py_div_nat (f_of_nat epoch) (epochs cfg) = Ok percent).
Proof.
  unfold _parse_train_config. intros Hparse.
  repeat (apply bind_Ok in Hparse as (? & _ & Hparse)).
  injection Hparse as <-. cbn [epochs batch_size hidden_size image_width
    image_height max_train_samples max_validation_samples seed].
  split; [unfold _clamp_int; split_and!; lia|]. split.
  - intros n_train. unfold batches_of.
    rewrite decide_False by (unfold _clamp_int; lia). by eexists.
  - intros epoch. unfold py_div_nat.
    rewrite decide_False by (unfold _clamp_int; lia). by eexists.
Qed.

(** X4.  The learning rate of a parsed config is never below 0.0001 and
    never above 5.0, and the minimal epoch time never below 0.0 and never
    above 60.0, whatever float the parameters hold, a NaN included. *)
Theorem parse_train_config_float_bounds (params : gmap string (pyobj F))
    (cfg : TrainConfig F) :
  float_order F →
  f_ltb f_5 f_0_0001 = false →
  f_ltb f_60 f_zero = false →
  _parse_train_config params = Ok cfg →
  f_ltb (learning_rate cfg) f_0_0001 = false
  ∧ f_ltb f_5 (learning_rate cfg) = false
  ∧ f_ltb (min_epoch_seconds cfg) f_zero = false
  ∧ f_ltb f_60 (min_epoch_seconds cfg) = false.
Proof.
  intros order Hlr Hsec. unfold _parse_train_config. intros Hparse.
  repeat (apply bind_Ok in Hparse as (? & _ & Hparse)).
  injection Hparse as <-. cbn [learning_rate min_epoch_seconds].
  split_and!; by apply clamp_float_range.
Qed.

Lemma as_int_returns (v : pyobj F) (default : Z) :
  (∀ f, v = PyFloat f → ∃ z, int_of_float f = Ok z) →
  ∃ z, _as_int v default = Ok z.
Proof.
  intros Hf. destruct v as [| | |f|s| |]; simpl; eauto.
  destruct (int_of_str (strip s)); eauto.
Qed.

Lemma as_float_returns (v : pyobj F) (default : F) :
  (∀ z, v = PyInt z → is_Some (float_of_int z)) →
  ∃ f, _as_float v default = Ok f.
Proof.
  intros Hz. destruct v as [| |z| |s| |]; simpl; eauto.
  - destruct (Hz z eq_refl) as [f ->]. eauto.
  - destruct (float_of_str (strip s)); eauto.
Qed.

Lemma dict_get_cases (params : gmap string (pyobj F)) key :
  dict_get params key = PyNone ∨ params !! key = Some (dict_get params key).
Proof. unfold dict_get. destruct (params !! key); auto. Qed.

Lemma as_int_not_numeric (v : pyobj F) (default : Z) :
  not_numeric v → _as_int v default = Ok default.
Proof. by destruct v. Qed.

Lemma as_float_not_numeric (v : pyobj F) (default : F) :
  not_numeric v → _as_float v default = Ok default.
Proof. by destruct v. Qed.

End ParameterFacts.

Section ParameterTheorems.
Context {F : Type} `{FloatOps F} `{PyNum F}.

(** X5.  [_parse_train_config] raises only on a number it cannot
    convert: it returns whenever every float among the parameters has an
    integer value and every integer a float value.  Values of other types
    and strings that do not parse never make it raise. *)
Theorem parse_train_config_returns (params : gmap string (pyobj F)) :
  (∀ key f, params !! key = Some (PyFloat f) → ∃ z, int_of_float f = Ok z) →
  (∀ key z, params !! key = Some (PyInt z) → is_Some (float_of_int z)) →
  ∃ cfg, _parse_train_config params = Ok cfg.
Proof.
  intros Hfloat Hint.
  assert (∀ key default, ∃ z, _as_int (dict_get params key) default = Ok z) as Hi.
  { intros key default. apply as_int_returns. intros f Hv.
    destruct (dict_get_cases params key) as [Hn|Hk]; [congruence|].
    rewrite Hv in Hk. by eapply Hfloat. }
  assert (∀ key default, ∃ f, _as_float (dict_get params key) default = Ok f) as Hf.
  { intros key default. apply as_float_returns. intros z Hv.
    destruct (dict_get_cases params key) as [Hn|Hk]; [congruence|].
    rewrite Hv in Hk. by eapply Hint. }
  unfold _parse_train_config.
  destruct (Hi "train_epochs" 0%Z) as [e ->]. cbn [rbind].
  assert (∃ e', (if decide (e ≤ 0)%Z
                 then _as_int (dict_get params "train_steps") 40 else Ok e)
                = Ok e') as [e' ->].
  { case_decide; [apply Hi|by eexists]. }
  cbn [rbind].
  destruct (Hf "train_min_epoch_seconds" f_minus_1) as [m ->]. cbn [rbind].
  assert (∃ m', (if f_ltb m f_zero
                 then _as_float (dict_get params "min_epoch_seconds") f_0_5
                 else Ok m) = Ok m') as [m' ->].
  { destruct (f_ltb m f_zero); [apply Hf|by eexists]. }
  cbn [rbind].
  destruct (Hi "train_batch_size" 32%Z) as [? ->]. cbn [rbind].
  destruct (Hf "train_lr" f_0_2) as [? ->]. cbn [rbind].
  destruct (Hi "train_hidden_size" 128%Z) as [? ->]. cbn [rbind].
  destruct (Hi "image_width" 96%Z) as [? ->]. cbn [rbind].
  destruct (Hi "image_height" 24%Z) as [? ->]. cbn [rbind].
  destruct (Hi "max_train_samples" 200%Z) as [? ->]. cbn [rbind].
  destruct (Hi "max_validation_samples" 64%Z) as [? ->]. cbn [rbind].
  destruct (Hi "seed" 17%Z) as [? ->]. cbn [rbind].
  by eexists.
Qed.

(** X6.  Parameter values that are neither numbers nor strings ([None],
    booleans, lists, objects) are ignored: the config parsed from them, and
    from no parameters at all, is [TrainConfig()], the defaults of the
    dataclass. *)
Theorem parse_train_config_defaults (params : gmap string (pyobj F)) :
  literal_order F →
  (∀ key v, params !! key = Some v → not_numeric v) →
  _parse_train_config params = Ok default_config.
Proof.
  intros lit Hnot.
  assert (∀ key, not_numeric (dict_get params key)) as Hget.
  { intros key. unfold dict_get. destruct (params !! key) as [v|] eqn:Hk; [|done].
    by eapply Hnot. }
  unfold _parse_train_config.
  repeat (first [ rewrite as_int_not_numeric by apply Hget
                | rewrite as_float_not_numeric by apply Hget
                | rewrite decide_True by done
                | rewrite (minus_1_lt_0 lit) ];
          cbn [rbind]).
  unfold default_config, _clamp_float, py_max, py_min. cbn [foldl].
  rewrite (lt_0_2_5 lit), (lt_0_0001_0_2 lit), (lt_0_5_60 lit), (lt_0_0_5 lit).
  reflexivity.
Qed.

End ParameterTheorems.

(** ** Data set layout *)

Section DataSetFacts.
Context {Path : Type} `{FileSystem Path}.

Lemma iter_images_loop_take (limit : Z) (paths out : list Path) :
  length out < Z.to_nat (Z.max 1 limit) →
  iter_images_loop limit paths out
  = take (Z.to_nat (Z.max 1 limit)) (out ++ filter is_image paths).
Proof.
  revert out. induction paths as [|p rest IH]; intros out Hlen; simpl.
  - rewrite app_nil_r, take_ge; [done|lia].
  - destruct (is_file p) eqn:Hfile; simpl.
    + case_decide as Himg.
      * rewrite filter_cons_True by done.
        case_decide as Hlim.
        -- rewrite length_app in Hlim. simpl in Hlim.
           rewrite (cons_middle p out (filter is_image rest)), (assoc_L (++)).
           rewrite take_app_length'; [done|].
           rewrite length_app. simpl. lia.
        -- rewrite IH by lia. by rewrite <- (assoc_L (++)).
      * rewrite filter_cons_False by (intros [_ ?]; contradiction). by apply IH.
    + rewrite filter_cons_False by (intros [? _]; congruence). by apply IH.
Qed.

(** X7.  [_iter_images] returns the first image files in the sorted
    order of the paths, [max(1, limit)] of them or all if there are fewer:
    never more than that, also one for a limit of 0 or below, and nothing
    that is not a file with a suffix of [IMAGE_EXTS]. *)
Theorem iter_images_first_images (root : Path) (limit : Z) :
  _iter_images root limit
  = take (Z.to_nat (Z.max 1 limit)) (filter is_image (sorted_paths (rglob root)))
  ∧ (Z.of_nat (length (_iter_images root limit)) ≤ Z.max 1 limit)%Z
  ∧ Forall is_image (_iter_images root limit).
Proof.
  assert (_iter_images root limit
          = take (Z.to_nat (Z.max 1 limit))
              (filter is_image (sorted_paths (rglob root)))) as Heq.
  { unfold _iter_images. rewrite iter_images_loop_take by (simpl; lia). done. }
  split; [done|]. rewrite Heq. split.
  - rewrite length_take. lia.
  - apply Forall_take, Forall_forall. intros p Hp.
    by apply list_elem_of_filter in Hp as [? _].
Qed.

Lemma first_dir_Some root candidates d :
  first_dir root candidates = Some d →
  is_dir d = true ∧ ∃ name, name ∈ candidates ∧ d = path_child root name.
Proof.
  induction candidates as [|name rest IH]; simpl; [done|].
  destruct (is_dir (path_child root name)) eqn:Hd.
  - intros [= <-]. split; [done|]. exists name. split; [|done].
    apply elem_of_cons. by left.
  - intros (? & n & Hn & ->)%IH. split; [done|]. exists n. split; [|done].
    apply elem_of_cons. by right.
Qed.

Lemma first_dir_None root candidates :
  first_dir root candidates = None →
  ∀ name, name ∈ candidates → is_dir (path_child root name) = false.
Proof.
  induction candidates as [|name rest IH]; simpl.
  - by intros _ ? ?%elem_of_nil.
  - destruct (is_dir (path_child root name)) eqn:Hd; [done|].
    intros Hrest n [->|Hn]%elem_of_cons; [done|]. by apply IH.
Qed.

(** X8.  What [_resolve_split_dir] returns is a directory.  For a split
    that normalises to "evaluate" it is [root/evalute] if that is a
    directory and [root/evaluate] only otherwise; for any other split it is
    the directory under [root] named by the normalised split.  It returns
    [None] exactly when none of these is a directory. *)
Theorem resolve_split_dir_found (root : Path) (split : string) :
  let name := _normalize_split split in
  match _resolve_split_dir root split with
  | Some d =>
      is_dir d = true
      ∧ if decide (name = "evaluate")
        then (d = path_child root "evalute"
              ∨ (d = path_child root "evaluate"
                 ∧ is_dir (path_child root "evalute") = false))
        else d = path_child root name
  | None =>
      is_dir (path_child root name) = false
      ∧ (name = "evaluate" → is_dir (path_child root "evalute") = false)
  end.
Proof.
  cbv zeta. unfold _resolve_split_dir.
  destruct (decide (_normalize_split split = "evaluate")) as [Heq|Hne].
  - rewrite Heq. simpl.
    destruct (is_dir (path_child root "evalute")) eqn:H1; [by auto|].
    destruct (is_dir (path_child root "evaluate")) eqn:H2; by auto.
  - simpl. destruct (is_dir (path_child root (_normalize_split split))) eqn:H1.
    + done.
    + split; [done|]. by intros.
Qed.

(** X9.  [_resolve_dataset_root] descends one level at most: it returns
    a directory other than its argument only if the argument has no split
    directory, holds exactly one directory and no file, and that directory
    has a split directory, and then it returns that directory.  In every
    other case, also when the single directory holds a single directory
    with the splits, it returns its argument. *)
Theorem resolve_dataset_root_one_level (extracted_dir : Path) :
  let root := _resolve_dataset_root extracted_dir in
  (root ≠ extracted_dir →
     has_split_dir extracted_dir = false
     ∧ subdirs extracted_dir = [root]
     ∧ files_in extracted_dir = []
     ∧ has_split_dir root = true)
  ∧ (has_split_dir extracted_dir = true → root = extracted_dir)
  ∧ (∀ child,
       has_split_dir extracted_dir = false →
       subdirs extracted_dir = [child] →
       files_in extracted_dir = [] →
       root = if has_split_dir child then child else extracted_dir).
Proof.
  cbv zeta. unfold _resolve_dataset_root. cbn [resolve_root_loop].
  fold (subdirs extracted_dir) (files_in extracted_dir).
  destruct (has_split_dir extracted_dir) eqn:Hroot.
  { split_and!; [done|done|]. by intros. }
  destruct (subdirs extracted_dir) as [|child [|c2 more]] eqn:Hsub;
    [by split_and!| |by split_and!].
  destruct (files_in extracted_dir) as [|f fs] eqn:Hfiles; [|by split_and!].
  fold (subdirs child) (files_in child).
  destruct (has_split_dir child) eqn:Hchild.
  - split_and!; [done|done|]. intros c _ [= <-] _. by rewrite Hchild.
  - assert (match subdirs child with
            | [_] => match files_in child with
                     | [] => extracted_dir
                     | _ :: _ => extracted_dir
                     end
            | _ => extracted_dir
            end = extracted_dir) as ->.
    { by destruct (subdirs child) as [|? [|? ?]], (files_in child). }
    split_and!; [done|done|]. intros c _ [= <-] _. by rewrite Hchild.
Qed.

End DataSetFacts.

(** ** Label codec: encoding with a vocabulary *)

Lemma tok_to_idx_None vocab t : t ∉ vocab → tok_to_idx vocab !! t = None.
Proof.
  intros Hnin. destruct (tok_to_idx vocab !! t) as [i|] eqn:Hi; [|done].
  exfalso. apply Hnin. apply tok_to_idx_lookup in Hi.
  by eapply list_elem_of_lookup_2.
Qed.

Lemma tok_to_idx_lt vocab t i : tok_to_idx vocab !! t = Some i → i < length vocab.
Proof. intros Hi%tok_to_idx_lookup. by eapply lookup_lt_Some. Qed.

(** The row written for a label: the codes of its first [max_len]
    characters, then padding. *)
Lemma encode_row_closed (tok : gmap string nat) pad_idx max_len label :
  let cs := take max_len (chars_of label) in
  encode_row tok pad_idx max_len label
  = ((λ ch, default pad_idx (tok !! ch)) <$> cs)
    ++ replicate (max_len - length cs) pad_idx.
Proof.
  cbv zeta. unfold encode_row.
  etrans; [apply (foldl_insert_enumerate (λ ch, default pad_idx (tok !! ch)))|].
  - rewrite length_replicate, length_take. lia.
  - by rewrite drop_replicate.
Qed.

(** X10.  [_encode_labels] returns for every list of labels when the
    vocabulary holds the padding token, and raises KeyError("<pad>") when
    it does not, also for an empty list of labels. *)
Theorem encode_labels_needs_pad (labels vocab : list string) (max_len : nat) :
  (PAD_TOKEN ∈ vocab → ∃ y, _encode_labels labels vocab max_len = Ok y)
  ∧ (PAD_TOKEN ∉ vocab →
       _encode_labels labels vocab max_len = Raise (KeyError PAD_TOKEN)).
Proof.
  unfold _encode_labels. split.
  - intros [i ->]%tok_to_idx_elem. by eexists.
  - intros ->%tok_to_idx_None. done.
Qed.

(** X11.  The array [_encode_labels] returns has one row per label and
    [max_len] entries per row; the entry at position [j] is an index of
    the vocabulary, at which the vocabulary holds the [j]-th character of
    the label if the label has one and the vocabulary holds it, and the
    padding token otherwise.  So a label is cut at [max_len] characters,
    and an unknown character is encoded as padding. *)
Theorem encode_labels_entries (labels vocab : list string) (max_len : nat)
    (y : list (list nat)) :
  _encode_labels labels vocab max_len = Ok y →
  length y = length labels
  ∧ ∀ i label, labels !! i = Some label →
      ∃ row, y !! i = Some row
             ∧ length row = max_len
             ∧ ∀ j, j < max_len →
                 ∃ idx, row !! j = Some idx
                        ∧ vocab !! idx
                          = Some (match chars_of label !! j with
                                  | Some ch => if decide (ch ∈ vocab) then ch
                                               else PAD_TOKEN
                                  | None => PAD_TOKEN
                                  end).
Proof.
  unfold _encode_labels.
  destruct (tok_to_idx vocab !! PAD_TOKEN) as [pad_idx|] eqn:Hpad; [|done].
  simpl. intros [= <-]. split; [by rewrite length_fmap|].
  intros i label Hi. eexists. split; [by rewrite list_lookup_fmap, Hi|].
  rewrite encode_row_closed. cbv zeta.
  set (cs := take max_len (chars_of label)).
  split.
  { rewrite length_app, length_fmap, length_replicate. unfold cs.
    rewrite length_take. lia. }
  intros j Hj. destruct (decide (j < length cs)) as [Hlt|Hge].
  - destruct (lookup_lt_is_Some_2 cs j Hlt) as [ch Hch].
    rewrite lookup_app_l by (by rewrite length_fmap).
    rewrite list_lookup_fmap, Hch. simpl. eexists. split; [done|].
    unfold cs in Hch. rewrite lookup_take_lt in Hch by done. rewrite Hch.
    case_decide as Hin.
    + destruct (tok_to_idx_elem vocab ch Hin) as [k Hk]. rewrite Hk. simpl.
      by apply tok_to_idx_lookup.
    + rewrite (tok_to_idx_None vocab ch Hin). simpl. by apply tok_to_idx_lookup.
  - rewrite lookup_app_r by (rewrite length_fmap; lia).
    rewrite lookup_replicate_2 by (rewrite length_fmap; lia).
    eexists. split; [done|].
    assert (chars_of label !! j = None) as ->.
    { apply lookup_ge_None. unfold cs in Hge. rewrite length_take in Hge. lia. }
    by apply tok_to_idx_lookup.
Qed.

Lemma elem_of_take_list {A} (x : A) n l : x ∈ take n l → x ∈ l.
Proof. intros Hx. rewrite <- (take_drop n l). apply elem_of_app. by left. Qed.

Lemma join_take_chars_of label n :
  join (take n (chars_of label)) = String.substring 0 n label.
Proof.
  revert n. induction label as [|c rest IH]; intros [|n]; simpl; try done.
  change (String c (join (take n (chars_of rest))) = String c (String.substring 0 n rest)).
  by rewrite IH.
Qed.

Lemma decode_encode_row (vocab : list string) (label : string) (max_len pad_idx : nat) :
  tok_to_idx vocab !! PAD_TOKEN = Some pad_idx →
  (∀ ch, ch ∈ take max_len (chars_of label) → ch ∈ vocab) →
  decode (encode_row (tok_to_idx vocab) pad_idx max_len label) vocab PAD_TOKEN
  = Ok (String.substring 0 max_len label).
Proof.
  intros Hpi Hchars. rewrite encode_row_closed. cbv zeta.
  set (cs := take max_len (chars_of label)) in *.
  unfold decode.
  rewrite (collect_Ok _ _ (cs ++ replicate (max_len - length cs) PAD_TOKEN)).
  - simpl. unfold strip_padding. rewrite pop_trailing_pads.
    + simpl. unfold cs. by rewrite join_take_chars_of.
    + rewrite length_app, length_replicate. lia.
    + intros l' t Hl ->. assert (PAD_TOKEN ∈ chars_of label) as Hin.
      { apply (elem_of_take_list _ max_len). fold cs. rewrite Hl.
        apply elem_of_app. right. by apply list_elem_of_singleton. }
      apply chars_of_single in Hin as [c Hc]. discriminate.
  - apply Forall2_app.
    + apply Forall2_fmap_l, Forall_Forall2_diag, Forall_forall. intros ch Hch.
      destruct (tok_to_idx_elem vocab ch (Hchars ch Hch)) as [i Hi].
      unfold vocab_at. simpl. rewrite Hi. simpl.
      by rewrite (tok_to_idx_lookup vocab ch i Hi).
    + apply Forall2_replicate. unfold vocab_at.
      by rewrite (tok_to_idx_lookup vocab PAD_TOKEN pad_idx Hpi).
Qed.

Lemma build_vocab_elem labels ch :
  ch ∈ _build_vocab labels ↔ ch ∈ label_chars labels ∨ ch = PAD_TOKEN.
Proof.
  rewrite build_vocab_unfold, elem_of_app, sorted_elem_of, elem_of_elements,
    elem_of_list_to_set, list_elem_of_singleton. done.
Qed.

(** X12.  With the vocabulary built from the labels themselves,
    [_encode_labels] never raises, and decoding the row of a label as the
    predictor decodes gives back the label cut to its first [max_len]
    characters. *)
Theorem encode_built_vocab_roundtrip (labels : list string) (max_len : nat) :
  ∃ y,
    _encode_labels labels (_build_vocab labels) max_len = Ok y
    ∧ length y = length labels
    ∧ ∀ i label, labels !! i = Some label →
        ∃ row, y !! i = Some row
               ∧ decode row (_build_vocab labels) PAD_TOKEN
                 = Ok (String.substring 0 max_len label).
Proof.
  set (vocab := _build_vocab labels).
  assert (PAD_TOKEN ∈ vocab) as Hpad by (apply build_vocab_elem; by right).
  destruct (tok_to_idx_elem vocab PAD_TOKEN Hpad) as [pad_idx Hpi].
  unfold _encode_labels. rewrite Hpi. simpl. eexists. split; [done|].
  split; [by rewrite length_fmap|].
  intros i label Hi. eexists. split; [by rewrite list_lookup_fmap, Hi|].
  apply decode_encode_row; [done|]. intros ch Hch%elem_of_take_list.
  apply build_vocab_elem. left. unfold label_chars. apply list_elem_of_bind.
  exists label. split; [done|]. by eapply list_elem_of_lookup_2.
Qed.

(** X13.  [_build_vocab] depends on the set of characters only: two
    lists of labels with the same characters, in any order and number,
    give the same vocabulary. *)
Theorem build_vocab_same_chars (labels1 labels2 : list string) :
  (∀ ch, ch ∈ label_chars labels1 ↔ ch ∈ label_chars labels2) →
  _build_vocab labels1 = _build_vocab labels2.
Proof.
  intros Hsame. rewrite !build_vocab_unfold.
  assert ((list_to_set (label_chars labels1) : gset string)
          = list_to_set (label_chars labels2)) as ->; [|done].
  apply set_eq. intros ch. by rewrite !elem_of_list_to_set.
Qed.

(** ** Trainer: the minibatches of an epoch *)

Lemma batches_of_Ok n bs batches :
  batches_of n bs = Ok batches →
  0 < bs ∧ n ≤ batches * bs ∧ (0 < batches → (batches - 1) * bs < n).
Proof.
  unfold batches_of. case_decide as Hbs; [done|]. intros [= <-].
  pose proof (Nat.div_mod_eq (n + bs - 1) bs) as Hdiv.
  pose proof (Nat.mod_upper_bound (n + bs - 1) bs Hbs) as Hmod.
  set (q := (n + bs - 1) / bs) in *. set (r := (n + bs - 1) mod bs) in *.
  split; [lia|]. split; [lia|]. intros Hq.
  assert (bs ≤ q * bs) by (destruct q; [lia|simpl; lia]).
  rewrite Nat.mul_sub_distr_r. lia.
Qed.

Lemma concat_minibatches {A} (perm : list A) bs k :
  concat ((λ batch_idx, take bs (drop (batch_idx * bs) perm)) <$> seq 0 k)
  = take (k * bs) perm.
Proof.
  induction k as [|k IH]; [done|].
  rewrite seq_S, fmap_app, concat_app, IH. simpl. rewrite app_nil_r.
  rewrite take_take_drop. f_equal. lia.
Qed.

Lemma for_each_fmap {A B S} (body : S → B → result S) (f : A → B) s xs :
  for_each body s (f <$> xs) = for_each (λ s x, body s (f x)) s xs.
Proof.
  revert s. induction xs as [|x xs IH]; intros s; simpl; [done|].
  destruct (body s (f x)); simpl; [apply IH|done].
Qed.

Lemma minibatch_length (perm : list nat) bs batches batch_idx :
  batches_of (length perm) bs = Ok batches →
  batch_idx < batches →
  0 < length (minibatch bs perm batch_idx) ≤ bs.
Proof.
  intros (Hbs & Hall & Hlast)%batches_of_Ok Hi.
  unfold minibatch. rewrite length_take, length_drop.
  assert (batch_idx * bs ≤ (batches - 1) * bs) by (apply Nat.mul_le_mono_r; lia).
  lia.
Qed.

Lemma concat_epoch_batches (perm : list nat) bs batches :
  batches_of (length perm) bs = Ok batches →
  concat (epoch_batches bs perm batches) = perm.
Proof.
  intros (Hbs & Hall & Hlast)%batches_of_Ok.
  unfold epoch_batches, minibatch. rewrite concat_minibatches. apply take_ge. lia.
Qed.

(** ** Trainer: what an epoch does to the state *)

Lemma for_each_preserves {A S} (P : S → Prop) (body : S → A → result S) s xs s' :
  (∀ s x s', x ∈ xs → body s x = Ok s' → P s → P s') →
  for_each body s xs = Ok s' → P s → P s'.
Proof.
  revert s. induction xs as [|x xs IH]; intros s Hbody; simpl.
  - by intros [= <-].
  - intros (s1 & Hs1 & Hrest)%bind_Ok Hs. eapply IH; [|done|].
    + intros s2 y s3 Hy. apply Hbody. apply elem_of_cons. by right.
    + eapply Hbody; [|done..]. apply elem_of_cons. by left.
Qed.

Section EpochFacts.
Context {F : Type} `{FloatOps F} `{RngOps F}.

Lemma mat_inplace_shape (op : F → F → F) (a b r : mat F) :
  mat_inplace op a b = Ok r → nrows r = nrows a ∧ ncols r = ncols a.
Proof. unfold mat_inplace. case_decide; [|done]. by intros [= <-]. Qed.

Lemma vec_inplace_length (op : F → F → F) (a b r : list F) :
  vec_inplace op a b = Ok r → length r = length a.
Proof.
  unfold vec_inplace. case_decide; [|done]. intros [= <-]. by rewrite length_imap.
Qed.

Lemma ten_inplace_shape (op : F → F → F) (a b r : ten F) :
  ten_inplace op a b = Ok r →
  tdim0 r = tdim0 a ∧ tdim1 r = tdim1 a ∧ tdim2 r = tdim2 a.
Proof. unfold ten_inplace. case_decide; [|done]. by intros [= <-]. Qed.

(** The training step keeps the shapes of the parameters. *)
Lemma train_step_shape (cfg : TrainConfig F) (xb : mat F) (yb : mat Z) seq_len st st' :
  train_step cfg xb yb seq_len st = Ok st' →
  params_shape st'.1 = params_shape st.1.
Proof.
  destruct st as [ps epoch_loss]. unfold train_step.
  intros (xw & _ & Hstep)%bind_Ok.
  apply bind_Ok in Hstep as (z1 & _ & Hstep).
  apply bind_Ok in Hstep as ([[[dW2 db2] dh] batch_loss] & _ & Hstep).
  apply bind_Ok in Hstep as (loss & _ & Hstep).
  apply bind_Ok in Hstep as (dW1 & _ & Hstep).
  apply bind_Ok in Hstep as (w1' & Hw1 & Hstep).
  apply bind_Ok in Hstep as (b1' & Hb1 & Hstep).
  apply bind_Ok in Hstep as (w2' & Hw2 & Hstep).
  apply bind_Ok in Hstep as (b2' & Hb2 & Hstep).
  injection Hstep as <-. unfold params_shape. cbn [fst p_w1 p_b1 p_w2 p_b2].
  apply mat_inplace_shape in Hw1 as [-> ->].
  apply vec_inplace_length in Hb1 as ->.
  apply ten_inplace_shape in Hw2 as (-> & -> & ->).
  apply mat_inplace_shape in Hb2 as [-> ->]. done.
Qed.

Lemma train_batch_shape (cfg : TrainConfig F) (x_train : mat F) (y_train : mat Z)
    seq_len perm st batch_idx st' :
  train_batch cfg x_train y_train seq_len perm st batch_idx = Ok st' →
  params_shape st'.1 = params_shape st.1.
Proof.
  unfold train_batch. intros (xb & _ & Hstep)%bind_Ok.
  apply bind_Ok in Hstep as (yb & _ & Hstep). by eapply train_step_shape.
Qed.

(** What [epoch_step] does, step by step. *)
Lemma epoch_step_Ok (env : Env F) (cfg : TrainConfig F)
    (x_train : mat F) (y_train : mat Z) (x_val : mat F) (y_val : mat Z)
    n_train seq_len batches s epoch s' :
  epoch_step env cfg x_train y_train x_val y_val n_train seq_len batches s epoch
  = Ok s' →
  ∃ r tr va percent,
    for_each (train_batch cfg x_train y_train seq_len
                (permutation (st_rng s) n_train).1)
      (st_params s, f_zero) (seq 0 batches) = Ok r
    ∧ eval_params (scratch env (st_evals s)) x_train y_train r.1 = Ok tr
    ∧ eval_params (scratch env (S (st_evals s))) x_val y_val r.1 = Ok va
    ∧ py_div_nat (f_of_nat epoch) (epochs cfg) = Ok percent
    ∧ st_params s' = r.1
    ∧ st_rng s' = (permutation (st_rng s) n_train).2
    ∧ st_best_val_loss s'
      = (if f_ltb va.1.1 (st_best_val_loss s) then va.1.1 else st_best_val_loss s)
    ∧ st_best_snapshot s'
      = (if f_ltb va.1.1 (st_best_val_loss s) then Some r.1 else st_best_snapshot s)
    ∧ (st_ticks s', st_events s')
      = pace env cfg (monotonic env (st_ticks s)) (S (st_ticks s))
          (st_events s ++
           [LogMetrics epoch tr.1.1 va.1.1 va.1.2 tr.1.2 tr.2 va.2 epoch (epochs cfg);
            LogProgress epoch (epochs cfg) percent "training"]).
Proof.
  unfold epoch_step. destruct (permutation _ _) as [perm rng]. cbn [fst snd].
  intros (r & Hr & Hstep)%bind_Ok.
  apply bind_Ok in Hstep as ([[tl tf] tc] & Htr & Hstep).
  apply bind_Ok in Hstep as ([[vl vf] vc] & Hva & Hstep).
  apply bind_Ok in Hstep as (percent & Hpc & Hstep).
  exists r, (tl, tf, tc), (vl, vf, vc), percent. cbn [fst snd].
  destruct (pace _ _ _ _ _) as [ticks events].
  injection Hstep as <-. by split_and!.
Qed.

Lemma pace_events (env : Env F) (cfg : TrainConfig F) started ticks events :
  ∃ sl, (pace env cfg started ticks events).2 = events ++ sl
        ∧ (sl = []
           ∨ ∃ remaining, sl = [Sleep remaining]
                          ∧ f_ltb f_zero (min_epoch_seconds cfg) = true
                          ∧ f_ltb f_zero remaining = true).
Proof.
  unfold pace. destruct (f_ltb f_zero (min_epoch_seconds cfg)) eqn:Hmin; simpl.
  - set (remaining := f_sub _ _). destruct (f_ltb f_zero remaining) eqn:Hrem.
    + exists [Sleep remaining]. split; [done|]. right. by exists remaining.
    + exists []. split; [by rewrite app_nil_r|by left].
  - exists []. split; [by rewrite app_nil_r|by left].
Qed.

End EpochFacts.

(** ** Trainer: a whole run *)

Section RunFacts.
Context {F : Type} `{FloatOps F} `{RngOps F}.

Lemma train_mlp_Ok (env : Env F) (x_train : mat F) (y_train : mat Z)
    (x_val : mat F) (y_val : mat Z) (cfg : TrainConfig F) (vocab : list string)
    model val_loss events :
  _train_mlp env x_train y_train x_val y_val cfg vocab = Ok (model, val_loss, events) →
  mat_size x_train ≠ 0
  ∧ ∃ batches sf,
      batches_of (nrows x_train) (batch_size cfg) = Ok batches
      ∧ for_each (epoch_step env cfg x_train y_train x_val y_val
                    (nrows x_train) (ncols y_train) batches)
          (init_state cfg (ncols x_train) (ncols y_train) (length vocab))
          (seq 1 (epochs cfg)) = Ok sf
      ∧ finish cfg (ncols y_train) vocab sf = (model, val_loss)
      ∧ st_events sf = events.
Proof.
  unfold _train_mlp. case_decide as Hsize; [done|].
  intros (batches & Hb & Hrun)%bind_Ok.
  apply bind_Ok in Hrun as (sf & Hsf & Hfin).
  split; [done|]. exists batches, sf. split; [done|]. split; [done|].
  split; congruence.
Qed.

Lemma init_state_shape (cfg : TrainConfig F) feat_dim seq_len vocab_size :
  let s0 := init_state cfg feat_dim seq_len vocab_size in
  params_shape (st_params s0)
  = ((hidden_size cfg, feat_dim), hidden_size cfg,
     (seq_len, vocab_size, hidden_size cfg), (seq_len, vocab_size))
  ∧ st_events s0 = [].
Proof.
  cbv zeta. unfold init_state. destruct (standard_normal _ _) as [n1 rng1].
  destruct (standard_normal _ _) as [n2 rng2].
  unfold params_shape. cbn [st_params st_events p_w1 p_b1 p_w2 p_b2].
  by rewrite length_replicate.
Qed.

(** Every epoch keeps the shapes of the live parameters and of the
    snapshot. *)
Lemma epoch_step_shape (env : Env F) (cfg : TrainConfig F)
    (x_train : mat F) (y_train : mat Z) (x_val : mat F) (y_val : mat Z)
    n_train seq_len batches sh s epoch s' :
  epoch_step env cfg x_train y_train x_val y_val n_train seq_len batches s epoch
  = Ok s' →
  params_shape (st_params s) = sh
  ∧ (∀ best, st_best_snapshot s = Some best → params_shape best = sh) →
  params_shape (st_params s') = sh
  ∧ (∀ best, st_best_snapshot s' = Some best → params_shape best = sh).
Proof.
  intros (r & tr & va & percent & Hr & _ & _ & _ & Hps & _ & _ & Hsnap & _)%epoch_step_Ok
    [Hsh Hbest].
  assert (params_shape r.1 = sh) as Hrs.
  { eapply (for_each_preserves (λ st, params_shape st.1 = sh)); [|exact Hr|exact Hsh].
    intros st b st' _ Hb%train_batch_shape. cbv beta. congruence. }
  rewrite Hps, Hsnap. split; [done|].
  destruct (f_ltb _ _); [by intros best [= <-]|done].
Qed.

(** The shapes of the arrays and the config of a model [_train_mlp]
    returns. *)
Lemma train_mlp_params_shape (env : Env F) (x_train : mat F) (y_train : mat Z)
    (x_val : mat F) (y_val : mat Z) (cfg : TrainConfig F) (vocab : list string)
    (model : TrainedModel F) (val_loss : F) (events : list (event F)) :
  _train_mlp env x_train y_train x_val y_val cfg vocab = Ok (model, val_loss, events) →
  params_shape (params_of model)
  = ((hidden_size cfg, ncols x_train), hidden_size cfg,
     (ncols y_train, length vocab, hidden_size cfg), (ncols y_train, length vocab))
  ∧ config model = model_cfg_of cfg (ncols y_train) vocab.
Proof.
  intros (_ & batches & sf & _ & Hrun & Hfin & _)%train_mlp_Ok.
  destruct (init_state_shape cfg (ncols x_train) (ncols y_train) (length vocab))
    as [Hsh0 _]. cbv zeta in Hsh0.
  assert (params_shape (st_params sf) = params_shape (st_params
            (init_state cfg (ncols x_train) (ncols y_train) (length vocab)))
          ∧ (∀ best, st_best_snapshot sf = Some best →
               params_shape best = params_shape (st_params
                 (init_state cfg (ncols x_train) (ncols y_train) (length vocab)))))
    as [Hlive Hbest].
  { eapply (for_each_preserves (λ s, params_shape (st_params s) = _
               ∧ ∀ best, st_best_snapshot s = Some best → params_shape best = _));
      [|exact Hrun|].
    - intros s epoch s' _. apply epoch_step_shape.
    - split; [done|]. intros best. by rewrite (proj2 (init_state_best cfg _ _ _)). }
  rewrite Hsh0 in Hlive, Hbest.
  pose proof (params_of_finish cfg (ncols y_train) vocab sf) as Hps.
  rewrite Hfin in Hps. cbn [fst] in Hps. rewrite Hps. split.
  - destruct (st_best_snapshot sf) as [best|]; [by apply Hbest|done].
  - unfold finish in Hfin. by injection Hfin as <- _.
Qed.

(** X15.  The model [_train_mlp] returns has arrays of the shapes
    [(hidden_size, feat_dim)], [(hidden_size,)],
    [(seq_len, vocab_size, hidden_size)] and [(seq_len, vocab_size)], and
    its config stores the vocabulary, the padding token and the label
    length of the run. *)
Theorem train_mlp_model_shapes (env : Env F) (x_train : mat F) (y_train : mat Z)
    (x_val : mat F) (y_val : mat Z) (cfg : TrainConfig F) (vocab : list string)
    (model : TrainedModel F) (val_loss : F) (events : list (event F)) :
  _train_mlp env x_train y_train x_val y_val cfg vocab = Ok (model, val_loss, events) →
  nrows (w1 model) = hidden_size cfg ∧ ncols (w1 model) = ncols x_train
  ∧ length (b1 model) = hidden_size cfg
  ∧ tdim0 (w2 model) = ncols y_train ∧ tdim1 (w2 model) = length vocab
  ∧ tdim2 (w2 model) = hidden_size cfg
  ∧ nrows (b2 model) = ncols y_train ∧ ncols (b2 model) = length vocab
  ∧ config model !! "vocab" = Some (PyList (PyStr <$> vocab))
  ∧ config model !! "pad_token" = Some (PyStr PAD_TOKEN)
  ∧ config model !! "max_label_len" = Some (PyInt (Z.of_nat (ncols y_train))).
Proof.
  intros [Hsh Hcfg]%train_mlp_params_shape.
  unfold params_shape, params_of in Hsh. cbn [p_w1 p_b1 p_w2 p_b2] in Hsh.
  injection Hsh as -> -> -> -> -> -> -> ->. rewrite Hcfg.
  by split_and!.
Qed.

End RunFacts.

(** ** Trainer: telemetry *)

Section TelemetryFacts.
Context {F : Type} `{FloatOps F} `{RngOps F}.

(** The calls an epoch adds: one [log_metrics], one [log_progress], and
    at most one [time.sleep], each of them with the number of the epoch. *)
Lemma epoch_step_events (env : Env F) (cfg : TrainConfig F)
    (x_train : mat F) (y_train : mat Z) (x_val : mat F) (y_val : mat Z)
    n_train seq_len batches s epoch s' :
  epoch_step env cfg x_train y_train x_val y_val n_train seq_len batches s epoch
  = Ok s' →
  ∃ new,
    st_events s' = st_events s ++ new
    ∧ metrics_steps new = [epoch]
    ∧ progress_steps new = [epoch]
    ∧ length (sleeps new) ≤ 1
    ∧ Forall (λ seconds, f_ltb f_zero seconds = true) (sleeps new)
    ∧ (f_ltb f_zero (min_epoch_seconds cfg) = false → sleeps new = []).
Proof.
  intros (r & tr & va & percent & _ & _ & _ & _ & _ & _ & _ & _ & Hpace)%epoch_step_Ok.
  apply (f_equal snd) in Hpace. cbn [snd] in Hpace.
  destruct (pace_events env cfg (monotonic env (st_ticks s)) (S (st_ticks s))
              (st_events s ++
               [LogMetrics epoch tr.1.1 va.1.1 va.1.2 tr.1.2 tr.2 va.2 epoch (epochs cfg);
                LogProgress epoch (epochs cfg) percent "training"]))
    as (sl & Hsl & Hcases).
  rewrite Hsl, <- (assoc_L (++)) in Hpace.
  eexists. split; [exact Hpace|].
  destruct Hcases as [->|(remaining & -> & Hmin & Hrem)]; cbn.
  - split_and!; [done|done|lia|done|done].
  - split_and!; [done|done|lia| |].
    + by apply Forall_singleton.
    + intros Hoff. congruence.
Qed.

Lemma run_events (env : Env F) (cfg : TrainConfig F)
    (x_train : mat F) (y_train : mat Z) (x_val : mat F) (y_val : mat Z)
    n_train seq_len batches s xs s' :
  for_each (epoch_step env cfg x_train y_train x_val y_val n_train seq_len batches)
    s xs = Ok s' →
  ∃ new,
    st_events s' = st_events s ++ new
    ∧ metrics_steps new = xs
    ∧ progress_steps new = xs
    ∧ length (sleeps new) ≤ length xs
    ∧ Forall (λ seconds, f_ltb f_zero seconds = true) (sleeps new)
    ∧ (f_ltb f_zero (min_epoch_seconds cfg) = false → sleeps new = []).
Proof.
  revert s. induction xs as [|epoch xs IH]; intros s; simpl.
  - intros [= <-]. exists []. rewrite app_nil_r. by split_and!.
  - intros (s1 & Hs1 & Hrest)%bind_Ok.
    apply epoch_step_events in Hs1 as (new1 & He1 & Hm1 & Hp1 & Hl1 & Hf1 & Ho1).
    apply IH in Hrest as (new2 & He2 & Hm2 & Hp2 & Hl2 & Hf2 & Ho2).
    exists (new1 ++ new2). unfold metrics_steps, progress_steps, sleeps in *.
    rewrite !omap_app. split_and!.
    + by rewrite He2, He1, (assoc_L (++)).
    + by rewrite Hm1, Hm2.
    + by rewrite Hp1, Hp2.
    + rewrite length_app. lia.
    + by apply Forall_app.
    + intros Hoff. by rewrite Ho1, Ho2.
Qed.

(** X16.  A run of [_train_mlp] that returns has called [log_metrics]
    and [log_progress] once per epoch, with the steps 1, 2, ..., epochs in
    this order, and [time.sleep] at most once per epoch, always with a
    positive time, and not at all when [min_epoch_seconds] is not
    positive. *)
Theorem train_mlp_telemetry (env : Env F) (x_train : mat F) (y_train : mat Z)
    (x_val : mat F) (y_val : mat Z) (cfg : TrainConfig F) (vocab : list string)
    (model : TrainedModel F) (val_loss : F) (events : list (event F)) :
  _train_mlp env x_train y_train x_val y_val cfg vocab = Ok (model, val_loss, events) →
  metrics_steps events = seq 1 (epochs cfg)
  ∧ progress_steps events = seq 1 (epochs cfg)
  ∧ length (sleeps events) ≤ epochs cfg
  ∧ Forall (λ seconds, f_ltb f_zero seconds = true) (sleeps events)
  ∧ (f_ltb f_zero (min_epoch_seconds cfg) = false → sleeps events = []).
Proof.
  intros (_ & batches & sf & _ & Hrun & _ & <-)%train_mlp_Ok.
  apply run_events in Hrun as (new & He & Hm & Hp & Hl & Hf & Ho).
  rewrite (proj2 (init_state_shape cfg _ _ _)) in He. simpl in He. rewrite He.
  rewrite length_seq in Hl. by split_and!.
Qed.

(** ** Trainer: an empty validation set *)

Lemma eval_params_empty (uninit : nat → nat → Z) (x : mat F) (y : mat Z) ps :
  mat_size x = 0 ∨ mat_size y = 0 →
  eval_params uninit x y ps = Ok (f_zero, f_zero, f_zero).
Proof. intros Hempty. unfold eval_params, _eval_model. by rewrite decide_True. Qed.

(** X17.  With an empty validation set the validation loss of every
    epoch is 0.0, so the snapshot of the first epoch is never replaced:
    [_train_mlp] returns the parameters as they were after the first
    epoch, however many epochs ran, and reports the loss 0.0. *)
Theorem train_mlp_empty_validation (env : Env F) (x_train : mat F) (y_train : mat Z)
    (x_val : mat F) (y_val : mat Z) (cfg : TrainConfig F) (vocab : list string)
    (model : TrainedModel F) (val_loss : F) (events : list (event F)) :
  f_ltb f_zero f_inf = true →
  f_ltb f_zero f_zero = false →
  mat_size x_val = 0 ∨ mat_size y_val = 0 →
  0 < epochs cfg →
  _train_mlp env x_train y_train x_val y_val cfg vocab = Ok (model, val_loss, events) →
  ∃ batches s1,
    batches_of (nrows x_train) (batch_size cfg) = Ok batches
    ∧ epoch_step env cfg x_train y_train x_val y_val
        (nrows x_train) (ncols y_train) batches
        (init_state cfg (ncols x_train) (ncols y_train) (length vocab)) 1 = Ok s1
    ∧ params_of model = st_params s1
    ∧ val_loss = f_zero.
Proof.
  intros Hinf Hzero Hempty Hepochs
    (_ & batches & sf & Hb & Hrun & Hfin & _)%train_mlp_Ok.
  destruct (epochs cfg) as [|n]; [lia|]. cbn [seq for_each] in Hrun.
  apply bind_Ok in Hrun as (s1 & Hs1 & Hrest).
  exists batches, s1. split; [done|]. split; [done|].
  (* after the first epoch: loss 0.0, snapshot taken *)
  assert (st_best_val_loss s1 = f_zero ∧ st_best_snapshot s1 = Some (st_params s1))
    as Hfirst.
  { pose proof Hs1 as (r & tr & va & percent & _ & _ & Hva & _ & Hps & _ & Hbl & Hsn & _)%epoch_step_Ok.
    rewrite eval_params_empty in Hva by done. injection Hva as <-.
    cbn [fst] in Hbl, Hsn.
    rewrite (proj1 (init_state_best cfg _ _ _)), Hinf in Hbl, Hsn.
    by rewrite Hsn, Hps. }
  (* later epochs never replace it *)
  assert (st_best_val_loss sf = f_zero ∧ st_best_snapshot sf = Some (st_params s1))
    as [Hbl Hsn].
  { eapply (for_each_preserves (λ s, st_best_val_loss s = f_zero
               ∧ st_best_snapshot s = Some (st_params s1))); [|exact Hrest|exact Hfirst].
    intros s epoch s' _
      (r & tr & va & percent & _ & _ & Hva & _ & _ & _ & Hbl & Hsn & _)%epoch_step_Ok
      [Hb0 Hs0].
    rewrite eval_params_empty in Hva by done. injection Hva as <-.
    cbn [fst] in Hbl, Hsn. rewrite Hb0, Hzero in Hbl, Hsn. by rewrite Hbl, Hsn. }
  pose proof (params_of_finish cfg (ncols y_train) vocab sf) as Hps.
  rewrite Hfin, Hsn in Hps. split; [done|].
  unfold finish in Hfin. rewrite Hbl in Hfin. injection Hfin as _ <-.
  by destruct (negb _).
Qed.

End TelemetryFacts.

(** ** Evaluation: the uninitialised prediction buffer *)

Lemma rel_for_each_seq {S S'} (R : nat → S → S' → Prop)
    (body : S → nat → result S) (body' : S' → nat → result S') a len s s' :
  (∀ p s s', a ≤ p < a + len → R p s s' →
     rel_result (R (Datatypes.S p)) (body s p) (body' s' p)) →
  R a s s' →
  rel_result (R (a + len)) (for_each body s (seq a len)) (for_each body' s' (seq a len)).
Proof.
  revert a s s'. induction len as [|len IH]; intros a s s' Hbody HR; simpl.
  - by rewrite Nat.add_0_r.
  - eapply rel_bind; [apply Hbody; [lia|done]|].
    intros s1 s1' HR1. rewrite <- Nat.add_succ_comm. apply IH; [|done].
    intros p s2 s2' Hp. apply Hbody. lia.
Qed.

Section EvalBuffer.
Context {F : Type} `{FloatOps F}.

Lemma eval_pos_agree (y : mat Z) (h : mat F) (w2 : ten F) (b2 : mat F) st1 st2 pos :
  eval_states_agree y pos st1 st2 →
  rel_result (eval_states_agree y (S pos))
    (eval_pos y h w2 b2 st1 pos) (eval_pos y h w2 b2 st2 pos).
Proof.
  destruct st1 as [[l1 p1] c1], st2 as [[l2 p2] c2].
  intros (Hl & Hc & Hr1 & Hc1 & Hr2 & Hc2 & Hagree).
  cbn [fst snd] in Hl, Hc, Hr1, Hc1, Hr2, Hc2, Hagree. subst l2 c2.
  unfold eval_pos.
  eapply rel_bind; [apply rel_result_refl|]. intros w2p ? <-.
  eapply rel_bind; [apply rel_result_refl|]. intros hw ? <-.
  eapply rel_bind; [apply rel_result_refl|]. intros b2p ? <-.
  eapply rel_bind; [apply rel_result_refl|]. intros logits ? <-.
  eapply rel_bind; [apply rel_result_refl|]. intros probs ? <-.
  eapply rel_bind; [apply rel_result_refl|]. intros idx ? <-.
  eapply rel_bind; [apply rel_result_refl|]. intros p ? <-.
  eapply (rel_bind (λ a b : mat Z,
            nrows a = nrows y ∧ ncols a = ncols y
            ∧ nrows b = nrows y ∧ ncols b = ncols y
            ∧ ∀ i j, i < nrows y → j < ncols y → j < S pos →
                mat_at a i j = mat_at b i j)).
  { unfold set_column. rewrite Hr1, Hc1, Hr2, Hc2.
    case_decide; [|done]. case_decide; [|done].
    cbv beta iota zeta delta [rel_result]. split_and!; [done..|].
    intros i j Hi Hj Hlt. rewrite !tabulate_at by done.
    case_decide; [done|]. apply Hagree; [done..|lia]. }
  intros q1 q2 (? & ? & ? & ? & ?).
  eapply rel_bind; [apply rel_result_refl|]. intros k ? <-.
  by split_and!.
Qed.

Lemma eval_params_any_buffer (u1 u2 : nat → nat → Z) (x : mat F) (y : mat Z)
    (ps : params F) :
  ncols y ≤ tdim0 (p_w2 ps) →
  eval_params u1 x y ps = eval_params u2 x y ps.
Proof.
  intros Hheads. apply rel_result_eq. unfold eval_params, _eval_model.
  case_decide; [done|].
  eapply rel_bind; [apply rel_result_refl|]. intros xw ? <-.
  eapply rel_bind; [apply rel_result_refl|]. intros z1 ? <-.
  eapply rel_bind.
  { apply (rel_for_each_seq (eval_states_agree y)).
    - intros p s s' _. apply eval_pos_agree.
    - split_and!; [done..|]. intros i j _ _ Hj. lia. }
  intros [[l1 p1] c1] [[l2 p2] c2] (Hl & Hc & Hr1 & Hc1 & Hr2 & Hc2 & Hagree).
  cbn [fst snd] in Hl, Hc, Hr1, Hc1, Hr2, Hc2, Hagree. subst l2 c2.
  eapply rel_bind; [apply rel_result_refl|]. intros loss ? <-.
  eapply rel_bind; [apply rel_result_refl|]. intros char_acc ? <-.
  cbv beta iota zeta delta [rel_result].
  assert ((λ i, f_of_bool (bool_decide (mat_row p1 i = mat_row y i)))
            <$> seq 0 (nrows y)
          = (λ i, f_of_bool (bool_decide (mat_row p2 i = mat_row y i)))
              <$> seq 0 (nrows y)) as ->; [|done].
  apply list_fmap_ext. intros k i Hi. apply lookup_seq in Hi as [-> Hi].
  assert (mat_row p1 (0 + k) = mat_row p2 (0 + k)) as ->; [|done].
  apply mat_row_ext; [congruence|]. intros j Hj. apply Hagree; lia.
Qed.

(** X18.  When the label array has no more columns than the model has
    heads, what [_eval_model] returns (loss and both accuracies, or the
    exception) does not depend on what the buffer of [np.empty_like]
    held: every column read at the end has been written. *)
Theorem eval_model_buffer_independent (u1 u2 : nat → nat → Z) (x : mat F) (y : mat Z)
    (w1 : mat F) (b1 : list F) (w2 : ten F) (b2 : mat F) :
  ncols y ≤ tdim0 w2 →
  _eval_model u1 x y w1 b1 w2 b2 = _eval_model u2 x y w1 b1 w2 b2.
Proof.
  intros Hheads.
  change (eval_params u1 x y (mkParams w1 b1 w2 b2)
          = eval_params u2 x y (mkParams w1 b1 w2 b2)).
  by apply eval_params_any_buffer.
Qed.

End EvalBuffer.

(** ** Predictor: models of the right shapes *)

Section PredictorReturns.
Context {F : Type} `{FloatOps F} `{PyRepr F}.

(** On a model whose shapes agree and whose vocabulary has one string per
    head output, the predictor returns. *)
Lemma predict_text_returns (model : TrainedModel F) (vs : list string)
    (x : mat F) (mean std : F) :
  config model !! "vocab" = Some (PyList (PyStr <$> vs)) →
  vs ≠ [] →
  length vs = tdim1 (w2 model) →
  length (b1 model) = nrows (w1 model) →
  tdim2 (w2 model) = nrows (w1 model) →
  nrows (b2 model) = tdim0 (w2 model) →
  ncols (b2 model) = tdim1 (w2 model) →
  0 < nrows x → ncols x = ncols (w1 model) →
  ∃ tokens confs,
    length tokens = tdim0 (w2 model)
    ∧ Forall (λ t, t ∈ vs) tokens
    ∧ _predict_text model x mean std
      = Ok (join (rstrip (pad_token_of (config model)) tokens),
            confidence_of
              (take (length (rstrip (pad_token_of (config model)) tokens)) confs)).
Proof.
  intros Hvocab Hvs Hlen Hb1 Hw2 Hb2r Hb2c Hx Hcols.
  set (h := hidden_row model (normalise mean std (mat_row x 0))).
  set (positions := seq 0 (tdim0 (w2 model))).
  exists ((λ p, nth (head_index model h p) vs "") <$> positions),
    ((λ p, nth (head_index model h p) (head_probs model h p) f_zero) <$> positions).
  assert (0 < tdim1 (w2 model)) as HV by (destruct vs; simpl in *; [done|lia]).
  split; [unfold positions; by rewrite length_fmap, length_seq|]. split.
  { apply Forall_fmap, Forall_forall. intros p _. simpl.
    pose proof (head_index_lt model h p HV) as Hidx.
    destruct (lookup_lt_is_Some_2 vs (head_index model h p)) as [t Ht]; [lia|].
    rewrite (nth_lookup_Some _ _ _ _ Ht). by eapply list_elem_of_lookup_2. }
  rewrite predict_text_row by done. unfold predict_row. rewrite Hvocab.
  destruct vs as [|v0 vs']; [done|]. cbn [fmap list_fmap].
  change (PyStr v0 :: list_fmap _ _ PyStr vs') with (PyStr <$> (v0 :: vs')).
  assert (length (normalise mean std (mat_row x 0)) = ncols (w1 model)) as Hxr.
  { unfold normalise. by rewrite length_fmap, mat_row_length. }
  pose proof (hidden_row_ok model _ Hxr Hb1) as Hh. fold h in Hh.
  destruct (dot_rows _ _) as [xw|e]; [|done]. cbn [rbind] in Hh |- *.
  destruct (add_vec xw _) as [z1|e]; [|done]. cbn [rbind] in Hh |- *.
  injection Hh as ->.
  rewrite (for_each_append _
             (λ p, nth (head_index model h p) (v0 :: vs') "")
             (λ p, nth (head_index model h p) (head_probs model h p) f_zero)).
  - cbn [rbind fst snd app]. fold positions.
    rewrite strip_padding_rstrip by (by rewrite !length_fmap).
    done.
  - intros st p Hp. apply elem_of_seq in Hp.
    apply (predict_pos_row_ok model (v0 :: vs')); try done; [|lia].
    unfold h, hidden_row. rewrite length_fmap, length_seq. done.
Qed.

End PredictorReturns.

Section TrainedPredictor.
Context {F : Type} `{FloatOps F} `{RngOps F} `{PyRepr F}.

(** X19.  A model returned by [_train_mlp] can be used as it is: on a
    feature array with a row and the width of the training features
    [_predict_text] returns, the text being made of tokens of the
    vocabulary of the run, one per label position before the trailing
    padding is dropped; only for a run with an empty vocabulary it raises
    RuntimeError("model_invalid_vocab"). *)
Theorem trained_model_predicts (env : Env F) (x_train : mat F) (y_train : mat Z)
    (x_val : mat F) (y_val : mat Z) (cfg : TrainConfig F) (vocab : list string)
    (model : TrainedModel F) (val_loss : F) (events : list (event F))
    (x : mat F) (mean std : F) :
  _train_mlp env x_train y_train x_val y_val cfg vocab = Ok (model, val_loss, events) →
  (vocab = [] →
     _predict_text model x mean std = Raise (RuntimeError "model_invalid_vocab"))
  ∧ (vocab ≠ [] → 0 < nrows x → ncols x = ncols x_train →
       ∃ tokens confs,
         length tokens = ncols y_train
         ∧ Forall (λ t, t ∈ vocab) tokens
         ∧ _predict_text model x mean std
           = Ok (join (rstrip PAD_TOKEN tokens),
                 confidence_of (take (length (rstrip PAD_TOKEN tokens)) confs))).
Proof.
  intros [Hsh Hcfg]%train_mlp_params_shape.
  unfold params_shape, params_of in Hsh. cbn [p_w1 p_b1 p_w2 p_b2] in Hsh.
  injection Hsh as Hw1r Hw1c Hb1 Hw20 Hw21 Hw22 Hb2r Hb2c.
  assert (config model !! "vocab" = Some (PyList (PyStr <$> vocab))) as Hvocab
    by (by rewrite Hcfg).
  assert (config model !! "pad_token" = Some (PyStr PAD_TOKEN)) as Hpad
    by (by rewrite Hcfg).
  split.
  - intros ->. unfold _predict_text. by rewrite Hvocab.
  - intros Hne Hx Hcols.
    destruct (predict_text_returns model vocab x mean std)
      as (tokens & confs & Hlen & Hin & Hrun); try done; try congruence.
    exists tokens, confs. split; [congruence|]. split; [done|].
    rewrite Hrun. unfold pad_token_of. by rewrite Hpad.
Qed.

End TrainedPredictor.

(** ** Serializer and predictor together *)

Lemma tabulate_ext {A} `{Inhabited A} n m (f g : nat → nat → A) :
  (∀ i j, i < n → j < m → f i j = g i j) → tabulate n m f = tabulate n m g.
Proof.
  intros Hfg. unfold tabulate.
  assert ((λ i, f i <$> seq 0 m) <$> seq 0 n = (λ i, g i <$> seq 0 m) <$> seq 0 n)
    as ->; [|done].
  apply list_fmap_ext. intros k i Hi. apply lookup_seq in Hi as [-> Hi].
  apply list_fmap_ext. intros k' j Hj. apply lookup_seq in Hj as [-> Hj].
  by apply Hfg.
Qed.

Lemma for_each_ext {A S} (body body' : S → A → result S) s xs :
  (∀ s x, body s x = body' s x) → for_each body s xs = for_each body' s xs.
Proof.
  intros Hbody. revert s. induction xs as [|x xs IH]; intros s; simpl; [done|].
  rewrite Hbody. destruct (body' s x); simpl; [apply IH|done].
Qed.

Section ReloadFacts.
Context {F : Type} `{FloatOps F} `{PyRepr F}.

Lemma matmul_T_equiv (a w w' : mat F) :
  mat_equiv w w' → matmul a (mat_T w) = matmul a (mat_T w').
Proof.
  intros (Hr & Hc & Hat). unfold matmul. cbn [nrows ncols mat_T]. rewrite <- Hc, <- Hr.
  case_decide; [|done]. f_equal. apply tabulate_ext. intros i j Hi Hj. f_equal.
  apply mat_col_ext; [done|]. intros k Hk. cbn [mat_at mat_T nrows] in *.
  by apply Hat.
Qed.

Lemma mat_slice_equiv (m m' : mat F) p :
  mat_equiv m m' → mat_slice m p = mat_slice m' p.
Proof.
  intros (Hr & Hc & Hat). unfold mat_slice. rewrite <- Hr.
  case_decide; [|done]. f_equal. apply mat_row_ext; [done|]. intros j Hj.
  by apply Hat.
Qed.

Lemma predict_pos_equiv (m1 m2 : TrainedModel F) vocab (h : mat F) vocab_size st pos :
  ten_equiv (w2 m1) (w2 m2) → mat_equiv (b2 m1) (b2 m2) →
  predict_pos m1 vocab h vocab_size st pos = predict_pos m2 vocab h vocab_size st pos.
Proof.
  intros (H0' & H1' & H2' & Hat) Hb2. unfold predict_pos.
  rewrite (mat_slice_equiv _ _ pos Hb2).
  unfold ten_slice. rewrite <- H0'. case_decide as Hpos; [|done]. cbn [rbind].
  rewrite (matmul_T_equiv h _ (Mat (tdim1 (w2 m2)) (tdim2 (w2 m2)) (ten_at (w2 m2) pos)));
    [done|].
  split_and!; [done..|]. intros i j Hi Hj. by apply Hat.
Qed.

(** The predictor reads the vocabulary, the padding token and the
    entries of the arrays inside their shapes, and nothing else of a
    model. *)
Lemma predict_text_equiv (m1 m2 : TrainedModel F) (x : mat F) (mean std : F) :
  config m1 !! "vocab" = config m2 !! "vocab" →
  config m1 !! "pad_token" = config m2 !! "pad_token" →
  mat_equiv (w1 m1) (w1 m2) → b1 m1 = b1 m2 →
  ten_equiv (w2 m1) (w2 m2) → mat_equiv (b2 m1) (b2 m2) →
  _predict_text m1 x mean std = _predict_text m2 x mean std.
Proof.
  intros Hvocab Hpad Hw1 Hb1 Hw2 Hb2. unfold _predict_text, pad_token_of.
  rewrite Hvocab, Hpad, Hb1.
  destruct (config m2 !! "vocab") as [[| | | | |[|v0 vs]|]|]; try done.
  rewrite (matmul_T_equiv _ _ _ Hw1).
  destruct (matmul _ _) as [xw|e]; [|done]. cbn [rbind].
  destruct (add_row xw _) as [z1|e]; [|done]. cbn [rbind].
  destruct Hw2 as (H0' & H1' & H2' & Hat). rewrite <- H0', <- H1'.
  rewrite (for_each_ext _ (predict_pos m2 (v0 :: vs) (_relu z1) (tdim1 (w2 m1)))); [done|].
  intros st pos. by apply predict_pos_equiv.
Qed.

(** X20.  Saving a model of 32-bit floats and loading it again does not
    change what it predicts: on every feature array and with every mean
    and std, [_predict_text] returns the same for the loaded model as for
    the original one. *)
Theorem predict_after_reload (model : TrainedModel F) (mean std : F) :
  model_float32 model →
  ∃ model',
    _load_model_npz (_save_model_npz model mean std) = Ok (model', mean, std)
    ∧ ∀ x m s, _predict_text model' x m s = _predict_text model x m s.
Proof.
  intros (Hw1 & Hb1 & Hw2 & Hb2). eexists. split; [apply load_save|].
  intros x m s. apply predict_text_equiv; cbn [config w1 b1 w2 b2].
  - by rewrite !lookup_insert_ne.
  - by rewrite !lookup_insert_ne.
  - by apply mat_cast_float32.
  - rewrite <- list_fmap_compose. rewrite <- (list_fmap_id (b1 model)) at 2.
    apply Forall_fmap_ext_1. eapply Forall_impl; [apply Hb1|].
    intros v Hv. simpl. unfold is_float32 in Hv. by rewrite Hv, Hv.
  - by apply ten_cast_float32.
  - by apply mat_cast_float32.
Qed.

End ReloadFacts.

(** ** Serializer: a missing member *)

Lemma bind_Raise {A B} (m : result A) (k : A → result B) e :
  rbind m k = Raise e → m = Raise e ∨ ∃ a, m = Ok a ∧ k a = Raise e.
Proof.
  destruct m as [a|e']; simpl.
  - intros Hk. right. by exists a.
  - intros [= ->]. by left.
Qed.

Section LoadErrors.
Context {F : Type} `{FloatOps F}.

Lemma npz_get_KeyError (data : gmap string (npy F)) name key :
  npz_get data name = Raise (KeyError key) →
  key = name +:+ " is not a file in the archive" ∧ data !! name = None.
Proof. unfold npz_get. destruct (data !! name); [done|]. by intros [= <-]. Qed.

Lemma member_KeyError {A} (data : gmap string (npy F)) name (cast : npy F → result A) key :
  (∀ a, cast a ≠ Raise (KeyError key)) →
  (a ←? npz_get data name; cast a) = Raise (KeyError key) →
  key = name +:+ " is not a file in the archive" ∧ data !! name = None.
Proof.
  intros Hcast [Hget|(a & _ & Ha)]%bind_Raise; [by apply npz_get_KeyError|].
  by destruct (Hcast a).
Qed.

(** Loading, once the config has been read. *)
Lemma load_after_config (data : gmap string (npy F)) :
  config_loads data →
  ∃ cfg mean std,
    _load_model_npz data
    = (w1 ←? (a ←? npz_get data "w1"; as_mat32 a);
       b1 ←? (a ←? npz_get data "b1"; as_vec32 a);
       w2 ←? (a ←? npz_get data "w2"; as_ten32 a);
       b2 ←? (a ←? npz_get data "b2"; as_mat32 a);
       Ok (mkTrainedModel cfg w1 b1 w2 b2, mean, std)).
Proof.
  intros (cfg & Hcj & Hmean & Hstd). exists cfg.
  unfold _load_model_npz. unfold npz_get at 1. rewrite Hcj. cbn [rbind config_of].
  destruct (cfg !! "pixel_mean") as [vm|];
    [destruct (Hmean vm eq_refl) as [fm Hfm]|];
    (destruct (cfg !! "pixel_std") as [vs|];
      [destruct (Hstd vs eq_refl) as [fs Hfs]|]);
    unfold default; cbn [from_option id py_float];
    rewrite ?Hfm; cbn [rbind]; rewrite ?Hfs; cbn [rbind]; by eexists _, _.
Qed.

(** X21.  What [_load_model_npz] does with an archive that lacks a
    member, for an archive whose arrays have the ranks of their fields.
    Without [config_json] it raises the KeyError numpy makes for that
    name.  With a [config_json] that holds a config it raises the
    KeyError for the first of [w1], [b1], [w2], [b2] that is missing, and
    it returns when none is.  And whenever it raises a KeyError, it is
    that of a member that is missing. *)
Theorem load_model_key_error (data : gmap string (npy F)) :
  ranks_fit data →
  (data !! "config_json" = None →
     _load_model_npz data
     = Raise (KeyError "config_json is not a file in the archive"))
  ∧ (config_loads data →
       (∀ pre name post,
          ["w1"; "b1"; "w2"; "b2"] = pre ++ name :: post →
          Forall (λ n, is_Some (data !! n)) pre →
          data !! name = None →
          _load_model_npz data
          = Raise (KeyError (name +:+ " is not a file in the archive")))
       ∧ (Forall (λ n, is_Some (data !! n)) ["w1"; "b1"; "w2"; "b2"] →
          ∃ r, _load_model_npz data = Ok r))
  ∧ ∀ key, _load_model_npz data = Raise (KeyError key) →
      ∃ name, name ∈ ["config_json"; "w1"; "b1"; "w2"; "b2"]
              ∧ data !! name = None
              ∧ key = name +:+ " is not a file in the archive".
Proof.
  intros (Hr1 & Hr2 & Hr3 & Hr4). split_and!.
  - intros Hcj. unfold _load_model_npz, npz_get. by rewrite Hcj.
  - intros (cfg & mean & std & ->)%load_after_config. split.
    + intros pre name post Heq Hpre Hmiss.
      destruct pre as [|n1 pre]; simplify_eq/=.
      { unfold npz_get at 1. by rewrite Hmiss. }
      apply Forall_cons in Hpre as [[a1 Ha1] Hpre].
      destruct (Hr1 a1 Ha1) as [m1 ->].
      unfold npz_get at 1. rewrite Ha1. cbn [rbind as_mat32].
      destruct pre as [|n2 pre]; simplify_eq/=.
      { unfold npz_get at 1. by rewrite Hmiss. }
      apply Forall_cons in Hpre as [[a2 Ha2] Hpre].
      destruct (Hr2 a2 Ha2) as [v2 ->].
      unfold npz_get at 1. rewrite Ha2. cbn [rbind as_vec32].
      destruct pre as [|n3 pre]; simplify_eq/=.
      { unfold npz_get at 1. by rewrite Hmiss. }
      apply Forall_cons in Hpre as [[a3 Ha3] Hpre].
      destruct (Hr3 a3 Ha3) as [t3 ->].
      unfold npz_get at 1. rewrite Ha3. cbn [rbind as_ten32].
      destruct pre as [|n4 pre]; simplify_eq/=.
      { unfold npz_get at 1. by rewrite Hmiss. }
      by destruct pre.
    + intros Hall.
      apply Forall_cons in Hall as [[a1 Ha1] Hall].
      apply Forall_cons in Hall as [[a2 Ha2] Hall].
      apply Forall_cons in Hall as [[a3 Ha3] Hall].
      apply Forall_cons in Hall as [[a4 Ha4] _].
      destruct (Hr1 a1 Ha1) as [m1 ->]. destruct (Hr2 a2 Ha2) as [v2 ->].
      destruct (Hr3 a3 Ha3) as [t3 ->]. destruct (Hr4 a4 Ha4) as [m4 ->].
      unfold npz_get. rewrite Ha1, Ha2, Ha3, Ha4. cbn [rbind as_mat32 as_vec32 as_ten32].
      by eexists.
  - intros key. unfold _load_model_npz.
    intros [Hget|(cj & _ & Hload)]%bind_Raise.
    { apply npz_get_KeyError in Hget as [-> ?].
      exists "config_json". split; [compute_done|done]. }
    apply bind_Raise in Hload as [Hcfg|(cfg & _ & Hload)].
    { exfalso. unfold config_of in Hcfg.
      destruct cj as [[[]|]|[|? [|? ?]]|m|t]; try done;
        by repeat case_decide. }
    apply bind_Raise in Hload as [Hmean|(mean & _ & Hload)].
    { exfalso. unfold py_float in Hmean.
      destruct (default _ _) as [| |z| |s| |]; try done.
      - by destruct (float_of_int z).
      - by destruct (float_of_str s). }
    apply bind_Raise in Hload as [Hstd|(std & _ & Hload)].
    { exfalso. unfold py_float in Hstd.
      destruct (default _ _) as [| |z| |s| |]; try done.
      - by destruct (float_of_int z).
      - by destruct (float_of_str s). }
    apply bind_Raise in Hload as [Hm|(w1' & _ & Hload)].
    { apply member_KeyError in Hm as [-> ?]; [|by intros []].
      exists "w1". split; [compute_done|done]. }
    apply bind_Raise in Hload as [Hm|(b1' & _ & Hload)].
    { apply member_KeyError in Hm as [-> ?]; [|by intros []].
      exists "b1". split; [compute_done|done]. }
    apply bind_Raise in Hload as [Hm|(w2' & _ & Hload)].
    { apply member_KeyError in Hm as [-> ?]; [|by intros []].
      exists "w2". split; [compute_done|done]. }
    apply bind_Raise in Hload as [Hm|(b2' & _ & Hload)].
    { apply member_KeyError in Hm as [-> ?]; [|by intros []].
      exists "b2". split; [compute_done|done]. }
    done.
Qed.

End LoadErrors.

(** ** Trainer: which RuntimeError a run raises *)

Lemma runtime_ZeroDivision {A} : ¬ raises_runtime (@Raise A ZeroDivisionError).
Proof. by intros [msg [=]]. Qed.

#[local] Hint Resolve runtime_ZeroDivision : runtime.

Lemma runtime_collect {A B} (f : A → result B) xs :
  (∀ x, ¬ raises_runtime (f x)) → ¬ raises_runtime (collect f xs).
Proof.
  intros Hf. induction xs as [|x xs IH]; simpl; [auto with runtime|].
  apply runtime_bind; [apply Hf|intros y].
  apply runtime_bind; [apply IH|intros ys]. auto with runtime.
Qed.

Section TrainerErrors.
Context {F : Type} `{FloatOps F} `{RngOps F}.

Lemma runtime_py_div_nat (a : F) n : ¬ raises_runtime (py_div_nat a n).
Proof. unfold py_div_nat. case_decide; auto with runtime. Qed.

Lemma runtime_column (y : mat Z) pos : ¬ raises_runtime (column y pos).
Proof. unfold column. case_decide; auto with runtime. Qed.

Lemma runtime_fancy (probs : mat F) tgt : ¬ raises_runtime (fancy probs tgt).
Proof.
  unfold fancy. apply runtime_collect. intros [i t]. simpl.
  case_decide; [|auto with runtime]. unfold np_index.
  repeat case_decide; auto with runtime.
Qed.

Lemma runtime_pick (probs : mat F) tgt : ¬ raises_runtime (pick probs tgt).
Proof.
  unfold pick. apply runtime_bind; [apply runtime_fancy|]. auto with runtime.
Qed.

Lemma runtime_sub_one_at (probs : mat F) tgt : ¬ raises_runtime (sub_one_at probs tgt).
Proof.
  unfold sub_one_at. apply runtime_bind; [apply runtime_fancy|]. auto with runtime.
Qed.

Lemma runtime_set_column (preds : mat Z) pos pred :
  ¬ raises_runtime (set_column preds pos pred).
Proof. unfold set_column. repeat case_decide; auto with runtime. Qed.

Lemma runtime_count_equal pred idx : ¬ raises_runtime (count_equal pred idx).
Proof. unfold count_equal. case_decide; auto with runtime. Qed.

Lemma runtime_mat_inplace (op : F → F → F) a b : ¬ raises_runtime (mat_inplace op a b).
Proof. unfold mat_inplace. case_decide; auto with runtime. Qed.

Lemma runtime_vec_inplace (op : F → F → F) a b : ¬ raises_runtime (vec_inplace op a b).
Proof. unfold vec_inplace. case_decide; auto with runtime. Qed.

Lemma runtime_ten_inplace (op : F → F → F) a b : ¬ raises_runtime (ten_inplace op a b).
Proof. unfold ten_inplace. case_decide; auto with runtime. Qed.

Lemma runtime_ten_set (t : ten F) pos g : ¬ raises_runtime (ten_set t pos g).
Proof. unfold ten_set. repeat case_decide; auto with runtime. Qed.

Lemma runtime_mat_set_row (m : mat F) pos v : ¬ raises_runtime (mat_set_row m pos v).
Proof. unfold mat_set_row. repeat case_decide; auto with runtime. Qed.

Lemma runtime_take_rows {A} `{Inhabited A} (m : mat A) idx :
  ¬ raises_runtime (take_rows m idx).
Proof. unfold take_rows. case_decide; auto with runtime. Qed.

Lemma runtime_eval_pos (y : mat Z) (h : mat F) w2 b2 st pos :
  ¬ raises_runtime (eval_pos y h w2 b2 st pos).
Proof.
  destruct st as [[loss preds] correct]. unfold eval_pos.
  apply runtime_bind; [apply runtime_ten_slice|intros w2p].
  apply runtime_bind; [apply runtime_matmul|intros hw].
  apply runtime_bind; [apply runtime_mat_slice|intros b2p].
  apply runtime_bind; [apply runtime_add_row|intros logits].
  apply runtime_bind; [apply runtime_softmax|intros probs].
  apply runtime_bind; [apply runtime_column|intros idx].
  apply runtime_bind; [apply runtime_pick|intros p].
  apply runtime_bind; [apply runtime_set_column|intros preds'].
  apply runtime_bind; [apply runtime_count_equal|intros k].
  auto with runtime.
Qed.

Lemma runtime_eval_model uninit (x : mat F) (y : mat Z) w1 b1 w2 b2 :
  ¬ raises_runtime (_eval_model uninit x y w1 b1 w2 b2).
Proof.
  unfold _eval_model. case_decide; [auto with runtime|].
  apply runtime_bind; [apply runtime_matmul|intros xw].
  apply runtime_bind; [apply runtime_add_row|intros z1].
  apply runtime_bind; [apply runtime_for_each; intros; apply runtime_eval_pos|].
  intros [[loss preds] correct].
  apply runtime_bind; [apply runtime_py_div_nat|intros l].
  apply runtime_bind; [apply runtime_py_div_nat|intros c].
  auto with runtime.
Qed.

Lemma runtime_grad_pos (yb : mat Z) (h : mat F) w2 b2 st pos :
  ¬ raises_runtime (grad_pos yb h w2 b2 st pos).
Proof.
  destruct st as [[[dW2 db2] dh] loss]. unfold grad_pos.
  apply runtime_bind; [apply runtime_ten_slice|intros w2p].
  apply runtime_bind; [apply runtime_matmul|intros hw].
  apply runtime_bind; [apply runtime_mat_slice|intros b2p].
  apply runtime_bind; [apply runtime_add_row|intros logits].
  apply runtime_bind; [apply runtime_softmax|intros probs].
  apply runtime_bind; [apply runtime_column|intros tgt].
  apply runtime_bind; [apply runtime_pick|intros p].
  apply runtime_bind; [apply runtime_sub_one_at|intros dlogits].
  apply runtime_bind; [apply runtime_matmul|intros g].
  apply runtime_bind; [apply runtime_ten_set|intros dW2'].
  apply runtime_bind; [apply runtime_mat_set_row|intros db2'].
  apply runtime_bind; [apply runtime_matmul|intros dw].
  apply runtime_bind; [apply runtime_mat_inplace|intros dh'].
  auto with runtime.
Qed.

Lemma runtime_train_step (cfg : TrainConfig F) xb yb seq_len st :
  ¬ raises_runtime (train_step cfg xb yb seq_len st).
Proof.
  destruct st as [ps epoch_loss]. unfold train_step.
  apply runtime_bind; [apply runtime_matmul|intros xw].
  apply runtime_bind; [apply runtime_add_row|intros z1].
  apply runtime_bind; [apply runtime_for_each; intros; apply runtime_grad_pos|].
  intros [[[dW2 db2] dh] loss].
  apply runtime_bind; [apply runtime_py_div_nat|intros l].
  apply runtime_bind; [apply runtime_matmul|intros dW1].
  apply runtime_bind; [apply runtime_mat_inplace|intros w1'].
  apply runtime_bind; [apply runtime_vec_inplace|intros b1'].
  apply runtime_bind; [apply runtime_ten_inplace|intros w2'].
  apply runtime_bind; [apply runtime_mat_inplace|intros b2'].
  auto with runtime.
Qed.

Lemma runtime_train_batch (cfg : TrainConfig F) x_train y_train seq_len perm st batch_idx :
  ¬ raises_runtime (train_batch cfg x_train y_train seq_len perm st batch_idx).
Proof.
  unfold train_batch.
  apply runtime_bind; [apply runtime_take_rows|intros xb].
  apply runtime_bind; [apply runtime_take_rows|intros yb].
  apply runtime_train_step.
Qed.

Lemma runtime_epoch_step (env : Env F) (cfg : TrainConfig F)
    x_train y_train x_val y_val n_train seq_len batches s epoch :
  ¬ raises_runtime
      (epoch_step env cfg x_train y_train x_val y_val n_train seq_len batches s epoch).
Proof.
  unfold epoch_step. destruct (permutation _ _) as [perm rng].
  apply runtime_bind; [apply runtime_for_each; intros; apply runtime_train_batch|].
  intros r.
  apply runtime_bind; [apply runtime_eval_model|intros [[tl tf] tc]].
  apply runtime_bind; [apply runtime_eval_model|intros [[vl vf] vc]].
  apply runtime_bind; [apply runtime_py_div_nat|intros percent].
  destruct (pace _ _ _ _ _). auto with runtime.
Qed.

(** X22.  [_train_mlp] raises a RuntimeError exactly when the training
    features are empty, and the message is then "empty_train_set". *)
Theorem train_mlp_runtime_error (env : Env F) (x_train : mat F) (y_train : mat Z)
    (x_val : mat F) (y_val : mat Z) (cfg : TrainConfig F) (vocab : list string)
    (msg : string) :
  _train_mlp env x_train y_train x_val y_val cfg vocab = Raise (RuntimeError msg)
  ↔ mat_size x_train = 0 ∧ msg = "empty_train_set".
Proof.
  unfold _train_mlp. case_decide as Hsize.
  - split; [by intros [= <-]|by intros [_ ->]].
  - split; [|by intros [? _]]. intros Hraise. exfalso.
    eapply runtime_bind; [| |by eexists; apply Hraise].
    { unfold batches_of. case_decide; auto with runtime. }
    intros batches.
    apply runtime_bind; [apply runtime_for_each; intros; apply runtime_epoch_step|].
    auto with runtime.
Qed.

End TrainerErrors.

(** ** Predictor: a feature array without rows *)

Section PredictorNoRows.
Context {F : Type} `{FloatOps F} `{PyRepr F}.

(** X23.  On a feature array without rows [_predict_text] of a
    well-formed model raises IndexError when the model has a head, and
    returns the empty text with confidence 0.0 when it has none. *)
Theorem predict_text_no_rows (model : TrainedModel F) (vs : list string)
    (x : mat F) (mean std : F) :
  well_formed model vs →
  nrows x = 0 → ncols x = ncols (w1 model) →
  _predict_text model x mean std
  = if decide (tdim0 (w2 model) = 0) then Ok ("", f_zero) else Raise IndexError.
Proof.
  intros (Hvocab & Hvs & _ & Hlen & Hb1 & Hw2 & Hb2r & Hb2c) Hrows Hcols.
  assert (0 < tdim1 (w2 model)) as HV by (destruct vs; simpl in *; [done|lia]).
  unfold _predict_text. rewrite Hvocab.
  destruct vs as [|v0 vs']; [done|]. cbn [fmap list_fmap].
  set (x' := mat_map _ (mat_map astype32 x)).
  destruct (matmul_is x' (mat_T (w1 model)) 0 (ncols (w1 model)) (nrows (w1 model))
              (mat_at x') (λ i j, mat_at (w1 model) j i)) as (xw & -> & Hxw).
  { split_and!; [done..|]. intros i j Hi. lia. }
  { apply mat_T_is, mat_is_self. }
  cbn [rbind].
  destruct (add_row_is xw (b1 model) _ _ _ Hxw Hb1) as (z1 & -> & Hz1).
  cbn [rbind].
  assert (mat_is (_relu z1) 0 (nrows (w1 model))
            (λ i j, np_maximum (f_add
               (np_dot (mat_at x' i <$> seq 0 (ncols (w1 model)))
                  ((λ l, mat_at (w1 model) j l) <$> seq 0 (ncols (w1 model))))
               (nth j (b1 model) f_zero)) f_zero)) as Hh.
  { unfold _relu. eapply mat_is_ext; [apply mat_map_is, Hz1|]. done. }
  case_decide as Hheads.
  - rewrite Hheads. done.
  - destruct (tdim0 (w2 model)) as [|n] eqn:Hn; [done|].
    cbn [seq for_each]. unfold predict_pos at 1.
    destruct (ten_slice_is (w2 model) _ _ _ _ 0 (ten_is_self _)) as (w2p & -> & Hw2p);
      [lia|]. cbn [rbind]. rewrite Hw2 in Hw2p.
    destruct (matmul_is (_relu z1) (mat_T w2p) _ _ _ _ _ Hh (mat_T_is _ _ _ _ Hw2p))
      as (hw & -> & Hhw). cbn [rbind].
    rewrite (mat_slice_is (b2 model) _ _ _ 0 (mat_is_self _)) by lia. cbn [rbind].
    destruct (add_row_is hw (mat_at (b2 model) 0 <$> seq 0 (ncols (b2 model)))
                _ _ _ Hhw) as (logits & -> & Hlogits).
    { by rewrite length_fmap, length_seq. }
    cbn [rbind].
    destruct (softmax_is logits _ _ _ Hlogits HV) as (probs & -> & Hprobs).
    cbn [rbind]. rewrite decide_False by (destruct Hprobs as (-> & _); lia).
    done.
Qed.

End PredictorNoRows.

(** * The client of the experiment service *)

Lemma rstrip_slash_no_slash s r : rstrip_slash s ≠ String.app r "/".
Proof.
  revert r. induction s as [|c s IH]; intros r; simpl.
  - by destruct r.
  - destruct (rstrip_slash s) as [|d kept] eqn:Hs.
    + destruct (Ascii.N_of_ascii c =? 47)%N eqn:Hc; [by destruct r|].
      destruct r as [|e [|? ?]]; simpl; [|done..].
      intros [= ->]. vm_compute in Hc. discriminate.
    + destruct r as [|e r]; simpl.
      * by intros [=].
      * intros [= _ Hk]. by apply (IH r).
Qed.

Lemma str_or_Some s b : s ≠ "" → str_or (Some s) b = s.
Proof. intros Hs. unfold str_or. by rewrite decide_False. Qed.

(** X24.  The gateway URL of a new [ExperimentsClient] never ends in a
    slash; its token is [None] or a non-empty string without surrounding
    whitespace; and built as the job builds it, from two values of
    [_require_env], the client has the given URL without trailing slashes
    and the given token, whatever the environment holds besides. *)
Theorem client_init_normalised {F} (environ : gmap string string)
    (gateway_url auth_token : option string) (timeout_seconds : F) :
  let client := ExperimentsClient_init environ gateway_url auth_token timeout_seconds in
  (∀ r, _gateway_url client ≠ String.app r "/")
  ∧ match _auth_token client with
    | Some token => token ≠ "" ∧ strip token = token
    | None => True
    end
  ∧ (∀ name1 name2 url token,
       _require_env environ name1 = Ok url →
       _require_env environ name2 = Ok token →
       gateway_url = Some url → auth_token = Some token →
       client = mkExperimentsClient (rstrip_slash url) (Some token) timeout_seconds).
Proof.
  cbv zeta. unfold ExperimentsClient_init. cbn [_gateway_url _auth_token].
  split_and!.
  - intros r. apply rstrip_slash_no_slash.
  - case_decide as Htok; [done|]. split; [done|apply strip_idemp].
  - intros name1 name2 url token Hurl Htoken -> ->.
    pose proof (require_env_strip environ name1 url Hurl) as [Hu1 Hu2].
    pose proof (require_env_strip environ name2 token Htoken) as [Ht1 Ht2].
    rewrite !str_or_Some by done. rewrite Hu2, Ht2. by rewrite decide_False.
Qed.

(** ** Trainer: what the telemetry depends on *)

Lemma for_each_ext_inv {A S} (P : S → Prop) (body body' : S → A → result S) s xs :
  (∀ s x, P s → body s x = body' s x) →
  (∀ s x s', P s → body s x = Ok s' → P s') →
  P s → for_each body s xs = for_each body' s xs.
Proof.
  intros Hsame Hkeep. revert s. induction xs as [|x xs IH]; intros s Hs; simpl; [done|].
  rewrite <- (Hsame s x Hs). destruct (body s x) as [s1|e] eqn:Hstep; simpl; [|done].
  apply IH. by eapply Hkeep.
Qed.

Section Reproducible.
Context {F : Type} `{FloatOps F} `{RngOps F}.

Lemma pace_same_clock (env1 env2 : Env F) (cfg : TrainConfig F) started ticks events :
  (∀ k, monotonic env1 k = monotonic env2 k) →
  pace env1 cfg started ticks events = pace env2 cfg started ticks events.
Proof. intros Hclock. unfold pace. by rewrite Hclock. Qed.

Lemma epoch_step_live_shape (env : Env F) (cfg : TrainConfig F)
    (x_train : mat F) (y_train : mat Z) (x_val : mat F) (y_val : mat Z)
    n_train seq_len batches s epoch s' :
  epoch_step env cfg x_train y_train x_val y_val n_train seq_len batches s epoch
  = Ok s' →
  params_shape (st_params s') = params_shape (st_params s).
Proof.
  intros (r & tr & va & percent & Hr & _ & _ & _ & -> & _)%epoch_step_Ok.
  eapply (for_each_preserves
            (λ st, params_shape st.1 = params_shape (st_params s))); [|exact Hr|done].
  intros st b st' _ Hb%train_batch_shape. cbv beta. congruence.
Qed.

Lemma epoch_step_same_clock (env1 env2 : Env F) (cfg : TrainConfig F)
    (x_train : mat F) (y_train : mat Z) (x_val : mat F) (y_val : mat Z)
    n_train batches s epoch :
  (∀ k, monotonic env1 k = monotonic env2 k) →
  ncols y_val ≤ ncols y_train →
  tdim0 (p_w2 (st_params s)) = ncols y_train →
  epoch_step env1 cfg x_train y_train x_val y_val n_train (ncols y_train) batches s epoch
  = epoch_step env2 cfg x_train y_train x_val y_val n_train (ncols y_train) batches s epoch.
Proof.
  intros Hclock Hval Hheads. unfold epoch_step. rewrite Hclock.
  destruct (permutation _ _) as [perm rng].
  destruct (for_each _ _ _) as [r|e] eqn:Hr; [|done]. cbn [rbind].
  assert (params_shape r.1 = params_shape (st_params s)) as Hsh.
  { eapply (for_each_preserves
              (λ st, params_shape st.1 = params_shape (st_params s))); [|exact Hr|done].
    intros st b st' _ Hb%train_batch_shape. cbv beta. congruence. }
  assert (tdim0 (p_w2 r.1) = ncols y_train) as Hr2.
  { unfold params_shape in Hsh. injection Hsh as _ _ _ Hd _ _ _ _. congruence. }
  rewrite (eval_params_any_buffer (scratch env1 (st_evals s))
             (scratch env2 (st_evals s)) x_train y_train r.1) by lia.
  rewrite (eval_params_any_buffer (scratch env1 (S (st_evals s)))
             (scratch env2 (S (st_evals s))) x_val y_val r.1) by lia.
  destruct (eval_params _ x_train _ _) as [[[tl tf] tc]|e]; [|done]. cbn [rbind].
  destruct (eval_params _ x_val _ _) as [[[vl vf] vc]|e]; [|done]. cbn [rbind].
  destruct (py_div_nat _ _) as [percent|e]; [|done]. cbn [rbind].
  by rewrite (pace_same_clock env1 env2).
Qed.

(** X25.  What a run of [_train_mlp] returns and logs is fixed by its
    arguments and the readings of the clock: when the validation labels
    are no wider than the training labels, two runs that read the same
    clock values return the same model and loss and make the same calls of
    the logger and of [time.sleep], or raise the same exception, whatever
    the uninitialised buffers held. *)
Theorem train_mlp_reproducible (env1 env2 : Env F) (x_train : mat F) (y_train : mat Z)
    (x_val : mat F) (y_val : mat Z) (cfg : TrainConfig F) (vocab : list string) :
  (∀ k, monotonic env1 k = monotonic env2 k) →
  ncols y_val ≤ ncols y_train →
  _train_mlp env1 x_train y_train x_val y_val cfg vocab
  = _train_mlp env2 x_train y_train x_val y_val cfg vocab.
Proof.
  intros Hclock Hval. unfold _train_mlp. case_decide; [done|].
  destruct (batches_of _ _) as [batches|e]; [|done]. cbn [rbind].
  rewrite (for_each_ext_inv
             (λ s, tdim0 (p_w2 (st_params s)) = ncols y_train)
             (epoch_step env1 cfg x_train y_train x_val y_val (nrows x_train)
                (ncols y_train) batches)
             (epoch_step env2 cfg x_train y_train x_val y_val (nrows x_train)
                (ncols y_train) batches)); [reflexivity| | |].
  - intros s epoch Hs. by apply epoch_step_same_clock.
  - intros s epoch s' Hs Hstep.
    apply epoch_step_live_shape in Hstep as Hsh.
    unfold params_shape in Hsh. injection Hsh as _ _ _ Hd _ _ _ _. congruence.
  - pose proof (proj1 (init_state_shape cfg (ncols x_train) (ncols y_train)
                         (length vocab))) as Hsh.
    unfold params_shape in Hsh. by injection Hsh as _ _ _ Hd _ _ _ _.
Qed.

End Reproducible.

(** ** The settings of an evaluation job *)

Section EvaluationSettings.
Context {F : Type} `{FloatOps F} `{PyNum F}.

Lemma require_env_blank (environ : gmap string string) name :
  env_blank environ name → _require_env environ name = Raise ValueError.
Proof.
  unfold env_blank, _require_env, str_or.
  destruct (environ !! name) as [raw|]; [|done]. intros Hraw.
  destruct (decide (raw = "")) as [->|_]; [done|]. by rewrite Hraw.
Qed.

Lemma require_env_set (environ : gmap string string) name :
  ¬ env_blank environ name →
  ∃ raw, environ !! name = Some raw ∧ strip raw ≠ ""
         ∧ _require_env environ name = Ok (strip raw).
Proof.
  unfold env_blank, _require_env, str_or.
  destruct (environ !! name) as [raw|]; [|done]. intros Hraw.
  exists raw. split_and!; [done..|].
  destruct (decide (raw = "")) as [->|_]; [done|]. by rewrite decide_False.
Qed.

Lemma env_blank_dec (environ : gmap string string) name :
  env_blank environ name ∨ ¬ env_blank environ name.
Proof.
  unfold env_blank. destruct (environ !! name) as [raw|]; [|by left].
  destruct (decide (strip raw = "")); [by left|by right].
Qed.

Lemma normalize_split_blank (raw : string) :
  strip raw = "" → _normalize_split raw = "evaluate".
Proof. intros Hraw. unfold _normalize_split. by rewrite Hraw. Qed.

(** X26.  The settings [run_evaluation] starts from, read off the
    environment.  It stops with ValueError when one of DATAPILOT_URL,
    TOKEN, RUN_ID, DATASET_VERSION_ID is unset or blank, and only then,
    whatever the optional variables hold.  Otherwise each of the four
    settings is the value of its variable without the surrounding
    whitespace; the evaluation id is that of ANIMUS_EVALUATION_ID, empty
    when the variable is unset; the split is the normalised value of
    ANIMUS_EVAL_SPLIT, "evaluate" when the variable is unset or blank;
    and the number of preview samples is the integer
    ANIMUS_EVAL_PREVIEW_SAMPLES holds, brought into 1..128, and 16 when
    the variable is unset or does not hold an integer. *)
Theorem run_evaluation_settings_checked (environ : gmap string string) :
  let required := ["DATAPILOT_URL"; "TOKEN"; "RUN_ID"; "DATASET_VERSION_ID"] in
  match run_evaluation_settings (F := F) environ with
  | Raise e =>
      e = ValueError ∧ ∃ name, name ∈ required ∧ env_blank environ name
  | Ok s =>
      Forall (λ name, ¬ env_blank environ name) required
      ∧ Forall (λ it : string * string,
                  ∃ raw, environ !! it.1 = Some raw ∧ it.2 = strip raw ∧ it.2 ≠ "")
          [("DATAPILOT_URL", datapilot_url s); ("TOKEN", token s);
           ("RUN_ID", run_id s); ("DATASET_VERSION_ID", dataset_version_id s)]
      ∧ evaluation_id s = strip (default "" (environ !! "ANIMUS_EVALUATION_ID"))
      ∧ split s = _normalize_split (default "" (environ !! "ANIMUS_EVAL_SPLIT"))
      ∧ (env_blank environ "ANIMUS_EVAL_SPLIT" → split s = "evaluate")
      ∧ (1 ≤ preview_samples s ≤ 128)%Z
      ∧ match environ !! "ANIMUS_EVAL_PREVIEW_SAMPLES" ≫= (λ raw, int_of_str (strip raw)) with
        | Some z =>
            ((z < 1)%Z → preview_samples s = 1%Z)
            ∧ ((1 ≤ z ≤ 128)%Z → preview_samples s = z)
            ∧ ((128 < z)%Z → preview_samples s = 128%Z)
        | None => preview_samples s = 16%Z
        end
  end.
Proof.
  cbv zeta. unfold run_evaluation_settings.
  destruct (env_blank_dec environ "DATAPILOT_URL") as [B1|B1].
  { rewrite (require_env_blank _ _ B1). cbn [rbind]. split; [done|].
    exists "DATAPILOT_URL". split; [compute_done|done]. }
  destruct (require_env_set _ _ B1) as (raw1 & E1 & N1 & ->). cbn [rbind].
  destruct (env_blank_dec environ "TOKEN") as [B2|B2].
  { rewrite (require_env_blank _ _ B2). cbn [rbind]. split; [done|].
    exists "TOKEN". split; [compute_done|done]. }
  destruct (require_env_set _ _ B2) as (raw2 & E2 & N2 & ->). cbn [rbind].
  destruct (env_blank_dec environ "RUN_ID") as [B3|B3].
  { rewrite (require_env_blank _ _ B3). cbn [rbind]. split; [done|].
    exists "RUN_ID". split; [compute_done|done]. }
  destruct (require_env_set _ _ B3) as (raw3 & E3 & N3 & ->). cbn [rbind].
  destruct (env_blank_dec environ "DATASET_VERSION_ID") as [B4|B4].
  { rewrite (require_env_blank _ _ B4). cbn [rbind]. split; [done|].
    exists "DATASET_VERSION_ID". split; [compute_done|done]. }
  destruct (require_env_set _ _ B4) as (raw4 & E4 & N4 & ->). cbn [rbind].
  assert (∃ z, _as_int (environ_get (F := F) environ "ANIMUS_EVAL_PREVIEW_SAMPLES") 16
               = Ok z
               ∧ match environ !! "ANIMUS_EVAL_PREVIEW_SAMPLES"
                       ≫= (λ raw, int_of_str (strip raw)) with
                 | Some z' => z = z'
                 | None => z = 16%Z
                 end) as (z & -> & Hz).
  { unfold environ_get.
    destruct (environ !! "ANIMUS_EVAL_PREVIEW_SAMPLES") as [raw|];
      cbn [_as_int mbind option_bind]; [|by eexists].
    destruct (int_of_str (strip raw)); by eexists. }
  cbn [rbind datapilot_url token run_id dataset_version_id evaluation_id split
       preview_samples].
  split_and!.
  - by repeat constructor.
  - repeat constructor; by eexists.
  - unfold str_or. destruct (environ !! "ANIMUS_EVALUATION_ID") as [raw|]; [|done].
    cbn [default from_option id]. by destruct (decide (raw = "")) as [->|_].
  - unfold str_or. destruct (environ !! "ANIMUS_EVAL_SPLIT") as [raw|]; [|done].
    cbn [default from_option id]. by destruct (decide (raw = "")) as [->|_].
  - unfold env_blank, str_or.
    destruct (environ !! "ANIMUS_EVAL_SPLIT") as [raw|]; [|done].
    intros Hraw. destruct (decide (raw = "")) as [->|_]; [done|].
    by apply normalize_split_blank.
  - unfold _clamp_int. lia.
  - unfold _clamp_int. lia.
  - destruct (environ !! "ANIMUS_EVAL_PREVIEW_SAMPLES" ≫= _) as [z'|];
      subst z; unfold _clamp_int; [split_and!; lia|done].
Qed.

End EvaluationSettings.

(** ** Trainer: the samples an epoch trains on *)

Section EpochSamples.
Context {F : Type} `{FloatOps F} `{RngOps F}.

(** X14.  An epoch of [_train_mlp] trains on every sample exactly once.
    With [n_train] the number of rows of [x_train], [batches_per_epoch]
    as [_train_mlp] computes it, and the permutation the epoch draws
    being one of [range(n_train)], as numpy's [rng.permutation] is: the
    parameters the epoch leaves are those of the training step carried
    out on the minibatches in turn, from the parameters the epoch found;
    no minibatch is empty or longer than [batch_size]; and the
    minibatches put together are the permutation, so that each of the
    sample numbers [0 .. n_train - 1] is in them once and nothing else
    is. *)
Theorem epoch_trains_on_each_sample_once (env : Env F) (cfg : TrainConfig F)
    (x_train : mat F) (y_train : mat Z) (x_val : mat F) (y_val : mat Z)
    (seq_len batches_per_epoch epoch : nat) (s s' : train_state) :
  let n_train := nrows x_train in
  let perm := (permutation (st_rng s) n_train).1 in
  let batches := epoch_batches (batch_size cfg) perm batches_per_epoch in
  perm ≡ₚ seq 0 n_train →
  batches_of n_train (batch_size cfg) = Ok batches_per_epoch →
  epoch_step env cfg x_train y_train x_val y_val n_train seq_len
    batches_per_epoch s epoch = Ok s' →
  (∃ r, for_each (train_rows cfg x_train y_train seq_len)
          (st_params s, f_zero) batches = Ok r
        ∧ st_params s' = r.1)
  ∧ Forall (λ idx, 0 < length idx ≤ batch_size cfg) batches
  ∧ concat batches = perm
  ∧ NoDup (concat batches)
  ∧ ∀ i, i ∈ concat batches ↔ i < n_train.
Proof.
  intros n_train perm batches Hperm Hbatches Hstep.
  assert (length perm = n_train) as Hlen.
  { by rewrite Hperm, length_seq. }
  rewrite <- Hlen in Hbatches.
  assert (concat batches = perm) as Hcat by by apply concat_epoch_batches.
  split_and!.
  - apply epoch_step_Ok in Hstep as (r & _ & _ & _ & Hr & _ & _ & _ & Hps & _).
    exists r. split; [|done]. unfold batches, epoch_batches.
    rewrite for_each_fmap. exact Hr.
  - unfold batches, epoch_batches. rewrite Forall_fmap, Forall_forall.
    intros b Hb%elem_of_seq. simpl. apply (minibatch_length perm _ batches_per_epoch); [done|lia].
  - done.
  - rewrite Hcat, Hperm. apply NoDup_seq.
  - intros i. rewrite Hcat, Hperm, elem_of_seq. lia.
Qed.

End EpochSamples.

(** ** The properties on concrete inputs *)

Lemma fixed_literals : literal_order Z.
Proof. by split. Qed.

(** " 7 " epochs, a batch size of 1000 cut to 512, a learning rate of 9.0
    cut to 5.0, a hidden size of 20.7 cut to 20, a seed given as [True]. *)
Lemma parse_train_config_int_bounds_witness :
  ∃ cfg, _parse_train_config FixedJob.params1 = Ok cfg
         ∧ epochs cfg = 7 ∧ batch_size cfg = 512 ∧ hidden_size cfg = 20
         ∧ seed cfg = 17
         ∧ (4 ≤ Z.of_nat (batch_size cfg) ≤ 512)%Z.
Proof.
  assert (∃ cfg, _parse_train_config FixedJob.params1 = Ok cfg
                 ∧ epochs cfg = 7 ∧ batch_size cfg = 512 ∧ hidden_size cfg = 20
                 ∧ seed cfg = 17) as (cfg & Hrun & He & Hb & Hh & Hs).
  { eexists. split; [vm_compute; reflexivity|]. by split_and!. }
  exists cfg. do 5 (split; [assumption|]).
  destruct (parse_train_config_int_bounds FixedJob.params1 cfg Hrun)
    as ((_ & Hbounds & _) & _).
  exact Hbounds.
Defined.

Lemma parse_train_config_float_bounds_witness :
  ∃ cfg, _parse_train_config FixedJob.params1 = Ok cfg
         ∧ learning_rate cfg = (5 * Fixed.scale)%Z
         ∧ f_ltb f_5 (learning_rate cfg) = false.
Proof.
  assert (∃ cfg, _parse_train_config FixedJob.params1 = Ok cfg
                 ∧ learning_rate cfg = (5 * Fixed.scale)%Z) as (cfg & Hrun & Hlr).
  { eexists. split; [vm_compute; reflexivity|]. reflexivity. }
  exists cfg. do 2 (split; [assumption|]).
  destruct (parse_train_config_float_bounds FixedJob.params1 cfg fixed_order)
    as (_ & Hbound & _); [reflexivity|reflexivity|exact Hrun|].
  exact Hbound.
Defined.

Lemma parse_train_config_returns_witness :
  ∃ cfg, _parse_train_config FixedJob.params1 = Ok cfg.
Proof.
  apply (parse_train_config_returns FixedJob.params1).
  - intros key f _. by eexists.
  - intros key z _. by eexists.
Defined.

Lemma parse_train_config_defaults_witness :
  _parse_train_config FixedJob.params2
  = Ok (mkTrainConfig 40 32 200000000%Z 128 500000000%Z 96 24 200 64 17).
Proof.
  apply (parse_train_config_defaults FixedJob.params2 fixed_literals).
  intros key v. unfold FixedJob.params2.
  rewrite !lookup_insert_Some, lookup_empty.
  intros [[_ <-]|[_ [[_ <-]|[_ [=]]]]]; exact I.
Defined.

(** Two labels over the vocabulary ["0"; "1"; "<pad>"], four positions:
    the label "0x1" has a character that is not in the vocabulary. *)
Lemma encode_labels_entries_witness :
  ∃ y, _encode_labels ["0x1"; "1"] Fixed.vocab3 4 = Ok y
       ∧ y = [[0; 2; 1; 2]; [1; 2; 2; 2]]
       ∧ length y = 2.
Proof.
  exists [[0; 2; 1; 2]; [1; 2; 2; 2]].
  assert (_encode_labels ["0x1"; "1"] Fixed.vocab3 4 = Ok [[0; 2; 1; 2]; [1; 2; 2; 2]])
    as Hrun by (vm_compute; reflexivity).
  split; [exact Hrun|]. split; [reflexivity|].
  apply (encode_labels_entries ["0x1"; "1"] Fixed.vocab3 4 _ Hrun).
Defined.

(** The same characters in another order and with repetitions. *)
Lemma build_vocab_same_chars_witness :
  _build_vocab ["ab"; "ba"] = _build_vocab ["b"; "a"; "aab"].
Proof.
  apply (build_vocab_same_chars ["ab"; "ba"] ["b"; "a"; "aab"]).
  intros ch. cbn. rewrite !elem_of_cons, !elem_of_nil. tauto.
Defined.

Lemma returns_Ok {A} (r : result A) :
  (match r with Ok _ => true | Raise _ => false end) = true → ∃ a, r = Ok a.
Proof. destruct r as [a|e]; [by exists a|done]. Qed.

(** The first epoch of the run on the four-image data set, with
    minibatches of two samples. *)
Lemma epoch_trains_on_each_sample_once_witness :
  let s := init_state Fixed.cfg4 2 2 3 in
  let batches := epoch_batches 2 (permutation (st_rng s) 4).1 2 in
  Forall (λ idx, 0 < length idx ≤ 2) batches
  ∧ NoDup (concat batches)
  ∧ ∀ i, i ∈ concat batches ↔ i < 4.
Proof.
  intros s batches.
  assert (∃ s', epoch_step Fixed.env0 Fixed.cfg4 Fixed.x4 Fixed.y4 Fixed.x4 Fixed.y4
                  4 2 2 s 1 = Ok s') as [s' Hstep].
  { apply returns_Ok. vm_compute. reflexivity. }
  destruct (epoch_trains_on_each_sample_once Fixed.env0 Fixed.cfg4
              Fixed.x4 Fixed.y4 Fixed.x4 Fixed.y4 2 2 1 s s')
    as (_ & Hlen & _ & Hnd & Hin).
  - compute_done.
  - reflexivity.
  - exact Hstep.
  - split_and!; [exact Hlen|exact Hnd|exact Hin].
Defined.

(** Three epochs on the four-image data set. *)
Lemma train_mlp_model_shapes_witness :
  ∃ model val_loss events,
    _train_mlp Fixed.env0 Fixed.x4 Fixed.y4 Fixed.x4 Fixed.y4 Fixed.cfg4 Fixed.vocab3
    = Ok (model, val_loss, events)
    ∧ nrows (w1 model) = 3 ∧ ncols (w1 model) = 2 ∧ length (b1 model) = 3
    ∧ tdim0 (w2 model) = 2 ∧ tdim1 (w2 model) = 3 ∧ tdim2 (w2 model) = 3
    ∧ nrows (b2 model) = 2 ∧ ncols (b2 model) = 3.
Proof.
  assert (∃ r, _train_mlp Fixed.env0 Fixed.x4 Fixed.y4 Fixed.x4 Fixed.y4
                 Fixed.cfg4 Fixed.vocab3 = Ok r)
    as [[[model val_loss] events] Hrun].
  { let r := eval vm_compute in
      (_train_mlp Fixed.env0 Fixed.x4 Fixed.y4 Fixed.x4 Fixed.y4
         Fixed.cfg4 Fixed.vocab3) in
    match r with Ok ?x => exists x end.
    vm_compute. reflexivity. }
  exists model, val_loss, events. split; [exact Hrun|].
  destruct (train_mlp_model_shapes _ _ _ _ _ _ _ _ _ _ Hrun)
    as (? & ? & ? & ? & ? & ? & ? & ? & _).
  by split_and!.
Defined.

Lemma train_mlp_telemetry_witness :
  ∃ model val_loss events,
    _train_mlp Fixed.env0 Fixed.x4 Fixed.y4 Fixed.x4 Fixed.y4 Fixed.cfg4 Fixed.vocab3
    = Ok (model, val_loss, events)
    ∧ metrics_steps events = [1; 2; 3]
    ∧ progress_steps events = [1; 2; 3]
    ∧ sleeps events = [].
Proof.
  assert (∃ r, _train_mlp Fixed.env0 Fixed.x4 Fixed.y4 Fixed.x4 Fixed.y4
                 Fixed.cfg4 Fixed.vocab3 = Ok r)
    as [[[model val_loss] events] Hrun].
  { let r := eval vm_compute in
      (_train_mlp Fixed.env0 Fixed.x4 Fixed.y4 Fixed.x4 Fixed.y4
         Fixed.cfg4 Fixed.vocab3) in
    match r with Ok ?x => exists x end.
    vm_compute. reflexivity. }
  exists model, val_loss, events. split; [exact Hrun|].
  destruct (train_mlp_telemetry _ _ _ _ _ _ _ _ _ _ Hrun)
    as (Hm & Hp & _ & _ & Hoff).
  split_and!; [exact Hm|exact Hp|]. apply Hoff. reflexivity.
Defined.

(** The same run with no validation image: the loss reported is 0.0 and
    the parameters are those of the first of the three epochs. *)
Lemma train_mlp_empty_validation_witness :
  ∃ model val_loss events s1,
    _train_mlp Fixed.env0 Fixed.x4 Fixed.y4 (Mat 0 2 (λ _ _, 0%Z)) (Mat 0 2 (λ _ _, 0%Z))
      Fixed.cfg4 Fixed.vocab3
    = Ok (model, val_loss, events)
    ∧ epoch_step Fixed.env0 Fixed.cfg4 Fixed.x4 Fixed.y4
        (Mat 0 2 (λ _ _, 0%Z)) (Mat 0 2 (λ _ _, 0%Z)) 4 2 2
        (init_state Fixed.cfg4 2 2 3) 1 = Ok s1
    ∧ params_of model = st_params s1
    ∧ val_loss = 0%Z.
Proof.
  assert (∃ r, _train_mlp Fixed.env0 Fixed.x4 Fixed.y4
                 (Mat 0 2 (λ _ _, 0%Z)) (Mat 0 2 (λ _ _, 0%Z))
                 Fixed.cfg4 Fixed.vocab3 = Ok r)
    as [[[model val_loss] events] Hrun].
  { let r := eval vm_compute in
      (_train_mlp Fixed.env0 Fixed.x4 Fixed.y4
         (Mat 0 2 (λ _ _, 0%Z)) (Mat 0 2 (λ _ _, 0%Z))
         Fixed.cfg4 Fixed.vocab3) in
    match r with Ok ?x => exists x end.
    vm_compute. reflexivity. }
  destruct (train_mlp_empty_validation Fixed.env0 Fixed.x4 Fixed.y4
              (Mat 0 2 (λ _ _, 0%Z)) (Mat 0 2 (λ _ _, 0%Z))
              Fixed.cfg4 Fixed.vocab3 model val_loss events)
    as (batches & s1 & Hb & Hs1 & Hps & Hloss).
  - reflexivity.
  - reflexivity.
  - left. reflexivity.
  - simpl. lia.
  - exact Hrun.
  - exists model, val_loss, events, s1.
    assert (batches = 2) as -> by (vm_compute in Hb; congruence).
    by split_and!.
Defined.

(** The hand-made model evaluated with two different buffer contents. *)
Lemma eval_model_buffer_independent_witness :
  _eval_model (λ _ _, 0%Z) Fixed.x4 Fixed.y4
    (w1 Fixed.model3) (b1 Fixed.model3) (w2 Fixed.model3) (b2 Fixed.model3)
  = _eval_model (λ _ _, 7%Z) Fixed.x4 Fixed.y4
      (w1 Fixed.model3) (b1 Fixed.model3) (w2 Fixed.model3) (b2 Fixed.model3).
Proof.
  apply (eval_model_buffer_independent (H := Fixed.float_ops)). simpl. lia.
Defined.

(** The trained model of the three-epoch run on the first image. *)
Lemma trained_model_predicts_witness :
  ∃ model val_loss events tokens confs,
    _train_mlp Fixed.env0 Fixed.x4 Fixed.y4 Fixed.x4 Fixed.y4 Fixed.cfg4 Fixed.vocab3
    = Ok (model, val_loss, events)
    ∧ length tokens = 2
    ∧ _predict_text model Fixed.x4 0%Z Fixed.scale
      = Ok (join (rstrip PAD_TOKEN tokens),
            confidence_of (take (length (rstrip PAD_TOKEN tokens)) confs)).
Proof.
  assert (∃ r, _train_mlp Fixed.env0 Fixed.x4 Fixed.y4 Fixed.x4 Fixed.y4
                 Fixed.cfg4 Fixed.vocab3 = Ok r)
    as [[[model val_loss] events] Hrun].
  { let r := eval vm_compute in
      (_train_mlp Fixed.env0 Fixed.x4 Fixed.y4 Fixed.x4 Fixed.y4
         Fixed.cfg4 Fixed.vocab3) in
    match r with Ok ?x => exists x end.
    vm_compute. reflexivity. }
  destruct (trained_model_predicts _ _ _ _ _ _ _ _ _ _ Fixed.x4 0%Z Fixed.scale Hrun)
    as [_ Hpred].
  destruct Hpred as (tokens & confs & Hlen & _ & Hp); [done|simpl; lia|reflexivity|].
  exists model, val_loss, events, tokens, confs. by split_and!.
Defined.

(** The hand-made model, whose entries are 32-bit floats. *)
Lemma predict_after_reload_witness :
  ∃ model',
    _load_model_npz (_save_model_npz Fixed.model3 5%Z 7%Z) = Ok (model', 5%Z, 7%Z)
    ∧ _predict_text model' Fixed.x4 0%Z Fixed.scale
      = _predict_text Fixed.model3 Fixed.x4 0%Z Fixed.scale.
Proof.
  destruct (predict_after_reload Fixed.model3 5%Z 7%Z) as (model' & Hload & Hsame).
  { unfold model_float32, ten_float32, mat_float32, is_float32.
    split_and!; compute_done. }
  exists model'. split; [exact Hload|apply Hsame].
Defined.

(** The archive of the hand-made model with the member [b1] taken
    out. *)
Lemma load_model_key_error_witness :
  let data : gmap string (npy Z) :=
    delete "b1" (_save_model_npz Fixed.model3 0%Z Fixed.scale) in
  _load_model_npz data = Raise (KeyError "b1 is not a file in the archive").
Proof.
  intros data.
  destruct (load_model_key_error (H := Fixed.float_ops) data) as (_ & Hmiss & _).
  { unfold ranks_fit. split_and!; intros a Ha; vm_compute in Ha;
      first [discriminate|injection Ha as <-; by eexists]. }
  destruct Hmiss as [Hfirst _].
  { exists (<["pixel_std" := PyFloat Fixed.scale]>
              (<["pixel_mean" := PyFloat 0%Z]> (config Fixed.model3))).
    split_and!; [reflexivity| |]; intros v Hv; vm_compute in Hv;
      injection Hv as <-; by eexists. }
  apply (Hfirst ["w1"] "b1" ["w2"; "b2"]); [reflexivity| |reflexivity].
  repeat constructor. vm_compute. by eexists.
Defined.

(** The hand-made model, which has two heads, on no feature row. *)
Lemma predict_text_no_rows_witness :
  _predict_text Fixed.model3 (Mat 0 2 (λ _ _, 0%Z)) 0%Z Fixed.scale = Raise IndexError.
Proof.
  apply (predict_text_no_rows Fixed.model3 Fixed.vocab3 (Mat 0 2 (λ _ _, 0%Z))).
  - unfold well_formed. split_and!; [reflexivity|done|compute_done|reflexivity..].
  - reflexivity.
  - reflexivity.
Defined.

(** The three-epoch run with two different contents of the buffers. *)
Lemma train_mlp_reproducible_witness :
  _train_mlp Fixed.env0 Fixed.x4 Fixed.y4 Fixed.x4 Fixed.y4 Fixed.cfg4 Fixed.vocab3
  = _train_mlp (mkEnv (monotonic Fixed.env0) (λ _ _ _, 7%Z))
      Fixed.x4 Fixed.y4 Fixed.x4 Fixed.y4 Fixed.cfg4 Fixed.vocab3.
Proof.
  apply (train_mlp_reproducible Fixed.env0 (mkEnv (monotonic Fixed.env0) (λ _ _ _, 7%Z))).
  - intros k. reflexivity.
  - simpl. lia.
Defined.
